(** * ProofAge Rail: the proof-api server and its bootstrap seed

    A shallow embedding of [services/proof-api/src/server.ts] (the Fastify
    handlers, the zod schemas they parse with, the Prisma calls they make)
    and of the seed script that upserts the bootstrap merchant and key,
    followed by the properties of the trust/lifecycle core.

    Conventions.
    - Strings are sequences of code units; [String.length] is JS [.length].
    - Instants the clock gives are integers, milliseconds since the epoch;
      a [Date] made from a claim of a token may be the Invalid Date.
    - The lifetime of a token is a whole number of seconds.
    - A table is a finite map from primary key to row; the row records do
      not repeat the key.
    - A handler is a computation over the database that goes on, replies
      (and returns), or lets a rejected promise escape. *)

From Stdlib Require Import ZArith Ascii String List Bool Lia.
From stdpp Require Import base option list sorting gmap strings pretty fin_maps.

Local Open Scope string_scope.
Local Open Scope Z_scope.

(* ===================================================================== *)
(** ** JavaScript values as the handlers see them *)
(* ===================================================================== *)

(** A JS number as the handlers meet it: integer-valued, a finite number
    that is not an integer, or an infinity ([JSON.parse] gives one for a
    literal beyond the range; neither it nor a query string gives NaN).
    Of a number that is not an integer the code only asks how it compares
    with a whole number of seconds and which time value
    [new Date(x * 1000)] holds, so that is what is kept of it: its integer
    part [floor] and the milliseconds [x * 1000] truncates to. *)
Inductive jsnum : Type :=
| NumInt (z : Z)
| NumFrac (floor ms : Z)
| NumInf (negative : bool).

(** A [Date]: a time value in milliseconds, or the Invalid Date. *)
Inductive Date : Type :=
| Instant (ms : Z)
| InvalidDate.

(** The largest time value: 8.64e15 ms either side of the epoch. *)
Definition max_time : Z := 8640000000000000.

(** [new Date(ms)] for a whole number of milliseconds. *)
Definition time_clip (ms : Z) : Date :=
  if Z.abs ms <=? max_time then Instant ms else InvalidDate.

(** [new Date(x * 1000)] *)
Definition date_of_number (x : jsnum) : Date :=
  match x with
  | NumInt s => time_clip (s * 1000)
  | NumFrac _ ms => time_clip ms
  | NumInf _ => InvalidDate
  end.

(** [x > n] for a number and an integer. *)
Definition num_gtb (x : jsnum) (n : Z) : bool :=
  match x with
  | NumInt z => n <? z
  | NumFrac floor _ => n <=? floor
  | NumInf negative => negb negative
  end.

#[local] Set Warnings "-register-all".
Inductive jsval : Type :=
| JUndefined
| JNull
| JBool (b : bool)
| JNum (n : jsnum)
| JStr (s : string)
| JArr (l : list jsval)
| JObj.
#[local] Set Warnings "register-all".

(** [o.k] on a plain object: a missing key reads [undefined]. *)
Definition field (o : gmap string jsval) (k : string) : jsval :=
  default JUndefined (o !! k).

(** [request.body]: nothing, a plain object, or any other JSON value. *)
Inductive jsbody : Type :=
| BodyNone
| BodyObject (o : gmap string jsval)
| BodyOther.

(** A header value: Node gives a string, or a list for repeated headers. *)
Inductive header : Type :=
| HString (s : string)
| HArray (l : list string).

Record request : Type := {
  headers : gmap string header;
  params : gmap string jsval;
  query : gmap string jsval;
  body : jsbody
}.

(** [str.length >= n] and [str.length <= n]. *)
Definition min_len (n : nat) (s : string) : bool := (n <=? String.length s)%nat.
Definition max_len (n : nat) (s : string) : bool := (String.length s <=? n)%nat.

(** [str.slice(0, n)] and [str.slice(-n)]. *)
Definition slice_head (n : nat) (s : string) : string := String.substring 0 n s.
Definition slice_tail (n : nat) (s : string) : string :=
  String.substring (String.length s - n) n s.

(** [str.replaceAll("-", "")]. *)
Fixpoint strip_dashes (s : string) : string :=
  match s with
  | EmptyString => EmptyString
  | String c r => if Ascii.eqb c "-"%char then strip_dashes r else String c (strip_dashes r)
  end.

(* ===================================================================== *)
(** ** zod combinators (the fragment the schemas use) *)
(* ===================================================================== *)

Module Zod.

(** [z.string().min(lo)] *)
Definition string_min (lo : nat) (v : jsval) : option string :=
  match v with
  | JStr s => if min_len lo s then Some s else None
  | _ => None
  end.

(** [z.string().min(lo).max(hi)] *)
Definition string_between (lo hi : nat) (v : jsval) : option string :=
  match v with
  | JStr s => if min_len lo s && max_len hi s then Some s else None
  | _ => None
  end.

(** [z.string()] *)
Definition string_any (v : jsval) : option string :=
  match v with
  | JStr s => Some s
  | _ => None
  end.

(** [z.string().uuid()] and [z.string().cuid()], over the format test. *)
Definition string_format (fmt : string -> bool) (v : jsval) : option string :=
  match v with
  | JStr s => if fmt s then Some s else None
  | _ => None
  end.

(** [z.number().int().min(lo).max(hi)] *)
Definition int_between (lo hi : Z) (v : jsval) : option Z :=
  match v with
  | JNum (NumInt z) => if (lo <=? z) && (z <=? hi) then Some z else None
  | _ => None
  end.

(** [.optional()]: [undefined] is accepted and stays absent. *)
Definition optional {A} (p : jsval -> option A) (v : jsval) : option (option A) :=
  match v with
  | JUndefined => Some None
  | _ => Some <$> p v
  end.

(** [.default(d)]: [undefined] is replaced by [d]. *)
Definition default {A} (d : A) (p : jsval -> option A) (v : jsval) : option A :=
  match v with
  | JUndefined => Some d
  | _ => p v
  end.

(** [z.enum(["passed", "failed"])] *)
Definition enum (allowed : list string) (v : jsval) : option string :=
  match v with
  | JStr s => if existsb (String.eqb s) allowed then Some s else None
  | _ => None
  end.

(** [z.coerce.boolean()]: [Boolean(v)], which never fails. *)
Definition coerce_boolean (v : jsval) : bool :=
  match v with
  | JUndefined | JNull => false
  | JBool b => b
  | JNum (NumInt z) => negb (z =? 0)
  | JNum (NumFrac _ _) | JNum (NumInf _) => true
  | JStr s => negb (String.eqb s "")
  | JArr _ | JObj => true
  end.

(** [z.object({...}).safeParse(x)] on a body: only plain objects pass. *)
Definition object {A} (shape : gmap string jsval -> option A) (b : jsbody) : option A :=
  match b with
  | BodyObject o => shape o
  | _ => None
  end.

End Zod.

(* ===================================================================== *)
(** ** The durable records *)
(* ===================================================================== *)

Module Merchant.
Record t : Type := { externalRef : string; name : string }.
End Merchant.

Module ApiKey.
Record t : Type := {
  merchantId : string;
  keyHash : string;
  label : string;
  preview : string;
  createdAt : Z;
  lastUsedAt : option Z;
  revokedAt : option Z
}.

Definition set_lastUsedAt (d : option Z) (k : t) : t :=
  {| merchantId := merchantId k; keyHash := keyHash k; label := label k;
     preview := preview k; createdAt := createdAt k;
     lastUsedAt := d; revokedAt := revokedAt k |}.

Definition set_revokedAt (d : option Z) (k : t) : t :=
  {| merchantId := merchantId k; keyHash := keyHash k; label := label k;
     preview := preview k; createdAt := createdAt k;
     lastUsedAt := lastUsedAt k; revokedAt := d |}.
End ApiKey.

Module ProofRequest.
Record t : Type := {
  merchantId : string;
  subjectRef : string;
  minAge : Z;
  status : string;
  verifierRef : option string;
  createdAt : Z;
  updatedAt : Z
}.
End ProofRequest.

Module AssertionUse.
Record t : Type := {
  nonce : string;
  subjectRef : option string;
  merchantId : string;
  proofRequestId : option string;
  expiresAt : option Date
}.
End AssertionUse.

(** The four tables. [merchants], [apiKeys] and [proofRequests] are keyed by
    the row id, [assertionUses] by [tokenJti]. The Prisma schema is not
    among the sources: the columns are the ones the queries name, and
    [externalRef] and [keyHash] are unique because the seed upserts on
    them. *)
Record DB : Type := {
  merchants : gmap string Merchant.t;
  apiKeys : gmap string ApiKey.t;
  proofRequests : gmap string ProofRequest.t;
  assertionUses : gmap string AssertionUse.t
}.

Definition with_merchants (f : gmap string Merchant.t -> gmap string Merchant.t) (db : DB) : DB :=
  {| merchants := f (merchants db); apiKeys := apiKeys db;
     proofRequests := proofRequests db; assertionUses := assertionUses db |}.
Definition with_apiKeys (f : gmap string ApiKey.t -> gmap string ApiKey.t) (db : DB) : DB :=
  {| merchants := merchants db; apiKeys := f (apiKeys db);
     proofRequests := proofRequests db; assertionUses := assertionUses db |}.
Definition with_proofRequests (f : gmap string ProofRequest.t -> gmap string ProofRequest.t) (db : DB) : DB :=
  {| merchants := merchants db; apiKeys := apiKeys db;
     proofRequests := f (proofRequests db); assertionUses := assertionUses db |}.
Definition with_assertionUses (f : gmap string AssertionUse.t -> gmap string AssertionUse.t) (db : DB) : DB :=
  {| merchants := merchants db; apiKeys := apiKeys db;
     proofRequests := proofRequests db; assertionUses := f (assertionUses db) |}.

(** [findFirst] / [findMany] with a [where] that does not name the key. *)
Definition findMany {A} (P : A -> bool) (tbl : gmap string A) : list (string * A) :=
  List.filter (fun kv => P kv.2) (map_to_list tbl).
Definition findFirst {A} (P : A -> bool) (tbl : gmap string A) : option (string * A) :=
  List.find (fun kv => P kv.2) (map_to_list tbl).

(* ===================================================================== *)
(** ** Replies *)
(* ===================================================================== *)

Record ApiKeyItem : Type := {
  item_apiKeyId : string; item_label : string; item_preview : string;
  item_createdAt : Z; item_lastUsedAt : option Z; item_revokedAt : option Z
}.

(** The body of a successful verify-assertion reply. *)
Record Verified : Type := {
  valid : bool;
  meetsMinAge : bool;
  requiredMinAge : Z;
  assertedAgeOver : Z;
  v_nonce : string;
  v_subjectRef : jsval;
  v_proofRequestId : option string;
  v_verifierRef : option string;
  v_issuer : jsval;
  v_audience : jsval;
  issuedAt : option Z;
  v_expiresAt : option Z
}.

(** What [reply.send] is given. [details] of the error envelope is
    [parsed.error.flatten()]; only its presence is kept. *)
Inductive payload : Type :=
| ErrorBody (code message : string) (details : bool)
| HealthBody
| ApiKeyCreatedBody (apiKeyId label preview : string) (createdAt : Z) (apiKey warning : string)
| ApiKeyListBody (items : list ApiKeyItem)
| AlreadyRevokedBody
| RevokedBody (apiKeyId : string) (revokedAt : option Z)
| ProofCreatedBody (proofRequestId merchantId status verifyUrl : string)
| CallbackOkBody
| ProofStatusBody (proofRequestId status : string) (minAge : Z) (ageAssertion : option string) (updatedAt : Z)
| AssertionBody (tokenType assertion : string) (expiresInSeconds : Z) (nonce claim : string)
| VerifiedBody (v : Verified).

Record response : Type := { statusCode : Z; sent : payload }.

Definition error (st : Z) (code message : string) : response :=
  {| statusCode := st; sent := ErrorBody code message false |}.
Definition error_with_details (st : Z) (code message : string) : response :=
  {| statusCode := st; sent := ErrorBody code message true |}.
Definition ok (b : payload) : response := {| statusCode := 200; sent := b |}.
Definition created (b : payload) : response := {| statusCode := 201; sent := b |}.

(* ===================================================================== *)
(** ** The handler monad *)
(* ===================================================================== *)

(** Every [await prisma...] in the sources, as a place where storage may
    fail unexpectedly. *)
Inductive site : Type :=
| AuthFindFirst | AuthTouch
| KeyCreate | KeyFindMany | RevokeFindFirst | RevokeUpdate
| ProofCreate | CallbackFindUnique | CallbackUpdate
| StatusFindFirst | AssertionFindFirst
| LedgerCreate.

(** What a call sees of the world outside the database. *)
Record Env : Type := {
  now : Z;                     (* [Date.now()] *)
  randomUUID : nat -> string;  (* the successive results of [randomUUID()] *)
  newId : string;              (* the id the store gives a created row *)
  fault : site -> bool         (* the storage calls that fail *)
}.

Inductive step (A : Type) : Type :=
| Next (a : A) (db : DB)
| Reply (r : response) (db : DB)
| Throw (db : DB).
Arguments Next {A} a db.
Arguments Reply {A} r db.
Arguments Throw {A} db.

Definition M (A : Type) : Type := DB -> step A.

Definition ret {A} (a : A) : M A := fun db => Next a db.
Definition bind {A B} (m : M A) (k : A -> M B) : M B :=
  fun db =>
    match m db with
    | Next a db' => k a db'
    | Reply r db' => Reply r db'
    | Throw db' => Throw db'
    end.
Definition send {A} (r : response) : M A := fun db => Reply r db.
Definition throw {A} : M A := fun db => Throw db.
Definition gets {A} (f : DB -> A) : M A := fun db => Next (f db) db.
Definition modify (f : DB -> DB) : M unit := fun db => Next tt (f db).

#[global] Instance M_ret : MRet M := @ret.
#[global] Instance M_bind : MBind M := fun A B k m => bind m k.

(** What the client gets and the database after the call. A handler ends
    by replying or by letting a rejection escape (Fastify's 500). *)
Inductive outcome : Type :=
| Replied (r : response)
| Crashed.

Definition handle (m : M Empty_set) (db : DB) : outcome * DB :=
  match m db with
  | Next a _ => match a with end
  | Reply r db' => (Replied r, db')
  | Throw db' => (Crashed, db')
  end.

(* ===================================================================== *)
(** ** Signed tokens *)
(* ===================================================================== *)

(** A compact JWS, taken symbolically: the key its MAC was computed with
    and its claim set. *)
Record Jwt : Type := {
  mac_key : string;
  claims : gmap string jsval
}.

(** [process.env] after the [??] defaults. The lifetime is [Number(...)]
    of its variable, taken to be an integer: a configuration whose
    lifetime is a fraction or not a number is outside the model. *)
Record Config : Type := {
  verifierCallbackSecret : string;
  jwtSigningKey : string;
  assertionTtlSeconds : Z
}.

Record MerchantContext : Type := {
  merchantId : string;
  merchantExternalRef : string
}.

(** The parsed bodies, one record per zod schema. *)
Module RequestBody.
Record t : Type := { subjectRef : string; minAge : Z }.
End RequestBody.

Module CallbackBody.
Record t : Type := { proofRequestId : string; result : string; verifierRef : string }.
End CallbackBody.

Module VerifyBody.
Record t : Type := {
  assertion : string;
  requiredMinAge : Z;
  expectedNonce : string;
  expectedSubjectRef : option string
}.
End VerifyBody.

Module AssertionPayload.
Record t : Type := {
  age_over : Z;
  nonce : string;
  proof_request_id : option string;
  verifier_ref : option string
}.
End AssertionPayload.

(** [a === b] for a JS value and a string. *)
Definition is_string (v : jsval) (s : string) : bool :=
  match v with
  | JStr x => String.eqb x s
  | _ => false
  end.

(** What the platform supplies: the digest, the two format tests of zod,
    and the textual form of tokens. [jwtParse s = Some t] reads: [s] is a
    well-formed compact JWS with claim set [claims t] whose MAC verifies
    under [mac_key t] and under no other key. *)
Class Platform : Type := {
  sha256 : string -> string;
  isUuid : string -> bool;
  isCuid : string -> bool;
  jwtSerialize : Jwt -> string;
  jwtParse : string -> option Jwt
}.

Section Server.

Context `{Platform}.
Variable cfg : Config.

(** *** Schemas *)

Definition requestSchema : jsbody -> option RequestBody.t :=
  Zod.object (fun o =>
    subjectRef ← Zod.string_min 3 (field o "subjectRef");
    minAge ← Zod.default 18 (Zod.int_between 13 25) (field o "minAge");
    Some {| RequestBody.subjectRef := subjectRef; RequestBody.minAge := minAge |}).

Definition callbackSchema : jsbody -> option CallbackBody.t :=
  Zod.object (fun o =>
    proofRequestId ← Zod.string_format isUuid (field o "proofRequestId");
    result ← Zod.enum ["passed"; "failed"] (field o "result");
    verifierRef ← Zod.string_min 1 (field o "verifierRef");
    Some {| CallbackBody.proofRequestId := proofRequestId;
            CallbackBody.result := result;
            CallbackBody.verifierRef := verifierRef |}).

Definition proofRequestParamsSchema (ps : gmap string jsval) : option string :=
  Zod.string_format isUuid (field ps "proofRequestId").

Definition merchantApiKeyCreateSchema : jsbody -> option string :=
  Zod.object (fun o =>
    Zod.default "manual" (Zod.string_between 2 64) (field o "label")).

Definition merchantApiKeyListQuerySchema (q : gmap string jsval) : option bool :=
  Some (Zod.coerce_boolean (field q "includeRevoked")).

Definition merchantApiKeyParamsSchema (ps : gmap string jsval) : option string :=
  Zod.string_format isCuid (field ps "apiKeyId").

Definition proofAssertionQuerySchema (q : gmap string jsval) : option (option string) :=
  Zod.optional (Zod.string_between 8 200) (field q "nonce").

Definition verifyAssertionSchema : jsbody -> option VerifyBody.t :=
  Zod.object (fun o =>
    assertion ← Zod.string_min 20 (field o "assertion");
    requiredMinAge ← Zod.default 18 (Zod.int_between 13 25) (field o "requiredMinAge");
    expectedNonce ← Zod.string_between 8 200 (field o "expectedNonce");
    expectedSubjectRef ← Zod.optional (Zod.string_min 3) (field o "expectedSubjectRef");
    Some {| VerifyBody.assertion := assertion;
            VerifyBody.requiredMinAge := requiredMinAge;
            VerifyBody.expectedNonce := expectedNonce;
            VerifyBody.expectedSubjectRef := expectedSubjectRef |}).

Definition assertionPayloadSchema (o : gmap string jsval) : option AssertionPayload.t :=
  age_over ← Zod.int_between 13 25 (field o "age_over");
  nonce ← Zod.string_between 8 200 (field o "nonce");
  proof_request_id ← Zod.optional (Zod.string_format isUuid) (field o "proof_request_id");
  verifier_ref ← Zod.optional Zod.string_any (field o "verifier_ref");
  Some {| AssertionPayload.age_over := age_over;
          AssertionPayload.nonce := nonce;
          AssertionPayload.proof_request_id := proof_request_id;
          AssertionPayload.verifier_ref := verifier_ref |}.

(** *** Small helpers *)

Definition buildApiKeyPlaintext (uuid : string) : string :=
  "pkr_" +:+ strip_dashes uuid.
Definition buildApiKeyPreview (value : string) : string :=
  slice_head 8 value +:+ "..." +:+ slice_tail 4 value.

Definition readHeader (req : request) (headerName : string) : option string :=
  match headers req !! headerName with
  | Some (HString s) => Some s
  | Some (HArray (s :: _)) => Some s
  | _ => None
  end.

(** Equal lengths and [timingSafeEqual]: equality of the bytes. *)
Definition safeEqual (a b : string) : bool := String.eqb a b.

Definition unauthorized (code message : string) : response := error 401 code message.

(** *** Storage calls *)

(** An awaited Prisma call: it fails when the environment says so. *)
Definition prisma {A} (env : Env) (s : site) (op : M A) : M A :=
  fun db => if fault env s then Throw db else op db.

(** [update({ where: { id }, data })]: a missing row is an error. *)
Definition apiKey_update (id : string) (f : ApiKey.t -> ApiKey.t) : M ApiKey.t :=
  fun db =>
    match apiKeys db !! id with
    | Some k => Next (f k) (with_apiKeys (<[id := f k]>) db)
    | None => Throw db
    end.

Definition proofRequest_update (id : string) (f : ProofRequest.t -> ProofRequest.t) : M unit :=
  fun db =>
    match proofRequests db !! id with
    | Some p => Next tt (with_proofRequests (<[id := f p]>) db)
    | None => Throw db
    end.

(** [apiKey.create]: the id is the primary key and [keyHash] is unique
    (the seed upserts on it); a clash is an error no handler catches. *)
Definition apiKey_create (id : string) (k : ApiKey.t) : M ApiKey.t :=
  fun db =>
    match apiKeys db !! id,
          findFirst (fun r => String.eqb (ApiKey.keyHash r) (ApiKey.keyHash k)) (apiKeys db) with
    | None, None => Next k (with_apiKeys (<[id := k]>) db)
    | _, _ => Throw db
    end.

Definition proofRequest_create (id : string) (p : ProofRequest.t) : M ProofRequest.t :=
  fun db =>
    match proofRequests db !! id with
    | None => Next p (with_proofRequests (<[id := p]>) db)
    | Some _ => Throw db
    end.

(** Modelled from the spec: the uniqueness constraint of the AssertionUse
    table, whose schema is not among the sources. The token identifier
    is unique system-wide and the insert is insert-if-absent; [false] is
    the unique-constraint error P2002. (The handler's replay message also
    speaks of a nonce already used; the spec names no constraint on the
    nonce, and none is modelled.) *)
Definition assertionUse_create (tokenJti : string) (u : AssertionUse.t) : M bool :=
  fun db =>
    match assertionUses db !! tokenJti with
    | None => Next true (with_assertionUses (<[tokenJti := u]>) db)
    | Some _ => Next false db
    end.

(** *** authenticateMerchant *)

Definition active_with_hash (keyHash : string) (k : ApiKey.t) : bool :=
  String.eqb (ApiKey.keyHash k) keyHash && bool_decide (ApiKey.revokedAt k = None).

(** A reply sent here stands for [unauthorized(...); return null] and the
    caller's [if (!merchant) return]. The row comes with its merchant
    ([include]); every key row has one, and reading the external reference
    of a missing one would throw. *)
Definition authenticateMerchant (env : Env) (req : request) : M MerchantContext :=
  match readHeader req "x-api-key" with
  | None => send (unauthorized "MISSING_API_KEY" "x-api-key header is required")
  | Some apiKey =>
      if String.eqb apiKey "" then
        send (unauthorized "MISSING_API_KEY" "x-api-key header is required")
      else
        let keyHash := sha256 apiKey in
        keyRecord ← prisma env AuthFindFirst
          (gets (fun db =>
             match findFirst (active_with_hash keyHash) (apiKeys db) with
             | Some (id, k) => Some (id, k, merchants db !! ApiKey.merchantId k)
             | None => None
             end));
        match keyRecord with
        | None => send (unauthorized "INVALID_API_KEY" "API key is invalid or revoked")
        | Some (id, k, merchant) =>
            _ ← prisma env AuthTouch
              (apiKey_update id (ApiKey.set_lastUsedAt (Some (now env))));
            match merchant with
            | None => throw
            | Some m =>
                mret {| merchantId := ApiKey.merchantId k;
                        merchantExternalRef := Merchant.externalRef m |}
            end
        end
  end.

Definition verifyCallbackSecret (req : request) : M unit :=
  match readHeader req "x-verifier-secret" with
  | None => send (unauthorized "MISSING_VERIFIER_SECRET" "x-verifier-secret header is required")
  | Some provided =>
      if String.eqb provided "" then
        send (unauthorized "MISSING_VERIFIER_SECRET" "x-verifier-secret header is required")
      else if negb (safeEqual provided (verifierCallbackSecret cfg)) then
        send (unauthorized "INVALID_VERIFIER_SECRET" "verifier secret is invalid")
      else mret tt
  end.

(** *** Issuing and checking tokens *)

Definition age_claim (minAge : Z) : string := "age_over_" +:+ pretty minAge.

(** The claim set [SignJWT] is given; a [verifier_ref] that is
    [undefined] is left out. *)
Definition assertion_claims (merchantExternalRef : string) (id : string)
    (proof : ProofRequest.t) (nonce tokenJti : string) (nowSeconds : Z) : gmap string jsval :=
  let base : gmap string jsval :=
    <["age_over" := JNum (NumInt (ProofRequest.minAge proof))]>
    (<["nonce" := JStr nonce]>
    (<["proof_request_id" := JStr id]>
    (<["iss" := JStr "proofage-rail"]>
    (<["aud" := JStr merchantExternalRef]>
    (<["sub" := JStr (ProofRequest.subjectRef proof)]>
    (<["jti" := JStr tokenJti]>
    (<["iat" := JNum (NumInt nowSeconds)]>
    (<["exp" := JNum (NumInt (nowSeconds + assertionTtlSeconds cfg))]> ∅)))))))) in
  match ProofRequest.verifierRef proof with
  | Some v => <["verifier_ref" := JStr v]> base
  | None => base
  end.

(** What [SignJWT ... .sign(key)] signs: [tokenJti] is the [randomUUID()]
    drawn inside [buildAgeAssertion]. *)
Definition mintAssertion (env : Env) (tokenJti : string)
    (merchantExternalRef : string) (id : string) (proof : ProofRequest.t)
    (nonce : string) : Jwt :=
  {| mac_key := jwtSigningKey cfg;
     claims := assertion_claims merchantExternalRef id proof nonce tokenJti (now env / 1000) |}.

Definition buildAgeAssertion (env : Env) (tokenJti : string)
    (merchantExternalRef : string) (id : string) (proof : ProofRequest.t)
    (nonce : string) : string * Z * string :=
  let token := jwtSerialize (mintAssertion env tokenJti merchantExternalRef id proof nonce) in
  (token, assertionTtlSeconds cfg, nonce).

(** [claim in payload] *)
Definition claim_present (p : gmap string jsval) (claim : string) : bool :=
  bool_decide (is_Some (p !! claim)).

(** jose's comparison of [aud] with the audience asked for: [aud] is that
    string, or a list that holds it. *)
Definition audience_matches (aud : jsval) (audience : string) : bool :=
  match aud with
  | JStr a => String.eqb a audience
  | JArr l => existsb (fun v => is_string v audience) l
  | _ => false
  end.

(** A claim named by an option must be in the payload; its value is
    compared only when the option is not the empty string
    ([if (issuer && ...)], [if (audience && ...)]). *)
Definition issuer_ok (p : gmap string jsval) (issuer : string) : bool :=
  claim_present p "iss"
  && (String.eqb issuer "" || is_string (field p "iss") issuer).

Definition audience_ok (p : gmap string jsval) (audience : string) : bool :=
  claim_present p "aud"
  && (String.eqb audience "" || audience_matches (field p "aud") audience).

(** [exp], when there, is a number and not [exp <= now]; [now] is in
    whole seconds. *)
Definition exp_ok (exp : jsval) (nowSeconds : Z) : bool :=
  match exp with
  | JUndefined => true
  | JNum x => num_gtb x nowSeconds
  | _ => false
  end.

(** [nbf], when there, is a number and not [nbf > now]. *)
Definition nbf_ok (nbf : jsval) (nowSeconds : Z) : bool :=
  match nbf with
  | JUndefined => true
  | JNum x => negb (num_gtb x nowSeconds)
  | _ => false
  end.

(** [iat], when there, is a number. *)
Definition iat_ok (iat : jsval) : bool :=
  match iat with
  | JUndefined | JNum _ => true
  | _ => false
  end.

(** jose's [jwtVerify(token, key, { issuer, audience })], by its contract:
    the MAC verifies under [key], the claims the options name are there,
    [iss] is the issuer and [aud] is or holds the audience (each compared
    only for an option that is not empty), and the token is within its
    time bounds, taken at the whole second. [None] is any of its
    exceptions. *)
Definition jwtVerify (env : Env) (token key issuer audience : string) : option (gmap string jsval) :=
  match jwtParse token with
  | None => None
  | Some t =>
      let p := claims t in
      let nowSeconds := now env / 1000 in
      if String.eqb (mac_key t) key
         && issuer_ok p issuer
         && audience_ok p audience
         && iat_ok (field p "iat")
         && nbf_ok (field p "nbf") nowSeconds
         && exp_ok (field p "exp") nowSeconds
      then Some p else None
  end.

(** [typeof v === "number" ? new Date(v * 1000) : null] *)
Definition date_of_seconds (v : jsval) : option Date :=
  match v with
  | JNum x => Some (date_of_number x)
  | _ => None
  end.

(** [typeof v === "number" ? new Date(v * 1000).toISOString() : null]:
    the string is kept as the time value it writes, and the outer [None]
    is the RangeError of [toISOString] on the Invalid Date. *)
Definition iso_of_seconds (v : jsval) : option (option Z) :=
  match date_of_seconds v with
  | Some (Instant ms) => Some (Some ms)
  | Some InvalidDate => None
  | None => Some None
  end.

(** *** The handlers *)

Definition health : M Empty_set :=
  send (ok HealthBody).

Definition postApiKeys (env : Env) (req : request) : M Empty_set :=
  merchant ← authenticateMerchant env req;
  match merchantApiKeyCreateSchema
          (match body req with BodyNone => BodyObject ∅ | b => b end) with
  | None => send (error_with_details 400 "INVALID_REQUEST" "Request body is invalid")
  | Some label =>
      let apiKey := buildApiKeyPlaintext (randomUUID env 0%nat) in
      let keyHash := sha256 apiKey in
      created_ ← prisma env KeyCreate
        (apiKey_create (newId env)
           {| ApiKey.merchantId := merchantId merchant;
              ApiKey.keyHash := keyHash;
              ApiKey.label := label;
              ApiKey.preview := buildApiKeyPreview apiKey;
              ApiKey.createdAt := now env;
              ApiKey.lastUsedAt := None;
              ApiKey.revokedAt := None |});
      send (created (ApiKeyCreatedBody (newId env) (ApiKey.label created_)
              (ApiKey.preview created_) (ApiKey.createdAt created_) apiKey
              "Save apiKey now. It is shown only once."))
  end.

(** [orderBy: { createdAt: "desc" }] *)
Definition newer (a b : string * ApiKey.t) : Prop :=
  ApiKey.createdAt b.2 ≤ ApiKey.createdAt a.2.
#[local] Instance newer_dec a b : Decision (newer a b) :=
  Z_le_dec (ApiKey.createdAt b.2) (ApiKey.createdAt a.2).

Definition item_of (kv : string * ApiKey.t) : ApiKeyItem :=
  {| item_apiKeyId := kv.1; item_label := ApiKey.label kv.2;
     item_preview := ApiKey.preview kv.2; item_createdAt := ApiKey.createdAt kv.2;
     item_lastUsedAt := ApiKey.lastUsedAt kv.2; item_revokedAt := ApiKey.revokedAt kv.2 |}.

Definition getApiKeys (env : Env) (req : request) : M Empty_set :=
  merchant ← authenticateMerchant env req;
  match merchantApiKeyListQuerySchema (query req) with
  | None => send (error_with_details 400 "INVALID_QUERY" "Query params are invalid")
  | Some includeRevoked =>
      items ← prisma env KeyFindMany
        (gets (fun db =>
           merge_sort newer
             (findMany (fun k =>
                String.eqb (ApiKey.merchantId k) (merchantId merchant)
                && (includeRevoked || bool_decide (ApiKey.revokedAt k = None)))
                (apiKeys db))));
      send (ok (ApiKeyListBody (item_of <$> items)))
  end.

Definition postRevoke (env : Env) (req : request) : M Empty_set :=
  merchant ← authenticateMerchant env req;
  match merchantApiKeyParamsSchema (params req) with
  | None => send (error 400 "INVALID_PARAMS" "apiKeyId is invalid")
  | Some apiKeyId =>
      target ← prisma env RevokeFindFirst
        (gets (fun db =>
           k ← apiKeys db !! apiKeyId;
           if String.eqb (ApiKey.merchantId k) (merchantId merchant) then Some k else None));
      match target with
      | None => send (error 404 "NOT_FOUND" "apiKeyId not found")
      | Some target =>
          let current := readHeader req "x-api-key" in
          if match current with
             | Some currentApiKey =>
                 negb (String.eqb currentApiKey "")
                 && String.eqb (sha256 currentApiKey) (ApiKey.keyHash target)
             | None => false
             end
          then send (error 409 "CANNOT_REVOKE_CURRENT_KEY"
                       "Use another active key to revoke this key")
          else
            match ApiKey.revokedAt target with
            | Some _ => send (ok AlreadyRevokedBody)
            | None =>
                updated ← prisma env RevokeUpdate
                  (apiKey_update apiKeyId (ApiKey.set_revokedAt (Some (now env))));
                send (ok (RevokedBody apiKeyId (ApiKey.revokedAt updated)))
            end
      end
  end.

Definition postProofRequest (env : Env) (req : request) : M Empty_set :=
  merchant ← authenticateMerchant env req;
  match requestSchema (body req) with
  | None => send (error_with_details 400 "INVALID_REQUEST" "Request body is invalid")
  | Some parsed =>
      record ← prisma env ProofCreate
        (proofRequest_create (newId env)
           {| ProofRequest.merchantId := merchantId merchant;
              ProofRequest.subjectRef := RequestBody.subjectRef parsed;
              ProofRequest.minAge := RequestBody.minAge parsed;
              ProofRequest.status := "pending";
              ProofRequest.verifierRef := None;
              ProofRequest.createdAt := now env;
              ProofRequest.updatedAt := now env |});
      send (created (ProofCreatedBody (newId env) (merchantExternalRef merchant)
              (ProofRequest.status record)
              ("https://verify.placeholder/proof/" +:+ newId env)))
  end.

(** Modelled from the spec: a proof request carries created and updated
    timestamps; the schema that maintains them is not among the sources,
    and [updatedAt] is taken to follow the write. *)
Definition apply_result (env : Env) (parsed : CallbackBody.t) (p : ProofRequest.t) : ProofRequest.t :=
  {| ProofRequest.merchantId := ProofRequest.merchantId p;
     ProofRequest.subjectRef := ProofRequest.subjectRef p;
     ProofRequest.minAge := ProofRequest.minAge p;
     ProofRequest.status := CallbackBody.result parsed;
     ProofRequest.verifierRef := Some (CallbackBody.verifierRef parsed);
     ProofRequest.createdAt := ProofRequest.createdAt p;
     ProofRequest.updatedAt := now env |}.

Definition postCallback (env : Env) (req : request) : M Empty_set :=
  _ ← verifyCallbackSecret req;
  match callbackSchema (body req) with
  | None => send (error_with_details 400 "INVALID_CALLBACK" "Callback body is invalid")
  | Some parsed =>
      current ← prisma env CallbackFindUnique
        (gets (fun db => proofRequests db !! CallbackBody.proofRequestId parsed));
      match current with
      | None => send (error 404 "NOT_FOUND" "proofRequestId not found")
      | Some _ =>
          _ ← prisma env CallbackUpdate
            (proofRequest_update (CallbackBody.proofRequestId parsed) (apply_result env parsed));
          send (ok CallbackOkBody)
      end
  end.

(** [proofRequest.findFirst({ where: { id, merchantId } })] *)
Definition own_proof (id : string) (merchant : MerchantContext) (db : DB) : option ProofRequest.t :=
  p ← proofRequests db !! id;
  if String.eqb (ProofRequest.merchantId p) (merchantId merchant) then Some p else None.

Definition getStatus (env : Env) (req : request) : M Empty_set :=
  merchant ← authenticateMerchant env req;
  match proofRequestParamsSchema (params req) with
  | None => send (error 400 "INVALID_PARAMS" "proofRequestId must be a UUID")
  | Some proofRequestId =>
      current ← prisma env StatusFindFirst (gets (own_proof proofRequestId merchant));
      match current with
      | None => send (error 404 "NOT_FOUND" "proofRequestId not found")
      | Some current =>
          send (ok (ProofStatusBody proofRequestId (ProofRequest.status current)
                  (ProofRequest.minAge current)
                  (if String.eqb (ProofRequest.status current) "passed"
                   then Some (age_claim (ProofRequest.minAge current)) else None)
                  (ProofRequest.updatedAt current)))
      end
  end.

Definition getAssertion (env : Env) (req : request) : M Empty_set :=
  merchant ← authenticateMerchant env req;
  match proofRequestParamsSchema (params req) with
  | None => send (error 400 "INVALID_PARAMS" "proofRequestId must be a UUID")
  | Some proofRequestId =>
      current ← prisma env AssertionFindFirst (gets (own_proof proofRequestId merchant));
      match current with
      | None => send (error 404 "NOT_FOUND" "proofRequestId not found")
      | Some current =>
          if negb (String.eqb (ProofRequest.status current) "passed") then
            send (error 409 "PROOF_NOT_PASSED"
                    "Age assertion is available only for passed proofs")
          else
            match proofAssertionQuerySchema (query req) with
            | None => send (error_with_details 400 "INVALID_QUERY" "Query params are invalid")
            | Some q =>
                let '(nonce, tokenJti) :=
                  match q with
                  | Some n => (n, randomUUID env 0%nat)
                  | None => (randomUUID env 0%nat, randomUUID env 1%nat)
                  end in
                let '(token, expiresInSeconds, nonce') :=
                  buildAgeAssertion env tokenJti (merchantExternalRef merchant)
                    proofRequestId current nonce in
                send (ok (AssertionBody "Bearer" token expiresInSeconds nonce'
                        (age_claim (ProofRequest.minAge current))))
            end
      end
  end.

(** [v ?? null] *)
Definition or_null (v : jsval) : jsval :=
  match v with
  | JUndefined => JNull
  | _ => v
  end.

(** The part of the verify-assertion handler around the ledger insert,
    which touches no storage: the reply of the first check that fails, or
    else the token identifier, the ledger row to insert and the body to
    send once the row is in. That body is built after the insert, and
    building it throws when [iat] or [exp] is a number no [Date] can
    hold: then it is [None]. *)
Definition checkAssertion (env : Env) (merchant : MerchantContext) (parsed : VerifyBody.t)
    : response + (string * AssertionUse.t * option Verified) :=
  match jwtVerify env (VerifyBody.assertion parsed) (jwtSigningKey cfg)
          "proofage-rail" (merchantExternalRef merchant) with
  | None =>
      inl (error 401 "INVALID_ASSERTION"
             "Assertion is invalid, expired, or not issued for this merchant")
  | Some payload =>
      match assertionPayloadSchema payload with
      | None =>
          inl (error_with_details 400 "INVALID_ASSERTION_CLAIMS"
                 "Assertion payload is invalid")
      | Some payloadParsed =>
          if negb (String.eqb (AssertionPayload.nonce payloadParsed)
                     (VerifyBody.expectedNonce parsed)) then
            inl (error 409 "NONCE_MISMATCH"
                   "Assertion nonce does not match expectedNonce")
          else if match VerifyBody.expectedSubjectRef parsed with
                  | Some expected =>
                      negb (String.eqb expected "")
                      && negb (is_string (field payload "sub") expected)
                  | None => false
                  end then
            inl (error 409 "SUBJECT_MISMATCH"
                   "Assertion subject does not match expectedSubjectRef")
          else
            match field payload "jti" with
            | JStr tokenJti =>
                if negb (min_len 8 tokenJti) then
                  inl (error 400 "INVALID_ASSERTION_CLAIMS"
                         "Assertion jti claim is required")
                else
                  let expiresAtDate := date_of_seconds (field payload "exp") in
                  inr (tokenJti,
                       {| AssertionUse.nonce := AssertionPayload.nonce payloadParsed;
                          AssertionUse.subjectRef :=
                            match field payload "sub" with
                            | JStr sub => Some sub
                            | _ => None
                            end;
                          AssertionUse.merchantId := merchantId merchant;
                          AssertionUse.proofRequestId :=
                            AssertionPayload.proof_request_id payloadParsed;
                          AssertionUse.expiresAt := expiresAtDate |},
                       expiresAt ← iso_of_seconds (field payload "exp");
                       issuedAt ← iso_of_seconds (field payload "iat");
                       Some
                         {| valid := true;
                            meetsMinAge :=
                              VerifyBody.requiredMinAge parsed
                                <=? AssertionPayload.age_over payloadParsed;
                            requiredMinAge := VerifyBody.requiredMinAge parsed;
                            assertedAgeOver := AssertionPayload.age_over payloadParsed;
                            v_nonce := AssertionPayload.nonce payloadParsed;
                            v_subjectRef := or_null (field payload "sub");
                            v_proofRequestId :=
                              AssertionPayload.proof_request_id payloadParsed;
                            v_verifierRef := AssertionPayload.verifier_ref payloadParsed;
                            v_issuer := or_null (field payload "iss");
                            v_audience := or_null (field payload "aud");
                            issuedAt := issuedAt;
                            v_expiresAt := expiresAt |})
            | _ =>
                inl (error 400 "INVALID_ASSERTION_CLAIMS"
                       "Assertion jti claim is required")
            end
      end
  end.

Definition replayed : response :=
  error 409 "ASSERTION_REPLAYED"
    "Assertion has already been consumed or nonce was already used".

(** [try { await prisma.assertionUse.create(...) } catch ...]: P2002 is
    answered with the replay reply, any other error is thrown again (a
    client that refuses the row it is given, an Invalid Date in it for
    one, is the storage fault at [LedgerCreate]). The reply is built once
    the row is in, and a RangeError there escapes like any rejection. *)
Definition postVerifyAssertion (env : Env) (req : request) : M Empty_set :=
  merchant ← authenticateMerchant env req;
  match verifyAssertionSchema (body req) with
  | None => send (error_with_details 400 "INVALID_REQUEST" "Request body is invalid")
  | Some parsed =>
      match checkAssertion env merchant parsed with
      | inl r => send r
      | inr (tokenJti, row, result) =>
          inserted ← prisma env LedgerCreate (assertionUse_create tokenJti row);
          if negb inserted then send replayed
          else
            match result with
            | Some result => send (ok (VerifiedBody result))
            | None => throw
            end
      end
  end.

(** *** The seed script *)

(** Its environment variables after the [??] defaults, the clock, and the
    ids the store gives the rows it creates. *)
Record SeedEnv : Type := {
  BOOTSTRAP_MERCHANT_EXTERNAL_REF : string;
  BOOTSTRAP_MERCHANT_NAME : string;
  BOOTSTRAP_API_KEY : string;
  seed_now : Z;
  new_merchant_id : string;
  new_key_id : string
}.

(** [merchant.upsert({ where: { externalRef }, update: { name }, create })] *)
Definition merchant_upsert (s : SeedEnv) : M string :=
  fun db =>
    match findFirst (fun m => String.eqb (Merchant.externalRef m)
                                (BOOTSTRAP_MERCHANT_EXTERNAL_REF s)) (merchants db) with
    | Some (id, m) =>
        Next id (with_merchants
                   (<[id := {| Merchant.externalRef := Merchant.externalRef m;
                               Merchant.name := BOOTSTRAP_MERCHANT_NAME s |}]>) db)
    | None =>
        match merchants db !! new_merchant_id s with
        | None =>
            Next (new_merchant_id s)
              (with_merchants
                 (<[new_merchant_id s :=
                      {| Merchant.externalRef := BOOTSTRAP_MERCHANT_EXTERNAL_REF s;
                         Merchant.name := BOOTSTRAP_MERCHANT_NAME s |}]>) db)
        | Some _ => Throw db
        end
    end.

Definition seed_preview (apiKey : string) : string :=
  slice_head 6 apiKey +:+ "..." +:+ slice_tail 4 apiKey.

(** [apiKey.upsert({ where: { keyHash }, update: {..., revokedAt: null,
    merchantId }, create })] *)
Definition apiKey_upsert (s : SeedEnv) (merchant_id : string) : M unit :=
  fun db =>
    let keyHash := sha256 (BOOTSTRAP_API_KEY s) in
    match findFirst (fun k => String.eqb (ApiKey.keyHash k) keyHash) (apiKeys db) with
    | Some (id, k) =>
        Next tt (with_apiKeys
                   (<[id := {| ApiKey.merchantId := merchant_id;
                               ApiKey.keyHash := ApiKey.keyHash k;
                               ApiKey.label := "bootstrap";
                               ApiKey.preview := seed_preview (BOOTSTRAP_API_KEY s);
                               ApiKey.createdAt := ApiKey.createdAt k;
                               ApiKey.lastUsedAt := ApiKey.lastUsedAt k;
                               ApiKey.revokedAt := None |}]>) db)
    | None =>
        match apiKeys db !! new_key_id s with
        | None =>
            Next tt (with_apiKeys
                       (<[new_key_id s :=
                            {| ApiKey.merchantId := merchant_id;
                               ApiKey.keyHash := keyHash;
                               ApiKey.label := "bootstrap";
                               ApiKey.preview := seed_preview (BOOTSTRAP_API_KEY s);
                               ApiKey.createdAt := seed_now s;
                               ApiKey.lastUsedAt := None;
                               ApiKey.revokedAt := None |}]>) db)
        | Some _ => Throw db
        end
    end.

(** The script: the length test and [process.exit(1)] before [main], then
    the two upserts. *)
Definition seed (s : SeedEnv) : M unit :=
  if (String.length (BOOTSTRAP_API_KEY s) <? 16)%nat then throw
  else
    merchant_id ← merchant_upsert s;
    apiKey_upsert s merchant_id.

(** *** Routes and runs *)

Inductive route : Type :=
| GetHealth
| PostApiKeys
| GetApiKeys
| PostRevoke
| PostProofRequest
| PostCallback
| GetStatus
| GetAssertion
| PostVerifyAssertion.

#[export] Instance route_eq_dec : EqDecision route.
Proof. solve_decision. Defined.

Definition handler (r : route) (env : Env) (req : request) : M Empty_set :=
  match r with
  | GetHealth => health
  | PostApiKeys => postApiKeys env req
  | GetApiKeys => getApiKeys env req
  | PostRevoke => postRevoke env req
  | PostProofRequest => postProofRequest env req
  | PostCallback => postCallback env req
  | GetStatus => getStatus env req
  | GetAssertion => getAssertion env req
  | PostVerifyAssertion => postVerifyAssertion env req
  end.

Definition serve (r : route) (env : Env) (req : request) (db : DB) : outcome * DB :=
  handle (handler r env req) db.

(** Whatever changes the database: a request to the server, or a run of
    the seed script. *)
Inductive event : Type :=
| Call (r : route) (env : Env) (req : request)
| Seed (s : SeedEnv).

Definition db_after {A} (st : step A) : DB :=
  match st with
  | Next _ db => db
  | Reply _ db => db
  | Throw db => db
  end.

Definition exec (e : event) (db : DB) : DB :=
  match e with
  | Call r env req => (serve r env req db).2
  | Seed s => db_after (seed s db)
  end.

Definition run (es : list event) (db : DB) : DB :=
  fold_left (fun d e => exec e d) es db.

Definition is_call (e : event) : bool :=
  match e with
  | Call _ _ _ => true
  | Seed _ => false
  end.

End Server.

(* ===================================================================== *)
(** ** Loading the .env file *)
(* ===================================================================== *)

(** Both programs start by reading a [.env] file into [process.env]. The
    file system is taken as the content of the first candidate that
    exists, if any, and [process.env] as the finite map of the variables
    that are set, read through the names it inherits. *)

Definition LF : ascii := "010"%char.
Definition CR : ascii := "013"%char.
Definition double_quote : ascii := "034"%char.
Definition single_quote : ascii := "039"%char.

(** The white space and line terminators [trim] strips, among the code
    units of this embedding: TAB, LF, VT, FF, CR, SP and NBSP. *)
Definition is_space (c : ascii) : bool :=
  let n := nat_of_ascii c in
  ((9 <=? n) && (n <=? 13) || (n =? 32) || (n =? 160))%nat.

Fixpoint trimStart (s : string) : string :=
  match s with
  | EmptyString => EmptyString
  | String c r => if is_space c then trimStart r else s
  end.

Fixpoint trimEnd (s : string) : string :=
  match s with
  | EmptyString => EmptyString
  | String c r =>
      match trimEnd r with
      | EmptyString => if is_space c then EmptyString else String c EmptyString
      | r' => String c r'
      end
  end.

(** [str.trim()] *)
Definition trim (s : string) : string := trimEnd (trimStart s).

(** [str.startsWith(c)] and [str.endsWith(c)] for a one-unit string. *)
Definition startsWith (c : ascii) (s : string) : bool :=
  match s with
  | String x _ => Ascii.eqb x c
  | EmptyString => false
  end.

Fixpoint endsWith (c : ascii) (s : string) : bool :=
  match s with
  | EmptyString => false
  | String x EmptyString => Ascii.eqb x c
  | String _ r => endsWith c r
  end.

(** [str.indexOf(c)], [None] standing for -1. *)
Fixpoint indexOf (c : ascii) (s : string) : option nat :=
  match s with
  | EmptyString => None
  | String x r => if Ascii.eqb x c then Some 0%nat else S <$> indexOf c r
  end.

(** [str.slice(n)] *)
Fixpoint slice_from (n : nat) (s : string) : string :=
  match n, s with
  | O, _ => s
  | S n', String _ r => slice_from n' r
  | S _, EmptyString => EmptyString
  end.

(** [str.slice(1, -1)] *)
Definition slice_inner (s : string) : string :=
  String.substring 1 (String.length s - 2) s.

(** Puts a code unit in front of the first piece. *)
Definition push (c : ascii) (pieces : list string) : list string :=
  match pieces with
  | piece :: rest => String c piece :: rest
  | [] => [String c EmptyString]
  end.

(** [content.split(/\r?\n/u)]: the pieces between line feeds, a carriage
    return right before a line feed going with it. *)
Fixpoint split_lines (s : string) : list string :=
  match s with
  | EmptyString => [EmptyString]
  | String c r =>
      if Ascii.eqb c LF then EmptyString :: split_lines r
      else
        match r with
        | String c' r' =>
            if Ascii.eqb c CR && Ascii.eqb c' LF then EmptyString :: split_lines r'
            else push c (split_lines r)
        | EmptyString => push c (split_lines r)
        end
  end.

(** The names every object inherits from [Object.prototype]:
    [process.env] answers them with the inherited property, which is not
    [undefined]. *)
Definition inherited : list string :=
  ["constructor"; "__defineGetter__"; "__defineSetter__"; "hasOwnProperty";
   "__lookupGetter__"; "__lookupSetter__"; "isPrototypeOf"; "propertyIsEnumerable";
   "toString"; "valueOf"; "__proto__"; "toLocaleString"].

(** [process.env[key] !== undefined] *)
Definition defined (env : gmap string string) (key : string) : bool :=
  bool_decide (is_Some (env !! key)) || existsb (String.eqb key) inherited.

(** The body of the [for] loop, on one line of the file. *)
Definition load_line (env : gmap string string) (line : string) : gmap string string :=
  let trimmed := trim line in
  if String.eqb trimmed "" || startsWith "#" trimmed then env
  else
    match indexOf "=" trimmed with
    | None | Some O => env
    | Some separator =>
        let key := trim (slice_head separator trimmed) in
        if String.eqb key "" || defined env key then env
        else
          let value := trim (slice_from (S separator) trimmed) in
          let value :=
            if (startsWith double_quote value && endsWith double_quote value)
               || (startsWith single_quote value && endsWith single_quote value)
            then slice_inner value else value in
          <[key := value]> env
    end.

(** [loadDotEnv()]: [envPath] is the first candidate that exists, and
    nothing is done when there is none. *)
Definition loadDotEnv (envFile : option string) (env : gmap string string)
    : gmap string string :=
  match envFile with
  | None => env
  | Some content => fold_left load_line (split_lines content) env
  end.

(* ===================================================================== *)
(** ** The vocabulary of the properties *)
(* ===================================================================== *)

(** A computation keeps a relation when the database it leaves is related
    to the one it was given, however it ends. *)
Definition keeps {A} (R : relation DB) (m : M A) : Prop :=
  forall db, R db (db_after (m db)).

(** *** What no step of the system undoes *)

(** Ledger rows stay, as they are. *)
Definition ledger_grows (db db' : DB) : Prop :=
  forall j u, assertionUses db !! j = Some u -> assertionUses db' !! j = Some u.

(** Proof requests stay, with their owner, subject and threshold. *)
Definition proofs_keep (db db' : DB) : Prop :=
  forall id p, proofRequests db !! id = Some p ->
    exists p', proofRequests db' !! id = Some p'
      /\ ProofRequest.merchantId p' = ProofRequest.merchantId p
      /\ ProofRequest.subjectRef p' = ProofRequest.subjectRef p
      /\ ProofRequest.minAge p' = ProofRequest.minAge p.

(** Proof requests stay, untouched. *)
Definition proofs_fixed (db db' : DB) : Prop :=
  forall id p, proofRequests db !! id = Some p -> proofRequests db' !! id = Some p.

(** Key rows stay, with their hash, and a revoked one stays revoked. *)
Definition keys_keep (db db' : DB) : Prop :=
  forall id k, apiKeys db !! id = Some k ->
    exists k', apiKeys db' !! id = Some k'
      /\ ApiKey.keyHash k' = ApiKey.keyHash k
      /\ (ApiKey.revokedAt k <> None -> ApiKey.revokedAt k' <> None).

(** No two key rows share a hash. *)
Definition unique_hashes (db : DB) : Prop :=
  forall i j a b, apiKeys db !! i = Some a -> apiKeys db !! j = Some b ->
    ApiKey.keyHash a = ApiKey.keyHash b -> i = j.

Definition hashes_stay_unique (db db' : DB) : Prop :=
  unique_hashes db -> unique_hashes db'.

(** Every key row names a merchant that exists. *)
Definition keys_have_merchants (db : DB) : Prop :=
  forall id k, apiKeys db !! id = Some k -> is_Some (merchants db !! ApiKey.merchantId k).

(** The database once authentication has written the last-used time. *)
Definition touched (env : Env) (id : string) (k : ApiKey.t) (db : DB) : DB :=
  with_apiKeys (<[id := ApiKey.set_lastUsedAt (Some (now env)) k]>) db.

(** The bodies [requestSchema] is meant to accept, said without zod: an
    object whose [subjectRef] is a string of at least three code units and
    whose [minAge] is an integer from 13 to 25, or absent and then 18. *)
Definition acceptable_request (b : jsbody) (subjectRef : string) (minAge : Z) : Prop :=
  exists o, b = BodyObject o
    /\ field o "subjectRef" = JStr subjectRef
    /\ (3 <= String.length subjectRef)%nat
    /\ ((field o "minAge" = JUndefined /\ minAge = 18)
        \/ (field o "minAge" = JNum (NumInt minAge) /\ 13 <= minAge <= 25)).

(** The replies the properties name. *)
Definition not_found : response := error 404 "NOT_FOUND" "proofRequestId not found".

Definition proof_not_passed : response :=
  error 409 "PROOF_NOT_PASSED" "Age assertion is available only for passed proofs".

(** The token a verify-assertion request presents. *)
Definition token_of (req : request) : option string :=
  match body req with
  | BodyObject o =>
      match field o "assertion" with
      | JStr a => Some a
      | _ => None
      end
  | _ => None
  end.

Definition invalid_assertion : response :=
  error 401 "INVALID_ASSERTION"
    "Assertion is invalid, expired, or not issued for this merchant".
Definition nonce_mismatch : response :=
  error 409 "NONCE_MISMATCH" "Assertion nonce does not match expectedNonce".

(** *** The tables a step leaves alone *)

Definition same_merchants (db db' : DB) : Prop := merchants db' = merchants db.
Definition same_proofs (db db' : DB) : Prop := proofRequests db' = proofRequests db.
Definition same_ledger (db db' : DB) : Prop := assertionUses db' = assertionUses db.

(** The routes that only read: health, the key list, status and issuance. *)
Definition reads_only (r : route) : bool :=
  match r with
  | GetHealth | GetApiKeys | GetStatus | GetAssertion => true
  | _ => false
  end.

(** The routes behind the API key: all but health and the verifier's
    callback. *)
Definition behind_api_key (r : route) : bool :=
  match r with
  | GetHealth | PostCallback => false
  | _ => true
  end.

(** The reply to a key that matches no active row. *)
Definition invalid_api_key : response :=
  unauthorized "INVALID_API_KEY" "API key is invalid or revoked".

(** The events that are a call of the verifier's callback route. *)
Definition is_callback (e : event) : bool :=
  match e with
  | Call PostCallback _ _ => true
  | _ => false
  end.

(** No two merchants share an external reference. *)
Definition unique_refs (db : DB) : Prop :=
  forall i j a b, merchants db !! i = Some a -> merchants db !! j = Some b ->
    Merchant.externalRef a = Merchant.externalRef b -> i = j.

(** The events that may write the proof requests, and the ledger. *)
Definition writes_proofs (e : event) : bool :=
  match e with
  | Call PostProofRequest _ _ | Call PostCallback _ _ => true
  | _ => false
  end.

Definition writes_ledger (e : event) : bool :=
  match e with
  | Call PostVerifyAssertion _ _ => true
  | _ => false
  end.

(** A step keeps every key row with a merchant, if it found them so. *)
Definition owners_stay (db db' : DB) : Prop :=
  keys_have_merchants db -> keys_have_merchants db'.

(** *** Lines of a .env file *)

(** What a line asks for, whatever the environment holds: the name and
    the value it would set. *)
Definition assignment (line : string) : option (string * string) :=
  let trimmed := trim line in
  if String.eqb trimmed "" || startsWith "#" trimmed then None
  else
    match indexOf "=" trimmed with
    | None | Some O => None
    | Some separator =>
        let key := trim (slice_head separator trimmed) in
        if String.eqb key "" then None
        else
          let value := trim (slice_from (S separator) trimmed) in
          Some (key,
                if (startsWith double_quote value && endsWith double_quote value)
                   || (startsWith single_quote value && endsWith single_quote value)
                then slice_inner value else value)
    end.

(** A name as one writes it in a .env file: not empty, no white space
    around it, no equals sign in it, and not starting a comment. *)
Definition clean_name (k : string) : Prop :=
  k <> "" /\ trim k = k /\ indexOf "=" k = None /\ startsWith "#" k = false.

(** The value the first line naming [k] gives it. *)
Fixpoint first_assignment (k : string) (lines : list string) : option string :=
  match lines with
  | [] => None
  | line :: rest =>
      match assignment line with
      | Some (k', v) => if String.eqb k' k then Some v else first_assignment k rest
      | None => first_assignment k rest
      end
  end.

(** *** What the first check asks of a token *)

(** [aud] names the merchant: it is the external reference itself, or a
    list that holds it. *)
Definition names_audience (aud : jsval) (ref : string) : Prop :=
  aud = JStr ref \/ exists l, aud = JArr l /\ JStr ref ∈ l.

(** [x <= n] for a number and an integer. *)
Definition at_most (x : jsnum) (n : Z) : Prop :=
  match x with
  | NumInt z => z <= n
  | NumFrac floor _ => floor < n
  | NumInf negative => negative = true
  end.

(** A token that gets through the first check of a verification by the
    merchant with external reference [ref], at the whole second [n]: it
    is signed with the server's key, its issuer is proofage-rail, it has
    an audience, which names the merchant unless the merchant's reference
    is empty, its [iat] and [nbf], if any, are numbers and [nbf] is not
    later than [n], and its [exp], if any, is a number later than [n]. *)
Definition acceptable_token (key : string) (t : Jwt) (ref : string) (n : Z) : Prop :=
  let p := claims t in
  mac_key t = key
  /\ field p "iss" = JStr "proofage-rail"
  /\ is_Some (p !! "aud")
  /\ (ref <> "" -> names_audience (field p "aud") ref)
  /\ (field p "iat" = JUndefined \/ exists x, field p "iat" = JNum x)
  /\ (field p "nbf" = JUndefined \/ exists x, field p "nbf" = JNum x /\ at_most x n)
  /\ (field p "exp" = JUndefined \/ exists x, field p "exp" = JNum x /\ ~ at_most x n).

(** The claim, when a number, is one a [Date] can hold. *)
Definition writable_date (v : jsval) : Prop :=
  forall x, v = JNum x -> date_of_number x <> InvalidDate.

(** A whole number of seconds a [Date] can hold. *)
Definition in_date_range (seconds : Z) : Prop :=
  - max_time <= seconds * 1000 <= max_time.

(* ===================================================================== *)
(** ** A small installation to run the server on *)
(* ===================================================================== *)

Module Demo.

Definition cfg : Config :=
  {| verifierCallbackSecret := "dev_verifier_secret_change_me";
     jwtSigningKey := "dev_jwt_signing_key_change_me_and_make_it_long";
     assertionTtlSeconds := 600 |}.

Definition proof_id : string := "3f2b8c1e-5d4a-4e6f-9a7b-0c1d2e3f4a5b".
Definition token_id : string := "9d8c7b6a-1f2e-4d3c-8b4a-5f6e7d8c9b0a".
Definition nonce1 : string := "nonce_1700000000".
Definition nonce2 : string := "nonce_1700000999".

(** The request of the walk-through once the verifier has passed it. *)
Definition passed_proof : ProofRequest.t :=
  {| ProofRequest.merchantId := "m_a";
     ProofRequest.subjectRef := "user_123";
     ProofRequest.minAge := 18;
     ProofRequest.status := "passed";
     ProofRequest.verifierRef := Some "verif_001";
     ProofRequest.createdAt := 1700000000000;
     ProofRequest.updatedAt := 1700000001000 |}.

(** The token the issuer mints for it at second 1700000002. *)
Definition minted : Jwt :=
  {| mac_key := jwtSigningKey cfg;
     claims := assertion_claims cfg "shop_a" proof_id passed_proof nonce1 token_id 1700000002 |}.

(** A token signed with the same key and for the same request, whose
    issue time is one no date can hold. *)
Definition far_id : string := "7c6b5a49-3e2d-4c1b-8a09-f8e7d6c5b4a3".

Definition minted_far : Jwt :=
  {| mac_key := jwtSigningKey cfg;
     claims :=
       <["iat" := JNum (NumInt 10001700000002)]>
       (assertion_claims cfg "shop_a" proof_id passed_proof nonce1 far_id 1700000002) |}.

(** A textual form for tokens: header, the token identifier, signature. *)
Definition wire (t : Jwt) : string :=
  "eyJhbGciOiJIUzI1NiIsInR5cCI6IkpXVCJ9."
  +:+ match field (claims t) "jti" with JStr j => j | _ => "" end
  +:+ ".c2lnbmF0dXJl".

(** [/^[0-9a-f]{8}-[0-9a-f]{4}-[0-9a-f]{4}-[0-9a-f]{4}-[0-9a-f]{12}$/i],
    position by position. *)
Definition is_hex (c : ascii) : bool :=
  let n := nat_of_ascii c in
  ((48 <=? n) && (n <=? 57) || (65 <=? n) && (n <=? 70) || (97 <=? n) && (n <=? 102))%nat.

Fixpoint uuid_from (i : nat) (s : string) : bool :=
  match s with
  | EmptyString => (i =? 36)%nat
  | String c r =>
      (if (i =? 8) || (i =? 13) || (i =? 18) || (i =? 23) then Ascii.eqb c "-"
       else (i <? 36) && is_hex c)%nat
      && uuid_from (S i) r
  end.

(** [/^c[^\s-]{8,}$/i] *)
Fixpoint no_space_or_hyphen (s : string) : bool :=
  match s with
  | EmptyString => true
  | String c r => negb (is_space c) && negb (Ascii.eqb c "-") && no_space_or_hyphen r
  end.

Definition cuid_shape (s : string) : bool :=
  match s with
  | EmptyString => false
  | String c r =>
      (Ascii.eqb c "c" || Ascii.eqb c "C")
      && (8 <=? String.length r)%nat && no_space_or_hyphen r
  end.

(** Stand-ins for the platform: a digest that is injective, the shapes zod
    asks of a UUID and of a cuid, and a parser that knows the two minted
    tokens. *)
#[export] Instance platform : Platform :=
  {| sha256 := fun s => "sha256:" +:+ s;
     isUuid := uuid_from 0;
     isCuid := cuid_shape;
     jwtSerialize := wire;
     jwtParse := fun s =>
       if String.eqb s (wire minted) then Some minted
       else if String.eqb s (wire minted_far) then Some minted_far
       else None |}.

Definition key_a : string := "proofage_demo_key_change_me".
Definition key_a2 : string := "pkr_0123456789abcdef0123456789abcdef".
Definition key_b : string := "pkr_fedcba9876543210fedcba9876543210".

Definition key_row (merchant plaintext : string) (revoked : option Z) : ApiKey.t :=
  {| ApiKey.merchantId := merchant;
     ApiKey.keyHash := sha256 plaintext;
     ApiKey.label := "bootstrap";
     ApiKey.preview := buildApiKeyPreview plaintext;
     ApiKey.createdAt := 1690000000000;
     ApiKey.lastUsedAt := None;
     ApiKey.revokedAt := revoked |}.

(** Two merchants, three keys, nothing else yet. *)
Definition db0 : DB :=
  {| merchants :=
       <["m_a" := {| Merchant.externalRef := "shop_a"; Merchant.name := "Shop A" |}]>
       (<["m_b" := {| Merchant.externalRef := "shop_b"; Merchant.name := "Shop B" |}]> ∅);
     apiKeys :=
       <["ckeymerchanta0bootstrap01" := key_row "m_a" key_a None]>
       (<["ckeymerchanta0second00002" := key_row "m_a" key_a2 None]>
       (<["ckeymerchantb0bootstrap03" := key_row "m_b" key_b None]> ∅));
     proofRequests := ∅;
     assertionUses := ∅ |}.

(** The same with the walk-through's request passed. *)
Definition db1 : DB := with_proofRequests (<[proof_id := passed_proof]>) db0.

Definition env_at (t : Z) : Env :=
  {| now := t;
     randomUUID := fun n => if (n =? 0)%nat then token_id else "2a3b4c5d-6e7f-4a8b-9c0d-1e2f3a4b5c6d";
     newId := proof_id;
     fault := fun _ => false |}.

Definition with_key (k : string) (b : jsbody) (ps q : gmap string jsval) : request :=
  {| headers := {["x-api-key" := HString k]}; params := ps; query := q; body := b |}.

Definition verify_request (k : string) (n : string) : request :=
  with_key k
    (BodyObject (<["assertion" := JStr (wire minted)]>
                 (<["requiredMinAge" := JNum (NumInt 18)]>
                 (<["expectedNonce" := JStr n]> ∅)))) ∅ ∅.

Definition t_verify : Z := 1700000100000.

(** An environment in which the write of the last-used time fails. *)
Definition env_touch_fails : Env :=
  {| now := t_verify;
     randomUUID := randomUUID (env_at t_verify);
     newId := proof_id;
     fault := fun s => match s with AuthTouch => true | _ => false end |}.

Definition plain_request (k : string) : request := with_key k BodyNone ∅ ∅.

Definition ctx_a : MerchantContext := {| merchantId := "m_a"; merchantExternalRef := "shop_a" |}.
Definition ctx_b : MerchantContext := {| merchantId := "m_b"; merchantExternalRef := "shop_b" |}.

(** Merchant A revokes its bootstrap key, authenticating with its second key. *)
Definition revoke_request : request :=
  with_key key_a2 BodyNone {["apiKeyId" := JStr "ckeymerchanta0bootstrap01"]} ∅.

(** The seed script run again with the bootstrap key of merchant A. *)
Definition reseed : SeedEnv :=
  {| BOOTSTRAP_MERCHANT_EXTERNAL_REF := "shop_a";
     BOOTSTRAP_MERCHANT_NAME := "Shop A";
     BOOTSTRAP_API_KEY := key_a;
     seed_now := t_verify + 60000;
     new_merchant_id := "m_new";
     new_key_id := "ckeyseedfresh000000000004" |}.

Definition pending_proof : ProofRequest.t :=
  {| ProofRequest.merchantId := "m_a";
     ProofRequest.subjectRef := "user_123";
     ProofRequest.minAge := 18;
     ProofRequest.status := "pending";
     ProofRequest.verifierRef := None;
     ProofRequest.createdAt := 1700000000000;
     ProofRequest.updatedAt := 1700000000000 |}.

Definition db_pending : DB := with_proofRequests (<[proof_id := pending_proof]>) db0.

Definition create_request (subjectRef : string) (minAge : Z) : request :=
  with_key key_a
    (BodyObject (<["subjectRef" := JStr subjectRef]>
                 (<["minAge" := JNum (NumInt minAge)]> ∅))) ∅ ∅.

Definition callback_request (result verifierRef : string) : request :=
  {| headers := {["x-verifier-secret" := HString (verifierCallbackSecret cfg)]};
     params := ∅; query := ∅;
     body := BodyObject (<["proofRequestId" := JStr proof_id]>
                         (<["result" := JStr result]>
                         (<["verifierRef" := JStr verifierRef]> ∅))) |}.

Definition proof_request (k : string) (q : gmap string jsval) : request :=
  with_key k BodyNone {["proofRequestId" := JStr proof_id]} q.

Definition t_issue : Z := 1700000002000.

Definition parsed_verify (n : string) : VerifyBody.t :=
  {| VerifyBody.assertion := wire minted;
     VerifyBody.requiredMinAge := 18;
     VerifyBody.expectedNonce := n;
     VerifyBody.expectedSubjectRef := None |}.

Definition after_auth (t : Z) (id k : string) (merchant : string) (db : DB) : DB :=
  touched (env_at t) id (key_row merchant k None) db.

(** *** More of the installation *)

(** A key no row knows. *)
Definition stranger_key : string := "pkr_00000000000000000000000000000000".

(** The database once merchant A has revoked its bootstrap key. *)
Definition db_revoked : DB :=
  run cfg [Call PostRevoke (env_at t_verify) revoke_request] db0.

(** Merchant A asks to revoke the key of merchant B. *)
Definition foreign_revoke_request : request :=
  with_key key_a BodyNone {["apiKeyId" := JStr "ckeymerchantb0bootstrap03"]} ∅.

(** A callback that presents a guessed secret. *)
Definition forged_callback : request :=
  {| headers := {["x-verifier-secret" := HString "guess"]};
     params := ∅; query := ∅;
     body := body (callback_request "passed" "verif_001") |}.

(** The key the server issues when the platform draws [token_id]. *)
Definition issued_key : string := buildApiKeyPlaintext token_id.

Definition list_request (k : string) (q : gmap string jsval) : request :=
  with_key k BodyNone ∅ q.

(** The items of a key list reply. *)
Definition items_of (o : outcome) : list ApiKeyItem :=
  match o with
  | Replied r => match sent r with ApiKeyListBody l => l | _ => [] end
  | Crashed => []
  end.

(** The seed script run for a merchant the installation does not have. *)
Definition bootstrap : SeedEnv :=
  {| BOOTSTRAP_MERCHANT_EXTERNAL_REF := "shop_c";
     BOOTSTRAP_MERCHANT_NAME := "Shop C";
     BOOTSTRAP_API_KEY := "proofage_bootstrap_key_c";
     seed_now := t_verify;
     new_merchant_id := "m_c";
     new_key_id := "ckeymerchantc0bootstrap05" |}.

(** The same a minute later, the store offering other fresh ids. *)
Definition bootstrap_again : SeedEnv :=
  {| BOOTSTRAP_MERCHANT_EXTERNAL_REF := "shop_c";
     BOOTSTRAP_MERCHANT_NAME := "Shop C";
     BOOTSTRAP_API_KEY := "proofage_bootstrap_key_c";
     seed_now := t_verify + 60000;
     new_merchant_id := "m_d";
     new_key_id := "ckeymerchantd0unused00006" |}.

(** A verify request that also names the subject it expects. *)
Definition verify_request_for (k n subject : string) : request :=
  with_key k
    (BodyObject (<["assertion" := JStr (wire minted)]>
                 (<["expectedNonce" := JStr n]>
                 (<["expectedSubjectRef" := JStr subject]> ∅)))) ∅ ∅.

(** A .env file: a comment, a plain line ending in CR LF, a quoted value,
    a line without equals sign, and a second line for PORT. *)
Definition env_file : string :=
  "# local settings" +:+ String LF
  ("PORT=8787" +:+ String CR (String LF
  ("  JWT_SIGNING_KEY = " +:+ String double_quote ("a b=c" +:+ String double_quote
  (String LF
  ("not an assignment" +:+ String LF
  "PORT=9999")))))).

(** The environment the process starts in. *)
Definition process_env : gmap string string := {["HOME" := "/root"]}.

(** The database once merchant A has created the walk-through's request. *)
Definition db_created : DB :=
  (serve cfg PostProofRequest (env_at 1700000000000) (create_request "user_123" 18) db0).2.

(** What may happen meanwhile: the seed runs for a new merchant, and
    merchant B lists its keys. *)
Definition meanwhile : list event :=
  [Seed bootstrap; Call GetApiKeys (env_at 1700000000500) (list_request key_b ∅)].

(** The verifier's verdict on the walk-through's request. *)
Definition verdict : CallbackBody.t :=
  {| CallbackBody.proofRequestId := proof_id;
     CallbackBody.result := "passed";
     CallbackBody.verifierRef := "verif_001" |}.

(** Merchant A asks for the assertion with its own nonce. *)
Definition issue_request : request := proof_request key_a {["nonce" := JStr nonce1]}.





(** Merchant A presents the token whose issue time no date can hold. *)
Definition far_request : request :=
  with_key key_a
    (BodyObject (<["assertion" := JStr (wire minted_far)]>
                 (<["requiredMinAge" := JNum (NumInt 18)]>
                 (<["expectedNonce" := JStr nonce1]> ∅)))) ∅ ∅.

End Demo.

(* ===================================================================== *)
(** ** Reasoning about handlers *)
(* ===================================================================== *)

Lemma findFirst_Some {A} (P : A -> bool) (tbl : gmap string A) k a :
  findFirst P tbl = Some (k, a) -> tbl !! k = Some a /\ P a = true.
Proof.
  unfold findFirst. intros Hf. apply find_some in Hf as [Hin HP].
  split; [|exact HP].
  apply elem_of_map_to_list. by apply list_elem_of_In.
Qed.

Lemma findFirst_None {A} (P : A -> bool) (tbl : gmap string A) k a :
  findFirst P tbl = None -> tbl !! k = Some a -> P a = false.
Proof.
  unfold findFirst. intros Hf Hk.
  apply (find_none _ _ Hf (k, a)).
  apply list_elem_of_In. by apply elem_of_map_to_list.
Qed.

Lemma findFirst_found {A} (P : A -> bool) (tbl : gmap string A) k a :
  tbl !! k = Some a -> P a = true -> is_Some (findFirst P tbl).
Proof.
  intros Hk HP. destruct (findFirst P tbl) as [x|] eqn:Hf; [by eexists|].
  rewrite (findFirst_None _ _ _ _ Hf Hk) in HP. discriminate.
Qed.

Ltac unfold_m :=
  unfold mbind, M_bind, bind, mret, M_ret, ret, send, throw, gets, prisma, handle in *.

Ltac db_simpl :=
  unfold with_merchants, with_apiKeys, with_proofRequests, with_assertionUses in *;
  simpl in *.

Section Keeps.

Context (R : relation DB) `{!PreOrder R}.

Lemma keeps_bind {A B} (m : M A) (k : A -> M B) :
  keeps R m -> (forall a, keeps R (k a)) -> keeps R (m ≫= k).
Proof.
  intros Hm Hk db. unfold mbind, M_bind, bind.
  specialize (Hm db). destruct (m db) as [a db'|r db'|db']; simpl in *; try done.
  etrans; [exact Hm|apply Hk].
Qed.

Lemma keeps_ret {A} (a : A) : keeps R (mret a).
Proof. intros db. simpl. reflexivity. Qed.

Lemma keeps_send {A} r : keeps R (@send A r).
Proof. intros db. simpl. reflexivity. Qed.

Lemma keeps_throw {A} : keeps R (@throw A).
Proof. intros db. simpl. reflexivity. Qed.

Lemma keeps_gets {A} (f : DB -> A) : keeps R (gets f).
Proof. intros db. simpl. reflexivity. Qed.

Lemma keeps_prisma {A} env s (op : M A) : keeps R op -> keeps R (prisma env s op).
Proof.
  intros Hop db. unfold prisma. destruct (fault env s); simpl; [reflexivity|apply Hop].
Qed.

End Keeps.

#[export] Instance ledger_grows_preorder : PreOrder ledger_grows.
Proof. split; [intros db j u; auto | intros a b c Hab Hbc j u Hj; auto]. Qed.

#[export] Instance proofs_keep_preorder : PreOrder proofs_keep.
Proof.
  split.
  - intros db id p Hp. eauto.
  - intros a b c Hab Hbc id p Hp.
    destruct (Hab _ _ Hp) as (p' & Hp' & ? & ? & ?).
    destruct (Hbc _ _ Hp') as (p'' & Hp'' & ? & ? & ?).
    exists p''. repeat split; congruence.
Qed.

#[export] Instance proofs_fixed_preorder : PreOrder proofs_fixed.
Proof. split; [intros db id p; auto | intros a b c Hab Hbc id p Hp; auto]. Qed.

#[export] Instance keys_keep_preorder : PreOrder keys_keep.
Proof.
  split.
  - intros db id k Hk. eauto.
  - intros a b c Hab Hbc id k Hk.
    destruct (Hab _ _ Hk) as (k' & Hk' & ? & ?).
    destruct (Hbc _ _ Hk') as (k'' & Hk'' & ? & ?).
    exists k''. repeat split; [done|congruence|auto].
Qed.

#[export] Instance hashes_stay_unique_preorder : PreOrder hashes_stay_unique.
Proof. split; [intros db; unfold hashes_stay_unique; auto | intros a b c Hab Hbc Ha; auto]. Qed.

Section Frames.

Context `{Platform}.
Variable cfg : Config.

(** **** The storage calls, relation by relation *)

Lemma apiKey_update_ledger id f : keeps ledger_grows (apiKey_update id f).
Proof. intros db j u. unfold apiKey_update. by destruct (apiKeys db !! id). Qed.

Lemma apiKey_update_proofs id f : keeps proofs_keep (apiKey_update id f).
Proof.
  intros db i p Hp. unfold apiKey_update. destruct (apiKeys db !! id); db_simpl; eauto.
Qed.

Lemma apiKey_update_keys id f :
  (forall k, ApiKey.keyHash (f k) = ApiKey.keyHash k) ->
  (forall k, ApiKey.revokedAt k <> None -> ApiKey.revokedAt (f k) <> None) ->
  keeps keys_keep (apiKey_update id f).
Proof.
  intros Hh Hr db i k Hk. unfold apiKey_update.
  destruct (apiKeys db !! id) as [k0|] eqn:Hid; db_simpl; [|eauto].
  destruct (decide (id = i)) as [->|Hne].
  - rewrite lookup_insert_eq. exists (f k0).
    assert (k0 = k) as -> by congruence. auto.
  - rewrite lookup_insert_ne by done. eauto.
Qed.

Lemma apiKey_update_unique id f :
  (forall k, ApiKey.keyHash (f k) = ApiKey.keyHash k) ->
  keeps hashes_stay_unique (apiKey_update id f).
Proof.
  intros Hh db Hu. unfold apiKey_update.
  destruct (apiKeys db !! id) as [k0|] eqn:Hid; [|done].
  intros i j a b. db_simpl. rewrite !lookup_insert.
  repeat case_decide; subst; intros Ha Hb Hab; simplify_eq; try done.
  - rewrite Hh in Hab. eauto.
  - rewrite Hh in Hab. eauto.
  - eauto.
Qed.

Lemma apiKey_create_ledger id k : keeps ledger_grows (apiKey_create id k).
Proof.
  intros db j u. unfold apiKey_create. by repeat case_match.
Qed.

Lemma apiKey_create_proofs id k : keeps proofs_keep (apiKey_create id k).
Proof.
  intros db i p Hp. unfold apiKey_create. repeat case_match; db_simpl; eauto.
Qed.

Lemma apiKey_create_keys id k : keeps keys_keep (apiKey_create id k).
Proof.
  intros db i r Hr. unfold apiKey_create.
  destruct (apiKeys db !! id) eqn:Hid; repeat case_match; db_simpl; eauto.
  exists r. rewrite lookup_insert_ne by congruence. auto.
Qed.

Lemma apiKey_create_unique id k : keeps hashes_stay_unique (apiKey_create id k).
Proof.
  intros db Hu. unfold apiKey_create.
  destruct (apiKeys db !! id) eqn:Hid; [done|].
  destruct (findFirst _ _) eqn:Hf; [done|].
  assert (forall i a, apiKeys db !! i = Some a -> ApiKey.keyHash a <> ApiKey.keyHash k) as Hfresh.
  { intros i a Hi Heq. pose proof (findFirst_None _ _ _ _ Hf Hi) as Hn.
    simpl in Hn. apply String.eqb_neq in Hn. done. }
  intros i j a b. db_simpl. rewrite !lookup_insert.
  repeat case_decide; subst; intros Ha Hb Hab; simplify_eq; try done.
  - symmetry in Hab. by apply Hfresh in Hb.
  - by apply Hfresh in Ha.
  - eauto.
Qed.

(** A storage call that leaves a table alone keeps what is said of it. *)
Ltac untouched op :=
  let db := fresh "db" in
  intros db; unfold op; repeat case_match; db_simpl;
  first [ reflexivity
        | unfold ledger_grows, proofs_keep, proofs_fixed, keys_keep, hashes_stay_unique,
            unique_hashes;
          db_simpl; eauto ].

Lemma proofRequest_update_ledger id f : keeps ledger_grows (proofRequest_update id f).
Proof. untouched @proofRequest_update. Qed.

Lemma proofRequest_update_keys id f : keeps keys_keep (proofRequest_update id f).
Proof. untouched @proofRequest_update. Qed.

Lemma proofRequest_update_unique id f : keeps hashes_stay_unique (proofRequest_update id f).
Proof. untouched @proofRequest_update. Qed.

Lemma proofRequest_update_proofs id env parsed :
  keeps proofs_keep (proofRequest_update id (apply_result env parsed)).
Proof.
  intros db i p Hp. unfold proofRequest_update.
  destruct (proofRequests db !! id) as [p0|] eqn:Hid; db_simpl; [|eauto].
  destruct (decide (id = i)) as [->|Hne].
  - rewrite lookup_insert_eq. assert (p0 = p) as -> by congruence.
    eexists. split; [reflexivity|]. done.
  - rewrite lookup_insert_ne by done. eauto.
Qed.

Lemma proofRequest_create_ledger id p : keeps ledger_grows (proofRequest_create id p).
Proof. untouched @proofRequest_create. Qed.

Lemma proofRequest_create_keys id p : keeps keys_keep (proofRequest_create id p).
Proof. untouched @proofRequest_create. Qed.

Lemma proofRequest_create_unique id p : keeps hashes_stay_unique (proofRequest_create id p).
Proof. untouched @proofRequest_create. Qed.

Lemma proofRequest_create_proofs id p : keeps proofs_keep (proofRequest_create id p).
Proof.
  intros db i q Hq. unfold proofRequest_create.
  destruct (proofRequests db !! id) eqn:Hid; db_simpl; [eauto|].
  exists q. rewrite lookup_insert_ne by congruence. auto.
Qed.

Lemma assertionUse_create_ledger j u : keeps ledger_grows (assertionUse_create j u).
Proof.
  intros db i v Hv. unfold assertionUse_create.
  destruct (assertionUses db !! j) eqn:Hj; db_simpl; [done|].
  rewrite lookup_insert_ne by congruence. done.
Qed.

Lemma assertionUse_create_proofs j u : keeps proofs_keep (assertionUse_create j u).
Proof. untouched @assertionUse_create. Qed.

Lemma assertionUse_create_keys j u : keeps keys_keep (assertionUse_create j u).
Proof. untouched @assertionUse_create. Qed.

Lemma assertionUse_create_unique j u : keeps hashes_stay_unique (assertionUse_create j u).
Proof. untouched @assertionUse_create. Qed.

Lemma merchant_upsert_ledger s : keeps ledger_grows (merchant_upsert s).
Proof. untouched @merchant_upsert. Qed.

Lemma merchant_upsert_proofs s : keeps proofs_keep (merchant_upsert s).
Proof. untouched @merchant_upsert. Qed.

Lemma apiKey_upsert_ledger s m : keeps ledger_grows (apiKey_upsert s m).
Proof. untouched @apiKey_upsert. Qed.

Lemma apiKey_upsert_proofs s m : keeps proofs_keep (apiKey_upsert s m).
Proof. untouched @apiKey_upsert. Qed.

Lemma apiKey_update_fixed id f : keeps proofs_fixed (apiKey_update id f).
Proof. untouched @apiKey_update. Qed.

Lemma apiKey_create_fixed id k : keeps proofs_fixed (apiKey_create id k).
Proof. untouched @apiKey_create. Qed.

Lemma assertionUse_create_fixed j u : keeps proofs_fixed (assertionUse_create j u).
Proof. untouched @assertionUse_create. Qed.

Lemma merchant_upsert_fixed s : keeps proofs_fixed (merchant_upsert s).
Proof. untouched @merchant_upsert. Qed.

Lemma apiKey_upsert_fixed s m : keeps proofs_fixed (apiKey_upsert s m).
Proof. untouched @apiKey_upsert. Qed.

Lemma proofRequest_create_fixed id p : keeps proofs_fixed (proofRequest_create id p).
Proof.
  intros db i q Hq. unfold proofRequest_create.
  destruct (proofRequests db !! id) eqn:Hid; db_simpl; [done|].
  rewrite lookup_insert_ne by congruence. done.
Qed.

Lemma touch_keys id d : keeps keys_keep (apiKey_update id (ApiKey.set_lastUsedAt d)).
Proof. apply apiKey_update_keys; intros k; simpl; auto. Qed.

Lemma touch_unique id d : keeps hashes_stay_unique (apiKey_update id (ApiKey.set_lastUsedAt d)).
Proof. by apply apiKey_update_unique. Qed.

Lemma revoke_keys id d : keeps keys_keep (apiKey_update id (ApiKey.set_revokedAt (Some d))).
Proof. apply apiKey_update_keys; intros k; simpl; [done|discriminate]. Qed.

Lemma revoke_unique id d : keeps hashes_stay_unique (apiKey_update id (ApiKey.set_revokedAt (Some d))).
Proof. by apply apiKey_update_unique. Qed.

End Frames.

Create HintDb keeps discriminated.

#[export] Hint Resolve
  apiKey_update_ledger apiKey_update_proofs touch_keys touch_unique revoke_keys revoke_unique
  apiKey_create_ledger apiKey_create_proofs apiKey_create_keys apiKey_create_unique
  proofRequest_update_ledger proofRequest_update_keys proofRequest_update_unique
  proofRequest_update_proofs
  proofRequest_create_ledger proofRequest_create_keys proofRequest_create_unique
  proofRequest_create_proofs
  assertionUse_create_ledger assertionUse_create_proofs assertionUse_create_keys
  assertionUse_create_unique
  merchant_upsert_ledger merchant_upsert_proofs apiKey_upsert_ledger apiKey_upsert_proofs
  apiKey_update_fixed apiKey_create_fixed assertionUse_create_fixed merchant_upsert_fixed
  apiKey_upsert_fixed proofRequest_create_fixed
  : keeps.

(** Walks a handler: binds, storage calls, replies, and the branches. *)
Ltac keeps_order :=
  try match goal with |- PreOrder _ => typeclasses eauto end.

Ltac keeps_go :=
  repeat first
    [ apply keeps_send; keeps_order
    | apply keeps_throw; keeps_order
    | apply keeps_ret; keeps_order
    | apply keeps_gets; keeps_order
    | apply keeps_prisma; keeps_order
    | solve [ eauto with keeps ]
    | apply keeps_bind; keeps_order; [ | intros ? ]
    | match goal with
      | |- keeps _ (match ?x with _ => _ end) => destruct x
      end ].

Section Handlers.

Context `{Platform}.
Variable cfg : Config.

Lemma handle_db (m : M Empty_set) db : (handle m db).2 = db_after (m db).
Proof. unfold handle. by destruct (m db) as [[]| |]. Qed.

Lemma authenticateMerchant_ledger env req : keeps ledger_grows (authenticateMerchant env req).
Proof. unfold authenticateMerchant. keeps_go. Qed.

Lemma authenticateMerchant_proofs env req : keeps proofs_keep (authenticateMerchant env req).
Proof. unfold authenticateMerchant. keeps_go. Qed.

Lemma authenticateMerchant_keys env req : keeps keys_keep (authenticateMerchant env req).
Proof. unfold authenticateMerchant. keeps_go. Qed.

Lemma authenticateMerchant_unique env req : keeps hashes_stay_unique (authenticateMerchant env req).
Proof. unfold authenticateMerchant. keeps_go. Qed.

Lemma authenticateMerchant_fixed env req : keeps proofs_fixed (authenticateMerchant env req).
Proof. unfold authenticateMerchant. keeps_go. Qed.

#[local] Hint Resolve authenticateMerchant_ledger authenticateMerchant_proofs
  authenticateMerchant_keys authenticateMerchant_unique authenticateMerchant_fixed : keeps.

Ltac handler_keeps :=
  unfold handler, health, postApiKeys, getApiKeys, postRevoke, postProofRequest,
    postCallback, getStatus, getAssertion, postVerifyAssertion, verifyCallbackSecret, seed;
  keeps_go.


Lemma handler_proofs r env req : keeps proofs_keep (handler cfg r env req).
Proof. destruct r; handler_keeps. Qed.

Lemma handler_keys r env req : keeps keys_keep (handler cfg r env req).
Proof. destruct r; handler_keeps. Qed.

Lemma handler_unique r env req : keeps hashes_stay_unique (handler cfg r env req).
Proof. destruct r; handler_keeps. Qed.

Lemma handler_fixed r env req :
  r <> PostCallback -> keeps proofs_fixed (handler cfg r env req).
Proof. intros Hr. destruct r; try done; handler_keeps. Qed.

Lemma seed_fixed s : keeps proofs_fixed (seed s).
Proof. handler_keeps. Qed.


Lemma seed_proofs s : keeps proofs_keep (seed s).
Proof. handler_keeps. Qed.

(** **** Events and runs *)

Lemma run_cons e es db : run cfg (e :: es) db = run cfg es (exec cfg e db).
Proof. reflexivity. Qed.

Lemma run_keeps (R : relation DB) `{!PreOrder R} es db :
  Forall (fun e => forall d, R d (exec cfg e d)) es -> R db (run cfg es db).
Proof.
  intros Hes. revert db. induction Hes as [|e es He _ IH]; intros db.
  - reflexivity.
  - rewrite run_cons. etrans; [apply He|apply IH].
Qed.


Lemma exec_proofs e db : proofs_keep db (exec cfg e db).
Proof.
  destruct e as [r env req|s]; simpl.
  - unfold serve. rewrite handle_db. apply handler_proofs.
  - apply seed_proofs.
Qed.


Lemma run_proofs es db : proofs_keep db (run cfg es db).
Proof. apply run_keeps; [apply _|]. apply Forall_forall. intros e _ d. apply exec_proofs. Qed.

Lemma run_calls_keys es db :
  forallb is_call es = true -> keys_keep db (run cfg es db).
Proof.
  intros Hes. apply run_keeps; [apply _|].
  apply Forall_forall. intros e He d.
  rewrite forallb_forall in Hes. apply list_elem_of_In, Hes in He.
  destruct e as [r env req|s]; [|discriminate]. simpl.
  unfold serve. rewrite handle_db. apply handler_keys.
Qed.

Lemma run_calls_unique es db :
  forallb is_call es = true -> unique_hashes db -> unique_hashes (run cfg es db).
Proof.
  intros Hes. change (hashes_stay_unique db (run cfg es db)).
  apply run_keeps; [apply _|].
  apply Forall_forall. intros e He d.
  rewrite forallb_forall in Hes. apply list_elem_of_In, Hes in He.
  destruct e as [r env req|s]; [|discriminate]. simpl.
  unfold serve. rewrite handle_db. apply handler_unique.
Qed.

Lemma handle_bind_next {A} (m : M A) (k : A -> M Empty_set) db a db1 :
  m db = Next a db1 -> handle (m ≫= k) db = handle (k a) db1.
Proof. intros Hm. unfold handle, mbind, M_bind, bind. by rewrite Hm. Qed.

Lemma handle_bind_reply {A} (m : M A) (k : A -> M Empty_set) db r db1 :
  m db = Reply r db1 -> handle (m ≫= k) db = (Replied r, db1).
Proof. intros Hm. unfold handle, mbind, M_bind, bind. by rewrite Hm. Qed.

Lemma handle_bind_throw {A} (m : M A) (k : A -> M Empty_set) db db1 :
  m db = Throw db1 -> handle (m ≫= k) db = (Crashed, db1).
Proof. intros Hm. unfold handle, mbind, M_bind, bind. by rewrite Hm. Qed.

(** **** What authentication does, case by case *)

Lemma authenticateMerchant_inv env req db :
  match authenticateMerchant env req db with
  | Next ctx db' =>
      exists apiKey id k m,
        readHeader req "x-api-key" = Some apiKey /\ apiKey <> ""
        /\ findFirst (active_with_hash (sha256 apiKey)) (apiKeys db) = Some (id, k)
        /\ merchants db !! ApiKey.merchantId k = Some m
        /\ fault env AuthFindFirst = false /\ fault env AuthTouch = false
        /\ ctx = {| merchantId := ApiKey.merchantId k;
                    merchantExternalRef := Merchant.externalRef m |}
        /\ db' = touched env id k db
  | Reply r db' =>
      db' = db
      /\ (r = unauthorized "MISSING_API_KEY" "x-api-key header is required"
          \/ r = unauthorized "INVALID_API_KEY" "API key is invalid or revoked")
  | Throw db' => True
  end.
Proof.
  unfold authenticateMerchant.
  destruct (readHeader req "x-api-key") as [apiKey|] eqn:Hh; [|simpl; auto].
  destruct (String.eqb apiKey "") eqn:He; [simpl; auto|].
  apply String.eqb_neq in He.
  unfold mbind, M_bind, bind, prisma, gets.
  destruct (fault env AuthFindFirst) eqn:Hf1; [done|].
  destruct (findFirst _ (apiKeys db)) as [[id k]|] eqn:Hff; [|simpl; auto].
  destruct (fault env AuthTouch) eqn:Hf2; [done|].
  unfold apiKey_update.
  apply findFirst_Some in Hff as Hff'. destruct Hff' as [Hk _]. rewrite Hk.
  destruct (merchants db !! ApiKey.merchantId k) as [m|] eqn:Hm; [|done].
  simpl. exists apiKey, id, k, m. repeat split; auto.
Qed.

End Handlers.

(* ===================================================================== *)
(** ** The credential store *)
(* ===================================================================== *)

Section Credentials.

Context `{Platform}.
Variable cfg : Config.

(** Authentication once an active matching key is found: everything hangs
    on the write of the last-used time. *)
Lemma authenticateMerchant_found env req db apiKey id k m :
  readHeader req "x-api-key" = Some apiKey -> apiKey <> "" ->
  fault env AuthFindFirst = false ->
  findFirst (active_with_hash (sha256 apiKey)) (apiKeys db) = Some (id, k) ->
  merchants db !! ApiKey.merchantId k = Some m ->
  authenticateMerchant env req db =
    if fault env AuthTouch then Throw db
    else Next {| merchantId := ApiKey.merchantId k;
                 merchantExternalRef := Merchant.externalRef m |}
              (touched env id k db).
Proof.
  intros Hh He Hf Hff Hm. unfold authenticateMerchant. rewrite Hh.
  apply String.eqb_neq in He. rewrite He.
  unfold mbind, M_bind, bind, prisma, gets. rewrite Hf, Hff.
  destruct (fault env AuthTouch); [done|].
  unfold apiKey_update. apply findFirst_Some in Hff as [-> _]. by rewrite Hm.
Qed.

Lemma active_with_hash_true h k :
  active_with_hash h k = true <-> ApiKey.keyHash k = h /\ ApiKey.revokedAt k = None.
Proof.
  unfold active_with_hash. rewrite andb_true_iff, String.eqb_eq, bool_decide_eq_true. done.
Qed.

(** The row a successful revocation leaves behind. *)
Lemma postRevoke_done env req db r db1 id k :
  serve cfg PostRevoke env req db = (Replied r, db1) ->
  statusCode r = 200 ->
  merchantApiKeyParamsSchema (params req) = Some id ->
  apiKeys db !! id = Some k ->
  exists k1, apiKeys db1 !! id = Some k1
    /\ ApiKey.keyHash k1 = ApiKey.keyHash k
    /\ ApiKey.revokedAt k1 <> None.
Proof.
  intros Hs Hst Hid Hk. unfold serve, handler, postRevoke in Hs.
  pose proof (authenticateMerchant_inv env req db) as Hauth.
  unfold_m.
  destruct (authenticateMerchant env req db) as [ctx db0|r0 db0|db0];
    [| destruct Hauth as [-> [-> | ->]]; simplify_eq; cbv in Hst; discriminate | discriminate].
  destruct Hauth as (apiKey & id0 & k0 & m & Hh & Hne & Hff & Hm & _ & _ & -> & ->).
  rewrite Hid in Hs.
  destruct (fault env RevokeFindFirst); [discriminate|].
  apply findFirst_Some in Hff as [Hk0 Hact].
  assert (exists k', apiKeys (touched env id0 k0 db) !! id = Some k'
            /\ ApiKey.keyHash k' = ApiKey.keyHash k
            /\ ApiKey.revokedAt k' = ApiKey.revokedAt k) as (k' & Hk' & Hh' & Hr').
  { unfold touched. db_simpl. destruct (decide (id0 = id)) as [->|Hn].
    - rewrite lookup_insert_eq. eexists. split; [done|]. by simplify_eq.
    - rewrite lookup_insert_ne by done. eauto. }
  rewrite Hk' in Hs. simpl in Hs.
  destruct (String.eqb (ApiKey.merchantId k') (ApiKey.merchantId k0)); simpl in Hs;
    [|simplify_eq; cbv in Hst; discriminate].
  rewrite Hh in Hs.
  destruct (negb (String.eqb apiKey "") && String.eqb (sha256 apiKey) (ApiKey.keyHash k'));
    [simplify_eq; cbv in Hst; discriminate|].
  destruct (ApiKey.revokedAt k') as [d|] eqn:Hrev.
  - simplify_eq. exists k'. split; [done|]. split; [done|]. congruence.
  - destruct (fault env RevokeUpdate); [discriminate|].
    unfold apiKey_update in Hs. rewrite Hk' in Hs. simplify_eq.
    eexists. db_simpl. rewrite lookup_insert_eq. split; [done|]. simpl. split; [done|discriminate].
Qed.

(** C3 (as amended). A presented credential authenticates exactly when some
    key row with revocation time unset carries its SHA-256 digest; and once
    a revocation has succeeded on a key, every later authentication that
    presents it fails, whatever requests the server handles in between.
    (The bootstrap seed is left out of "in between": it sets [revokedAt]
    back to null on the key it upserts.) *)
Theorem authenticate_iff_active_key_and_revocation_sticks :
  (forall env req db apiKey,
     readHeader req "x-api-key" = Some apiKey -> apiKey <> "" ->
     fault env AuthFindFirst = false -> fault env AuthTouch = false ->
     keys_have_merchants db ->
     ((exists ctx db', authenticateMerchant env req db = Next ctx db')
      <-> (exists id k, apiKeys db !! id = Some k
             /\ ApiKey.keyHash k = sha256 apiKey /\ ApiKey.revokedAt k = None)))
  /\
  (forall env req db r db1 id k calls env' req' apiKey,
     unique_hashes db ->
     serve cfg PostRevoke env req db = (Replied r, db1) -> statusCode r = 200 ->
     merchantApiKeyParamsSchema (params req) = Some id ->
     apiKeys db !! id = Some k ->
     forallb is_call calls = true ->
     readHeader req' "x-api-key" = Some apiKey -> sha256 apiKey = ApiKey.keyHash k ->
     forall ctx db', authenticateMerchant env' req' (run cfg calls db1) <> Next ctx db').
Proof.
  split.
  - intros env req db apiKey Hh Hne Hf1 Hf2 Hfk. split.
    + intros (ctx & db' & Hauth).
      pose proof (authenticateMerchant_inv env req db) as Hinv. rewrite Hauth in Hinv.
      destruct Hinv as (apiKey' & id & k & m & Hh' & _ & Hff & _).
      assert (apiKey' = apiKey) as -> by congruence.
      apply findFirst_Some in Hff as [Hk Hact]. apply active_with_hash_true in Hact.
      exists id, k. tauto.
    + intros (id & k & Hk & Hhash & Hrev).
      destruct (findFirst_found (active_with_hash (sha256 apiKey)) _ _ _ Hk) as [[id' k'] Hff].
      { by apply active_with_hash_true. }
      apply findFirst_Some in Hff as Hff'. destruct Hff' as [Hk' _].
      destruct (Hfk _ _ Hk') as [m Hm].
      rewrite (authenticateMerchant_found env req db apiKey id' k' m) by done.
      rewrite Hf2. eauto.
  - intros env req db r db1 id k calls env' req' apiKey Hu Hs Hst Hid Hk Hcalls Hh' Hhash ctx db' Hauth.
    destruct (postRevoke_done _ _ _ _ _ _ _ Hs Hst Hid Hk) as (k1 & Hk1 & Hh1 & Hr1).
    assert (unique_hashes db1) as Hu1.
    { replace db1 with (serve cfg PostRevoke env req db).2 by (by rewrite Hs).
      unfold serve. rewrite handle_db. by apply handler_unique. }
    pose proof (run_calls_unique cfg calls db1 Hcalls Hu1) as Hu2.
    destruct (run_calls_keys cfg calls db1 Hcalls _ _ Hk1) as (k2 & Hk2 & Hh2 & Hr2).
    pose proof (authenticateMerchant_inv env' req' (run cfg calls db1)) as Hinv.
    rewrite Hauth in Hinv.
    destruct Hinv as (apiKey' & id' & k' & m & Hh'' & _ & Hff & _).
    assert (apiKey' = apiKey) as -> by congruence.
    apply findFirst_Some in Hff as [Hk' Hact]. apply active_with_hash_true in Hact as [Hkh Hkr].
    assert (id' = id) as ->.
    { apply (Hu2 _ _ _ _ Hk' Hk2). congruence. }
    assert (k' = k2) as -> by congruence.
    by apply Hr2.
Qed.

(** C4 (as amended). When an active matching key is found, authentication
    returns the owning merchant's id and external reference provided the
    write of the last-used time succeeds; when that write fails, the
    failure escapes and authentication returns nothing. *)
Theorem authenticate_returns_merchant_unless_touch_fails env req db apiKey id k m :
  readHeader req "x-api-key" = Some apiKey -> apiKey <> "" ->
  fault env AuthFindFirst = false ->
  findFirst (active_with_hash (sha256 apiKey)) (apiKeys db) = Some (id, k) ->
  merchants db !! ApiKey.merchantId k = Some m ->
  authenticateMerchant env req db =
    if fault env AuthTouch then Throw db
    else Next {| merchantId := ApiKey.merchantId k;
                 merchantExternalRef := Merchant.externalRef m |}
              (touched env id k db).
Proof. apply authenticateMerchant_found. Qed.

End Credentials.

(* ===================================================================== *)
(** ** The proof lifecycle *)
(* ===================================================================== *)

Section Lifecycle.

Context `{Platform}.
Variable cfg : Config.

Lemma requestSchema_accepts b s z :
  requestSchema b = Some {| RequestBody.subjectRef := s; RequestBody.minAge := z |}
  <-> acceptable_request b s z.
Proof.
  unfold requestSchema, acceptable_request, Zod.object. split.
  - intros Hp. destruct b as [|o|]; try discriminate. exists o. split; [done|].
    unfold Zod.string_min, min_len in Hp.
    destruct (field o "subjectRef") as [| | | |s'| |]; try discriminate.
    destruct (3 <=? String.length s')%nat eqn:Hlen; [|discriminate]. simpl in Hp.
    apply Nat.leb_le in Hlen.
    unfold Zod.default, Zod.int_between in Hp.
    destruct (field o "minAge") as [| | |[z'|? ?|?]| | |]; simpl in Hp; try discriminate.
    + simplify_eq. auto.
    + destruct ((13 <=? z') && (z' <=? 25)) eqn:Hb; simpl in Hp; [|discriminate].
      simplify_eq. apply andb_true_iff in Hb as [?%Z.leb_le ?%Z.leb_le].
      split; [done|]. split; [done|]. right. split; [done|lia].
  - intros (o & -> & Hs & Hlen & Hm). rewrite Hs. unfold Zod.string_min, min_len.
    apply Nat.leb_le in Hlen. rewrite Hlen. simpl.
    destruct Hm as [[-> ->]|[-> Hb]]; simpl; [done|].
    assert ((13 <=? z) && (z <=? 25) = true) as ->; [|done].
    apply andb_true_iff. split; apply Z.leb_le; lia.
Qed.

Lemma authenticateMerchant_proofs_same env req db merchant db1 :
  authenticateMerchant env req db = Next merchant db1 ->
  proofRequests db1 = proofRequests db /\ assertionUses db1 = assertionUses db.
Proof.
  intros Hauth. pose proof (authenticateMerchant_inv env req db) as Hinv.
  rewrite Hauth in Hinv. destruct Hinv as (? & ? & ? & ? & _ & _ & _ & _ & _ & _ & _ & ->).
  done.
Qed.

(** Authentication does not read the proof requests. *)
Lemma authenticateMerchant_frame env req db merchant db1 f :
  authenticateMerchant env req db = Next merchant db1 ->
  authenticateMerchant env req (with_proofRequests f db) = Next merchant (with_proofRequests f db1).
Proof.
  intros Hauth. pose proof (authenticateMerchant_inv env req db) as Hinv.
  rewrite Hauth in Hinv.
  destruct Hinv as (apiKey & id & k & m & Hh & Hne & Hff & Hm & Hf1 & Hf2 & -> & ->).
  rewrite (authenticateMerchant_found env req _ apiKey id k m) by done.
  by rewrite Hf2.
Qed.

(** What a callback does to the database. *)
Lemma postCallback_effect env req db :
  (serve cfg PostCallback env req db).2 = db
  \/ exists parsed p,
       callbackSchema (body req) = Some parsed
       /\ proofRequests db !! CallbackBody.proofRequestId parsed = Some p
       /\ serve cfg PostCallback env req db =
            (Replied (ok CallbackOkBody),
             with_proofRequests
               (<[CallbackBody.proofRequestId parsed := apply_result env parsed p]>) db).
Proof.
  unfold serve, handler, postCallback, verifyCallbackSecret, proofRequest_update. unfold_m.
  destruct (readHeader req "x-verifier-secret") as [provided|]; simpl; [|by left].
  destruct (String.eqb provided ""); simpl; [by left|].
  destruct (negb (safeEqual provided (verifierCallbackSecret cfg))); simpl; [by left|].
  destruct (callbackSchema (body req)) as [parsed|]; simpl; [|by left].
  destruct (fault env CallbackFindUnique); simpl; [by left|].
  destruct (proofRequests db !! CallbackBody.proofRequestId parsed) as [p|] eqn:Hp;
    simpl; [|by left].
  destruct (fault env CallbackUpdate); simpl; [by left|].
  rewrite Hp. simpl. right. eauto.
Qed.

(** C2 (as amended). A callback the server accepts overwrites the status
    with the result it carries, whatever the status was, terminal or not;
    it is the only thing that changes a status. The owner, the subject
    reference and the minimum age of a request are never changed, by any
    request to the server or run of the seed. *)
Theorem callback_overwrites_status_and_request_is_otherwise_fixed :
  (forall env req db db',
     serve cfg PostCallback env req db = (Replied (ok CallbackOkBody), db') ->
     exists parsed p p',
       callbackSchema (body req) = Some parsed
       /\ proofRequests db !! CallbackBody.proofRequestId parsed = Some p
       /\ proofRequests db' !! CallbackBody.proofRequestId parsed = Some p'
       /\ ProofRequest.status p' = CallbackBody.result parsed)
  /\
  (forall e db id p,
     proofRequests db !! id = Some p ->
     exists p', proofRequests (exec cfg e db) !! id = Some p'
       /\ (ProofRequest.status p' <> ProofRequest.status p ->
           exists env req parsed,
             e = Call PostCallback env req
             /\ callbackSchema (body req) = Some parsed
             /\ CallbackBody.proofRequestId parsed = id
             /\ ProofRequest.status p' = CallbackBody.result parsed))
  /\
  (forall es db id p,
     proofRequests db !! id = Some p ->
     exists p', proofRequests (run cfg es db) !! id = Some p'
       /\ ProofRequest.merchantId p' = ProofRequest.merchantId p
       /\ ProofRequest.subjectRef p' = ProofRequest.subjectRef p
       /\ ProofRequest.minAge p' = ProofRequest.minAge p).
Proof.
  split; [|split].
  - intros env req db db'.
    unfold serve, handler, postCallback, verifyCallbackSecret, proofRequest_update. unfold_m.
    destruct (readHeader req "x-verifier-secret") as [provided|]; simpl; [|done].
    destruct (String.eqb provided ""); simpl; [done|].
    destruct (negb (safeEqual provided (verifierCallbackSecret cfg))); simpl; [done|].
    destruct (callbackSchema (body req)) as [parsed|]; simpl; [|done].
    destruct (fault env CallbackFindUnique); simpl; [done|].
    destruct (proofRequests db !! CallbackBody.proofRequestId parsed) as [p|] eqn:Hp;
      simpl; [|done].
    destruct (fault env CallbackUpdate); simpl; [done|].
    rewrite Hp. simpl. intros Hs. injection Hs as <-.
    exists parsed, p, (apply_result env parsed p). split; [done|]. split; [done|].
    split; [|done]. db_simpl. by rewrite lookup_insert_eq.
  - intros e db id p Hp.
    destruct e as [r env req|s].
    + destruct (decide (r = PostCallback)) as [->|Hr].
      * simpl. destruct (postCallback_effect env req db) as [->|(parsed & p0 & Hparsed & Hl & ->)].
        { exists p. split; [done|]. congruence. }
        db_simpl. destruct (decide (CallbackBody.proofRequestId parsed = id)) as [<-|Hne].
        { rewrite lookup_insert_eq. eexists. split; [done|]. intros _.
          exists env, req, parsed. done. }
        rewrite lookup_insert_ne by done. exists p. split; [done|]. congruence.
      * exists p. split; [|congruence]. simpl. unfold serve. rewrite handle_db.
        by apply handler_fixed.
    + exists p. split; [|congruence]. simpl. by apply seed_fixed.
  - intros es db id p Hp. by apply run_proofs.
Qed.

Lemma own_proof_foreign id merchant db p :
  proofRequests db !! id = Some p ->
  ProofRequest.merchantId p <> merchantId merchant ->
  own_proof id merchant db = None.
Proof.
  intros Hp Hne. unfold own_proof. rewrite Hp. simpl.
  apply String.eqb_neq in Hne. by rewrite Hne.
Qed.

Lemma own_proof_gone id merchant db :
  own_proof id merchant (with_proofRequests (delete id) db) = None.
Proof. unfold own_proof. db_simpl. by rewrite lookup_delete_eq. Qed.

Lemma own_proof_same id merchant db db1 :
  proofRequests db1 = proofRequests db -> own_proof id merchant db1 = own_proof id merchant db.
Proof. unfold own_proof. by intros ->. Qed.

(** C8. A status or assertion request that names a proof request owned by
    another merchant is answered exactly as it would be if that proof
    request were not in the table: the same reply, which is the 404 with
    code NOT_FOUND and message "proofRequestId not found". *)
Theorem foreign_request_indistinguishable_from_missing env req db merchant db1 id p :
  authenticateMerchant env req db = Next merchant db1 ->
  proofRequestParamsSchema (params req) = Some id ->
  proofRequests db !! id = Some p ->
  ProofRequest.merchantId p <> merchantId merchant ->
  let gone := with_proofRequests (delete id) db in
  (serve cfg GetStatus env req db).1 = (serve cfg GetStatus env req gone).1
  /\ (serve cfg GetAssertion env req db).1 = (serve cfg GetAssertion env req gone).1
  /\ (fault env StatusFindFirst = false ->
        (serve cfg GetStatus env req db).1 = Replied not_found)
  /\ (fault env AssertionFindFirst = false ->
        (serve cfg GetAssertion env req db).1 = Replied not_found).
Proof.
  intros Hauth Hid Hp Hne gone.
  pose proof (authenticateMerchant_frame env req db merchant db1 (delete id) Hauth) as Hauth'.
  destruct (authenticateMerchant_proofs_same _ _ _ _ _ Hauth) as [Hsame _].
  assert (own_proof id merchant db1 = None) as Hown.
  { rewrite (own_proof_same _ _ db) by done. by eapply own_proof_foreign. }
  pose proof (own_proof_gone id merchant db1) as Hgone.
  unfold serve, handler, getStatus, getAssertion, gone.
  rewrite !(handle_bind_next _ _ _ _ _ Hauth), !(handle_bind_next _ _ _ _ _ Hauth').
  rewrite Hid. unfold_m. rewrite Hown, Hgone.
  destruct (fault env StatusFindFirst), (fault env AssertionFindFirst); simpl;
    repeat split; done.
Qed.

(** C9 (as amended). For an authenticated createRequest call whose fresh id
    the store accepts, the request succeeds, with status pending under
    that id, exactly when the body is an object whose subjectRef is a
    string of at least three characters and whose minAge is an integer
    from 13 to 25 or is left out (and then taken as 18); any other body is
    rejected with the validation error. *)
Theorem createRequest_succeeds_iff_acceptable env req db merchant db1 :
  authenticateMerchant env req db = Next merchant db1 ->
  fault env ProofCreate = false ->
  proofRequests db1 !! newId env = None ->
  (forall subjectRef minAge,
     acceptable_request (body req) subjectRef minAge ->
     serve cfg PostProofRequest env req db =
       (Replied (created (ProofCreatedBody (newId env) (merchantExternalRef merchant)
                   "pending" ("https://verify.placeholder/proof/" +:+ newId env))),
        with_proofRequests
          (<[newId env :=
               {| ProofRequest.merchantId := merchantId merchant;
                  ProofRequest.subjectRef := subjectRef;
                  ProofRequest.minAge := minAge;
                  ProofRequest.status := "pending";
                  ProofRequest.verifierRef := None;
                  ProofRequest.createdAt := now env;
                  ProofRequest.updatedAt := now env |}]>) db1))
  /\
  ((forall subjectRef minAge, ~ acceptable_request (body req) subjectRef minAge) ->
   serve cfg PostProofRequest env req db =
     (Replied (error_with_details 400 "INVALID_REQUEST" "Request body is invalid"), db1)).
Proof.
  intros Hauth Hf Hfresh.
  unfold serve, handler, postProofRequest.
  rewrite (handle_bind_next _ _ _ _ _ Hauth).
  split.
  - intros s z Hacc. apply requestSchema_accepts in Hacc. rewrite Hacc.
    unfold proofRequest_create. unfold_m. rewrite Hf, Hfresh. done.
  - intros Hnone. destruct (requestSchema (body req)) as [[s z]|] eqn:Hp; [|done].
    apply requestSchema_accepts in Hp. by apply Hnone in Hp.
Qed.

(** C10. Assertion issuance looks at the proof request before it looks at
    the nonce: an authenticated request naming one of the caller's proof
    requests whose status is not passed gets PROOF_NOT_PASSED (409) whatever
    the query holds, a malformed nonce included; and the nonce validation
    error is only ever sent for a proof request whose status is passed. *)
Theorem assertion_status_checked_before_nonce :
  (forall env req db merchant db1 id p,
     authenticateMerchant env req db = Next merchant db1 ->
     proofRequestParamsSchema (params req) = Some id ->
     fault env AssertionFindFirst = false ->
     proofRequests db !! id = Some p ->
     ProofRequest.merchantId p = merchantId merchant ->
     ProofRequest.status p <> "passed" ->
     serve cfg GetAssertion env req db = (Replied proof_not_passed, db1))
  /\
  (forall env req db,
     (serve cfg GetAssertion env req db).1 =
       Replied (error_with_details 400 "INVALID_QUERY" "Query params are invalid") ->
     exists id p,
       proofRequestParamsSchema (params req) = Some id
       /\ proofRequests db !! id = Some p
       /\ ProofRequest.status p = "passed"
       /\ proofAssertionQuerySchema (query req) = None).
Proof.
  split.
  - intros env req db merchant db1 id p Hauth Hid Hf Hp Hown Hst.
    destruct (authenticateMerchant_proofs_same _ _ _ _ _ Hauth) as [Hsame _].
    unfold serve, handler, getAssertion.
    rewrite (handle_bind_next _ _ _ _ _ Hauth), Hid. unfold_m. rewrite Hf.
    rewrite (own_proof_same _ _ db) by done. unfold own_proof. rewrite Hp. simpl.
    rewrite Hown, String.eqb_refl.
    apply String.eqb_neq in Hst. by rewrite Hst.
  - intros env req db.
    unfold serve, handler, getAssertion.
    pose proof (authenticateMerchant_inv env req db) as Hinv.
    destruct (authenticateMerchant env req db) as [merchant db1|r db1|db1] eqn:Hauth.
    + rewrite (handle_bind_next _ _ _ _ _ Hauth).
      destruct (authenticateMerchant_proofs_same _ _ _ _ _ Hauth) as [Hsame _].
      destruct (proofRequestParamsSchema (params req)) as [id|]; [|done].
      unfold_m. destruct (fault env AssertionFindFirst); [done|].
      rewrite (own_proof_same _ _ db) by done. unfold own_proof.
      destruct (proofRequests db !! id) as [p|] eqn:Hp; simpl; [|done].
      destruct (String.eqb (ProofRequest.merchantId p) (merchantId merchant)); [|done].
      destruct (String.eqb (ProofRequest.status p) "passed") eqn:Hst; simpl; [|done].
      apply String.eqb_eq in Hst.
      destruct (proofAssertionQuerySchema (query req)) as [q|] eqn:Hq.
      * destruct q; simpl; done.
      * intros _. exists id, p. done.
    + rewrite (handle_bind_reply _ _ _ _ _ Hauth). simpl.
      destruct Hinv as [_ [-> | ->]]; done.
    + rewrite (handle_bind_throw _ _ _ _ Hauth). done.
Qed.

End Lifecycle.

(* ===================================================================== *)
(** ** Issuing and verifying assertions *)
(* ===================================================================== *)

Section Assertions.

Context `{Platform}.
Variable cfg : Config.

Lemma string_min_Some lo v s :
  Zod.string_min lo v = Some s -> v = JStr s /\ (lo <= String.length s)%nat.
Proof.
  unfold Zod.string_min, min_len. destruct v; try discriminate.
  destruct (lo <=? String.length s0)%nat eqn:Hlen; [|discriminate].
  intros Hs. simplify_eq. by apply Nat.leb_le in Hlen.
Qed.

(** The fields of a body that [verifyAssertionSchema] accepts. *)
Lemma verifyAssertionSchema_Some b parsed :
  verifyAssertionSchema b = Some parsed ->
  exists o, b = BodyObject o
    /\ Zod.string_min 20 (field o "assertion") = Some (VerifyBody.assertion parsed)
    /\ Zod.optional (Zod.string_min 3) (field o "expectedSubjectRef")
         = Some (VerifyBody.expectedSubjectRef parsed).
Proof.
  unfold verifyAssertionSchema, Zod.object.
  destruct b as [|o|]; try discriminate. intros Hp.
  apply bind_Some in Hp as (a & Ha & Hp).
  apply bind_Some in Hp as (r & Hr & Hp).
  apply bind_Some in Hp as (n & Hn & Hp).
  apply bind_Some in Hp as (e & He & Hp).
  simplify_eq. exists o. done.
Qed.

Lemma verifyAssertionSchema_token req parsed :
  verifyAssertionSchema (body req) = Some parsed ->
  token_of req = Some (VerifyBody.assertion parsed).
Proof.
  intros Hp. apply verifyAssertionSchema_Some in Hp as (o & Hb & Ha & _).
  unfold token_of. rewrite Hb. apply string_min_Some in Ha as [-> _]. done.
Qed.


Lemma string_between_Some lo hi v s :
  Zod.string_between lo hi v = Some s ->
  v = JStr s /\ (lo <= String.length s <= hi)%nat.
Proof.
  unfold Zod.string_between, min_len, max_len. destruct v; try discriminate.
  destruct (lo <=? String.length s0)%nat eqn:H1; [|discriminate].
  destruct (String.length s0 <=? hi)%nat eqn:H2; [|discriminate].
  simpl. intros Hs. simplify_eq. apply Nat.leb_le in H1, H2. done.
Qed.

Lemma int_between_Some lo hi v z :
  Zod.int_between lo hi v = Some z -> v = JNum (NumInt z) /\ lo <= z <= hi.
Proof.
  unfold Zod.int_between. destruct v as [| | |[z'|? ?|?]| | |]; try discriminate.
  destruct ((lo <=? z') && (z' <=? hi)) eqn:Hb; [|discriminate].
  intros Hs. simplify_eq. apply andb_true_iff in Hb as [?%Z.leb_le ?%Z.leb_le]. done.
Qed.

Lemma string_format_Some f v s :
  Zod.string_format f v = Some s -> v = JStr s /\ f s = true.
Proof.
  unfold Zod.string_format. destruct v; try discriminate.
  destruct (f s0) eqn:Hf; [|discriminate]. intros Hs. by simplify_eq.
Qed.

(** The fields of a verification body the schema accepts. *)
Lemma verifyAssertionSchema_fields b parsed :
  verifyAssertionSchema b = Some parsed ->
  exists o, b = BodyObject o
    /\ 13 <= VerifyBody.requiredMinAge parsed <= 25
    /\ (field o "requiredMinAge" = JUndefined -> VerifyBody.requiredMinAge parsed = 18)
    /\ field o "expectedNonce" = JStr (VerifyBody.expectedNonce parsed)
    /\ (8 <= String.length (VerifyBody.expectedNonce parsed) <= 200)%nat
    /\ Zod.optional (Zod.string_min 3) (field o "expectedSubjectRef")
         = Some (VerifyBody.expectedSubjectRef parsed).
Proof.
  unfold verifyAssertionSchema, Zod.object.
  destruct b as [|o|]; try discriminate. intros Hp.
  apply bind_Some in Hp as (a & Ha & Hp).
  apply bind_Some in Hp as (r & Hr & Hp).
  apply bind_Some in Hp as (n & Hn & Hp).
  apply bind_Some in Hp as (e & He & Hp).
  simplify_eq. simpl. exists o. split; [done|].
  apply string_between_Some in Hn as [Hn Hlen].
  assert (13 <= r <= 25 /\ (field o "requiredMinAge" = JUndefined -> r = 18)) as [Hband Hdef].
  { unfold Zod.default in Hr. destruct (field o "requiredMinAge") eqn:Hf;
      try (apply int_between_Some in Hr as [_ Hr]; done).
    simplify_eq. split; [lia|done]. }
  done.
Qed.

(** The threshold of a creation body the schema accepts lies in the band. *)
Lemma requestSchema_minAge b rb :
  requestSchema b = Some rb -> 13 <= RequestBody.minAge rb <= 25.
Proof.
  unfold requestSchema, Zod.object.
  destruct b as [|o|]; try discriminate. intros Hp.
  apply bind_Some in Hp as (s & Hs & Hp).
  apply bind_Some in Hp as (m & Hm & Hp).
  simplify_eq. simpl.
  unfold Zod.default in Hm. destruct (field o "minAge") eqn:Hf;
    try (apply int_between_Some in Hm as [_ Hm]; done).
  simplify_eq. lia.
Qed.

(** **** jose's tests, said in words *)

Lemma num_gtb_false x n : num_gtb x n = false <-> at_most x n.
Proof.
  destruct x as [z|f ms|[|]]; simpl.
  - apply Z.ltb_ge.
  - apply Z.leb_gt.
  - done.
  - split; discriminate.
Qed.

Lemma num_gtb_true x n : num_gtb x n = true <-> ~ at_most x n.
Proof.
  rewrite <- num_gtb_false. by destruct (num_gtb x n).
Qed.

Lemma is_string_true v s : is_string v s = true <-> v = JStr s.
Proof.
  destruct v; simpl; try (split; discriminate).
  rewrite String.eqb_eq. split; [by intros ->|by intros [= ->]].
Qed.

Lemma audience_matches_true aud ref :
  audience_matches aud ref = true <-> names_audience aud ref.
Proof.
  unfold names_audience. destruct aud; simpl;
    try (split; [discriminate|intros [?|(? & ? & _)]; discriminate]).
  - rewrite String.eqb_eq. split.
    + intros ->. by left.
    + intros [[= ->]|(? & ? & _)]; [done|discriminate].
  - rewrite existsb_exists. split.
    + intros (v & Hin & Hv). apply is_string_true in Hv as ->.
      right. exists l. split; [done|]. by apply list_elem_of_In.
    + intros [?|(l' & [= <-] & Hin)]; [discriminate|].
      exists (JStr ref). split; [by apply list_elem_of_In|]. by apply is_string_true.
Qed.

Lemma field_present p k v : field p k = v -> v <> JUndefined -> p !! k = Some v.
Proof. unfold field. destruct (p !! k); simpl; intros <-; done. Qed.

Lemma issuer_ok_true p :
  issuer_ok p "proofage-rail" = true <-> field p "iss" = JStr "proofage-rail".
Proof.
  unfold issuer_ok, claim_present. simpl.
  rewrite andb_true_iff, bool_decide_eq_true, is_string_true. split.
  - by intros [_ ?].
  - intros Hi. split; [|done]. rewrite (field_present _ _ _ Hi); done.
Qed.

Lemma audience_ok_true p ref :
  audience_ok p ref = true <->
  is_Some (p !! "aud") /\ (ref <> "" -> names_audience (field p "aud") ref).
Proof.
  unfold audience_ok, claim_present.
  rewrite andb_true_iff, bool_decide_eq_true, orb_true_iff, String.eqb_eq,
    audience_matches_true.
  split; intros [Hp Ha]; (split; [done|]).
  - intros Hne. by destruct Ha.
  - destruct (decide (ref = "")); auto.
Qed.

Lemma iat_ok_true v : iat_ok v = true <-> v = JUndefined \/ exists x, v = JNum x.
Proof.
  destruct v; simpl; split; try discriminate; eauto;
    intros [?|[? ?]]; discriminate.
Qed.

Lemma nbf_ok_true v n :
  nbf_ok v n = true <-> v = JUndefined \/ exists x, v = JNum x /\ at_most x n.
Proof.
  destruct v as [| | |x| | |]; simpl;
    try (split; [discriminate|intros [?|(? & ? & _)]; discriminate]).
  - split; auto.
  - rewrite negb_true_iff, num_gtb_false. split.
    + intros Hx. right. eauto.
    + intros [?|(y & [= <-] & Hy)]; [discriminate|done].
Qed.

Lemma exp_ok_true v n :
  exp_ok v n = true <-> v = JUndefined \/ exists x, v = JNum x /\ ~ at_most x n.
Proof.
  destruct v as [| | |x| | |]; simpl;
    try (split; [discriminate|intros [?|(? & ? & _)]; discriminate]).
  - split; auto.
  - rewrite num_gtb_true. split.
    + intros Hx. right. eauto.
    + intros [?|(y & [= <-] & Hy)]; [discriminate|done].
Qed.

Lemma acceptable_token_checks key t ref n :
  acceptable_token key t ref n <->
  String.eqb (mac_key t) key
  && issuer_ok (claims t) "proofage-rail"
  && audience_ok (claims t) ref
  && iat_ok (field (claims t) "iat")
  && nbf_ok (field (claims t) "nbf") n
  && exp_ok (field (claims t) "exp") n = true.
Proof.
  unfold acceptable_token. cbv zeta.
  rewrite !andb_true_iff, String.eqb_eq, issuer_ok_true, audience_ok_true,
    iat_ok_true, nbf_ok_true, exp_ok_true.
  tauto.
Qed.

(** The first check lets through exactly the acceptable tokens. *)
Lemma jwtVerify_Some env a key ref p :
  jwtVerify env a key "proofage-rail" ref = Some p <->
  exists t, jwtParse a = Some t /\ p = claims t
    /\ acceptable_token key t ref (now env / 1000).
Proof.
  unfold jwtVerify.
  destruct (jwtParse a) as [t|]; [|split; [discriminate|by intros (? & ? & _)]].
  cbv zeta. pose proof (acceptable_token_checks key t ref (now env / 1000)) as Hacc.
  destruct (_ && _).
  - split.
    + intros [= <-]. exists t. split; [done|]. split; [done|]. by apply Hacc.
    + by intros (t' & [= <-] & -> & _).
  - split; [discriminate|]. intros (t' & [= <-] & _ & Hok). by apply Hacc in Hok.
Qed.


(** **** Dates *)

Lemma iso_of_seconds_None v :
  iso_of_seconds v = None <-> ~ writable_date v.
Proof.
  unfold iso_of_seconds, date_of_seconds, writable_date.
  destruct v as [| | |x| | |]; simpl;
    try (split; [discriminate|intros Hn; destruct Hn; intros ? ?; discriminate]).
  destruct (date_of_number x) eqn:Hd.
  - split; [discriminate|]. intros Hn. destruct Hn. intros y [= <-]. by rewrite Hd.
  - split; [|done]. intros _ Hw. by apply (Hw x).
Qed.


Lemma iso_of_whole_seconds s :
  in_date_range s -> iso_of_seconds (JNum (NumInt s)) = Some (Some (s * 1000)).
Proof.
  unfold in_date_range, iso_of_seconds, date_of_seconds, date_of_number, time_clip.
  intros Hr. assert ((Z.abs (s * 1000) <=? max_time) = true) as ->; [|done].
  apply Z.leb_le. lia.
Qed.

(** The handler once the caller is authenticated and the body parsed. *)
Lemma postVerifyAssertion_authenticated env req db merchant db1 parsed :
  authenticateMerchant env req db = Next merchant db1 ->
  verifyAssertionSchema (body req) = Some parsed ->
  serve cfg PostVerifyAssertion env req db =
    match checkAssertion cfg env merchant parsed with
    | inl r => (Replied r, db1)
    | inr (tokenJti, row, result) =>
        if fault env LedgerCreate then (Crashed, db1)
        else match assertionUses db1 !! tokenJti with
             | Some _ => (Replied replayed, db1)
             | None =>
                 (match result with
                  | Some v => Replied (ok (VerifiedBody v))
                  | None => Crashed
                  end,
                  with_assertionUses (<[tokenJti := row]>) db1)
             end
    end.
Proof.
  intros Hauth Hp. unfold serve, handler, postVerifyAssertion.
  rewrite (handle_bind_next _ _ _ _ _ Hauth), Hp.
  destruct (checkAssertion cfg env merchant parsed) as [r|[[j row] v]]; [done|].
  unfold assertionUse_create. unfold_m.
  destruct (fault env LedgerCreate); [done|].
  destruct (assertionUses db1 !! j); [done|]. by destruct v.
Qed.

(** What a token that passes every check before the ledger looks like,
    and what is then made of it. *)
Lemma checkAssertion_passes env merchant parsed j row res :
  checkAssertion cfg env merchant parsed = inr (j, row, res) ->
  exists t pp,
    jwtParse (VerifyBody.assertion parsed) = Some t
    /\ jwtVerify env (VerifyBody.assertion parsed) (jwtSigningKey cfg) "proofage-rail"
         (merchantExternalRef merchant) = Some (claims t)
    /\ assertionPayloadSchema (claims t) = Some pp
    /\ AssertionPayload.nonce pp = VerifyBody.expectedNonce parsed
    /\ field (claims t) "jti" = JStr j
    /\ (8 <= String.length j)%nat
    /\ (res = None <->
        ~ writable_date (field (claims t) "exp") \/ ~ writable_date (field (claims t) "iat"))
    /\ (forall v, res = Some v ->
          valid v = true
          /\ assertedAgeOver v = AssertionPayload.age_over pp
          /\ meetsMinAge v
             = (VerifyBody.requiredMinAge parsed <=? AssertionPayload.age_over pp)).
Proof.
  unfold checkAssertion.
  destruct (jwtVerify _ _ _ _ _) as [payload|] eqn:Hv; [|discriminate].
  destruct (proj1 (jwtVerify_Some _ _ _ _ _) Hv) as (t & Ht & -> & _).
  destruct (assertionPayloadSchema (claims t)) as [pp|] eqn:Hpp; [|discriminate].
  destruct (String.eqb (AssertionPayload.nonce pp) (VerifyBody.expectedNonce parsed)) eqn:Hn;
    simpl; [|discriminate].
  apply String.eqb_eq in Hn.
  destruct (match VerifyBody.expectedSubjectRef parsed with Some _ => _ | None => _ end);
    [discriminate|].
  destruct (field (claims t) "jti") as [| | | |tokenJti| |] eqn:Hj; try discriminate.
  destruct (min_len 8 tokenJti) eqn:Hlen; simpl; [|discriminate].
  intros Hr. injection Hr as <- <- <-. exists t, pp.
  apply Nat.leb_le in Hlen. split_and!; try done.
  - rewrite <- !iso_of_seconds_None.
    destruct (iso_of_seconds (field (claims t) "exp")); simpl.
    + destruct (iso_of_seconds (field (claims t) "iat")); simpl.
      * split; [discriminate|intros [?|?]; discriminate].
      * split; auto.
    + split; auto.
  - intros v Hres.
    destruct (iso_of_seconds (field (claims t) "exp")); simpl in Hres; [|discriminate].
    destruct (iso_of_seconds (field (claims t) "iat")); simpl in Hres; [|discriminate].
    by injection Hres as <-.
Qed.




(** The checks before the ledger only ever reply with an error. *)
Lemma checkAssertion_never_ok env merchant parsed v :
  checkAssertion cfg env merchant parsed <> inl (ok (VerifiedBody v)).
Proof.
  unfold checkAssertion. repeat case_match; discriminate.
Qed.

(** Every way a verify-assertion call can go. *)
Lemma postVerifyAssertion_inv env req db :
  (exists merchant db1 parsed,
     authenticateMerchant env req db = Next merchant db1
     /\ verifyAssertionSchema (body req) = Some parsed
     /\ assertionUses db1 = assertionUses db)
  \/ (serve cfg PostVerifyAssertion env req db).1 = Crashed
  \/ (exists code message details,
        (serve cfg PostVerifyAssertion env req db).1 =
          Replied {| statusCode := 401; sent := ErrorBody code message details |})
  \/ (serve cfg PostVerifyAssertion env req db).1 =
        Replied (error_with_details 400 "INVALID_REQUEST" "Request body is invalid").
Proof.
  pose proof (authenticateMerchant_inv env req db) as Hinv.
  destruct (authenticateMerchant env req db) as [merchant db1|r db1|db1] eqn:Hauth.
  - destruct (verifyAssertionSchema (body req)) as [parsed|] eqn:Hp.
    + left. exists merchant, db1, parsed.
      destruct (authenticateMerchant_proofs_same _ _ _ _ _ Hauth) as [_ Hl]. done.
    + right. right. right. unfold serve, handler, postVerifyAssertion.
      by rewrite (handle_bind_next _ _ _ _ _ Hauth), Hp.
  - right. right. left. unfold serve, handler, postVerifyAssertion.
    rewrite (handle_bind_reply _ _ _ _ _ Hauth).
    destruct Hinv as [_ [-> | ->]]; simpl; eauto.
  - right. left. unfold serve, handler, postVerifyAssertion.
    by rewrite (handle_bind_throw _ _ _ _ Hauth).
Qed.

Lemma postVerifyAssertion_accepted env req db v db2 :
  serve cfg PostVerifyAssertion env req db = (Replied (ok (VerifiedBody v)), db2) ->
  exists merchant db1 parsed j row,
    authenticateMerchant env req db = Next merchant db1
    /\ verifyAssertionSchema (body req) = Some parsed
    /\ checkAssertion cfg env merchant parsed = inr (j, row, Some v)
    /\ assertionUses db !! j = None
    /\ assertionUses db2 !! j = Some row.
Proof.
  intros Hs.
  destruct (postVerifyAssertion_inv env req db)
    as [(merchant & db1 & parsed & Hauth & Hp & Hl)|[Hc|[(c & m & d & Hc)|Hc]]];
    try (rewrite Hs in Hc; discriminate).
  rewrite (postVerifyAssertion_authenticated _ _ _ _ _ _ Hauth Hp) in Hs.
  destruct (checkAssertion cfg env merchant parsed) as [r|[[j row] res]] eqn:Hchk.
  { simplify_eq. by apply checkAssertion_never_ok in Hchk. }
  destruct (fault env LedgerCreate); [discriminate|].
  rewrite Hl in Hs.
  destruct (assertionUses db !! j) eqn:Hj; [discriminate|].
  destruct res as [v'|]; [|discriminate].
  simplify_eq. exists merchant, db1, parsed, j, row.
  repeat split; try done. db_simpl. by rewrite lookup_insert_eq.
Qed.



(** **** What an issued token holds *)

Lemma issued_claims ref id proof n j secs :
  let p := assertion_claims cfg ref id proof n j secs in
  p !! "iss" = Some (JStr "proofage-rail")
  /\ p !! "aud" = Some (JStr ref)
  /\ p !! "sub" = Some (JStr (ProofRequest.subjectRef proof))
  /\ p !! "jti" = Some (JStr j)
  /\ p !! "iat" = Some (JNum (NumInt secs))
  /\ p !! "nbf" = None
  /\ p !! "exp" = Some (JNum (NumInt (secs + assertionTtlSeconds cfg))).
Proof. unfold assertion_claims. by destruct (ProofRequest.verifierRef proof). Qed.

Lemma issued_age_over ref id proof n j secs :
  field (assertion_claims cfg ref id proof n j secs) "age_over"
  = JNum (NumInt (ProofRequest.minAge proof)).
Proof. unfold assertion_claims, field. by destruct (ProofRequest.verifierRef proof). Qed.

Lemma issued_payload_parses ref id proof n j secs :
  13 <= ProofRequest.minAge proof <= 25 ->
  isUuid id = true ->
  (8 <= String.length n <= 200)%nat ->
  assertionPayloadSchema (assertion_claims cfg ref id proof n j secs)
  = Some {| AssertionPayload.age_over := ProofRequest.minAge proof;
            AssertionPayload.nonce := n;
            AssertionPayload.proof_request_id := Some id;
            AssertionPayload.verifier_ref := ProofRequest.verifierRef proof |}.
Proof.
  intros Hband Hid [Hlo Hhi]. unfold assertionPayloadSchema.
  rewrite issued_age_over.
  assert (field (assertion_claims cfg ref id proof n j secs) "nonce" = JStr n) as ->.
  { unfold assertion_claims, field. by destruct (ProofRequest.verifierRef proof). }
  assert (field (assertion_claims cfg ref id proof n j secs) "proof_request_id" = JStr id) as ->.
  { unfold assertion_claims, field. by destruct (ProofRequest.verifierRef proof). }
  unfold Zod.int_between, Zod.string_between, min_len, max_len.
  assert ((13 <=? ProofRequest.minAge proof) && (ProofRequest.minAge proof <=? 25) = true) as ->.
  { apply andb_true_iff. split; apply Z.leb_le; lia. }
  apply Nat.leb_le in Hlo, Hhi. rewrite Hlo, Hhi. simpl. rewrite Hid. simpl.
  unfold assertion_claims, field.
  by destruct (ProofRequest.verifierRef proof).
Qed.

Lemma issued_verifies env0 j ref id proof n env a :
  jwtParse a = Some (mintAssertion cfg env0 j ref id proof n) ->
  jwtVerify env a (jwtSigningKey cfg) "proofage-rail" ref
  = if now env / 1000 <? now env0 / 1000 + assertionTtlSeconds cfg
    then Some (assertion_claims cfg ref id proof n j (now env0 / 1000))
    else None.
Proof.
  intros Hparse. unfold jwtVerify. rewrite Hparse. simpl. rewrite String.eqb_refl.
  destruct (issued_claims ref id proof n j (now env0 / 1000))
    as (Hiss & Haud & _ & _ & Hiat & Hnbf & Hexp).
  unfold issuer_ok, audience_ok, claim_present, field.
  rewrite Hiss, Haud, Hiat, Hnbf, Hexp. simpl.
  rewrite String.eqb_refl, orb_true_r. simpl. by destruct (_ <? _).
Qed.

(** What the issuing handler hands out: the token [buildAgeAssertion]
    builds for a passed proof request of the caller. *)
Lemma getAssertion_issues env req db ty a ttl n c db' :
  serve cfg GetAssertion env req db = (Replied (ok (AssertionBody ty a ttl n c)), db') ->
  exists merchant id proof j,
    authenticateMerchant env req db = Next merchant db'
    /\ proofRequestParamsSchema (params req) = Some id
    /\ proofRequests db !! id = Some proof
    /\ ProofRequest.merchantId proof = merchantId merchant
    /\ ProofRequest.status proof = "passed"
    /\ a = (buildAgeAssertion cfg env j (merchantExternalRef merchant) id proof n).1.1
    /\ c = age_claim (ProofRequest.minAge proof)
    /\ ttl = assertionTtlSeconds cfg.
Proof.
  unfold serve, handler, getAssertion.
  pose proof (authenticateMerchant_inv env req db) as Hinv.
  destruct (authenticateMerchant env req db) as [merchant db1|r db1|db1] eqn:Hauth.
  - rewrite (handle_bind_next _ _ _ _ _ Hauth).
    destruct (authenticateMerchant_proofs_same _ _ _ _ _ Hauth) as [Hsame _].
    destruct (proofRequestParamsSchema (params req)) as [id|]; [|done].
    unfold_m. destruct (fault env AssertionFindFirst); [done|].
    rewrite (own_proof_same _ _ db) by done. unfold own_proof.
    destruct (proofRequests db !! id) as [p|] eqn:Hp; simpl; [|done].
    destruct (String.eqb (ProofRequest.merchantId p) (merchantId merchant)) eqn:Hown; [|done].
    destruct (String.eqb (ProofRequest.status p) "passed") eqn:Hst; simpl; [|done].
    apply String.eqb_eq in Hst, Hown.
    destruct (proofAssertionQuerySchema (query req)) as [[q|]|]; simpl; [| |done].
    + intros Hs. simplify_eq. exists merchant, id, p, (randomUUID env 0%nat). done.
    + intros Hs. simplify_eq. exists merchant, id, p, (randomUUID env 1%nat). done.
  - rewrite (handle_bind_reply _ _ _ _ _ Hauth).
    destruct Hinv as [_ [-> | ->]]; done.
  - by rewrite (handle_bind_throw _ _ _ _ Hauth).
Qed.

(** What a successful createRequest leaves in the table. *)
Lemma postProofRequest_created env req db id mref st url db' rb :
  serve cfg PostProofRequest env req db
    = (Replied (created (ProofCreatedBody id mref st url)), db') ->
  requestSchema (body req) = Some rb ->
  exists proof, proofRequests db' !! id = Some proof
    /\ ProofRequest.minAge proof = RequestBody.minAge rb
    /\ ProofRequest.subjectRef proof = RequestBody.subjectRef rb
    /\ ProofRequest.status proof = "pending"
    /\ proofRequests db !! id = None.
Proof.
  unfold serve, handler, postProofRequest. intros Hs Hp.
  pose proof (authenticateMerchant_inv env req db) as Hinv.
  destruct (authenticateMerchant env req db) as [merchant db1|r db1|db1] eqn:Hauth.
  - rewrite (handle_bind_next _ _ _ _ _ Hauth), Hp in Hs.
    destruct (authenticateMerchant_proofs_same _ _ _ _ _ Hauth) as [Hsame _].
    unfold proofRequest_create in Hs. unfold_m.
    destruct (fault env ProofCreate); [done|].
    rewrite Hsame in Hs.
    destruct (proofRequests db !! newId env) eqn:Hfresh; [done|].
    simplify_eq. eexists. db_simpl. rewrite lookup_insert_eq. done.
  - rewrite (handle_bind_reply _ _ _ _ _ Hauth) in Hs.
    destruct Hinv as [_ [-> | ->]]; done.
  - by rewrite (handle_bind_throw _ _ _ _ Hauth) in Hs.
Qed.


(** C6 (as amended). An assertion issued with nonce N1, presented to the
    merchant it was issued for with an expectedNonce other than N1, yields
    NONCE_MISMATCH as long as it has not expired; once it has expired the
    same call yields INVALID_ASSERTION, the expiry being checked first. *)
Theorem wrong_nonce_on_issued_assertion
    env0 tokenJti ref id proof n1 env req db merchant db1 parsed :
  let a := (buildAgeAssertion cfg env0 tokenJti ref id proof n1).1.1 in
  13 <= ProofRequest.minAge proof <= 25 ->
  isUuid id = true ->
  (8 <= String.length n1 <= 200)%nat ->
  jwtParse a = Some (mintAssertion cfg env0 tokenJti ref id proof n1) ->
  authenticateMerchant env req db = Next merchant db1 ->
  merchantExternalRef merchant = ref ->
  verifyAssertionSchema (body req) = Some parsed ->
  VerifyBody.assertion parsed = a ->
  VerifyBody.expectedNonce parsed <> n1 ->
  (now env / 1000 < now env0 / 1000 + assertionTtlSeconds cfg ->
   serve cfg PostVerifyAssertion env req db = (Replied nonce_mismatch, db1))
  /\
  (now env0 / 1000 + assertionTtlSeconds cfg <= now env / 1000 ->
   serve cfg PostVerifyAssertion env req db = (Replied invalid_assertion, db1)).
Proof.
  intros a Hband Hid Hlen Hparse Hauth Href Hp Ha Hne.
  rewrite (postVerifyAssertion_authenticated _ _ _ _ _ _ Hauth Hp).
  unfold checkAssertion. rewrite Ha, Href.
  rewrite (issued_verifies _ _ _ _ _ _ _ _ Hparse).
  split; intros Htime.
  - apply Z.ltb_lt in Htime. rewrite Htime.
    rewrite issued_payload_parses by done. simpl.
    assert (String.eqb n1 (VerifyBody.expectedNonce parsed) = false) as ->; [|done].
    apply String.eqb_neq. congruence.
  - apply Z.ltb_ge in Htime. by rewrite Htime.
Qed.


(** C7. A proof request created with threshold T keeps it: whatever happens
    afterwards, every assertion issued for it carries age_over = T (and is
    announced as age_over_T), every successful verification of that
    assertion reports assertedAgeOver = T, and such a verification there
    is: presented before its expiry with the nonce it was issued with, by
    a merchant whose external reference is its audience, the ledger not
    holding its jti, the assertion is accepted with the 200 result,
    assertedAgeOver = T and meetsMinAge telling whether the required age
    is at most T. *)
Theorem assertion_carries_the_requested_threshold
    env_c req_c db_c id mref st url db0 rb es env_i req_i ty a ttl n c db_i :
  serve cfg PostProofRequest env_c req_c db_c
    = (Replied (created (ProofCreatedBody id mref st url)), db0) ->
  requestSchema (body req_c) = Some rb ->
  proofRequestParamsSchema (params req_i) = Some id ->
  serve cfg GetAssertion env_i req_i (run cfg es db0)
    = (Replied (ok (AssertionBody ty a ttl n c)), db_i) ->
  let T := RequestBody.minAge rb in
  exists t j,
    a = jwtSerialize t
    /\ mac_key t = jwtSigningKey cfg
    /\ field (claims t) "age_over" = JNum (NumInt T)
    /\ c = age_claim T
    /\ field (claims t) "jti" = JStr j
    /\ (jwtParse a = Some t ->
         (forall env_v req_v db_v v db_v',
            token_of req_v = Some a ->
            serve cfg PostVerifyAssertion env_v req_v db_v
              = (Replied (ok (VerifiedBody v)), db_v') ->
            assertedAgeOver v = T)
         /\
         (forall env_v req_v db_v merchant db_v1 parsed,
            authenticateMerchant env_v req_v db_v = Next merchant db_v1 ->
            verifyAssertionSchema (body req_v) = Some parsed ->
            token_of req_v = Some a ->
            VerifyBody.expectedNonce parsed = n ->
            (forall e, VerifyBody.expectedSubjectRef parsed = Some e ->
               field (claims t) "sub" = JStr e) ->
            field (claims t) "aud" = JStr (merchantExternalRef merchant) ->
            now env_v / 1000 < now env_i / 1000 + assertionTtlSeconds cfg ->
            in_date_range (now env_i / 1000) ->
            in_date_range (now env_i / 1000 + assertionTtlSeconds cfg) ->
            (8 <= String.length j)%nat ->
            assertionUses db_v !! j = None ->
            fault env_v LedgerCreate = false ->
            exists v db_v',
              serve cfg PostVerifyAssertion env_v req_v db_v
                = (Replied (ok (VerifiedBody v)), db_v')
              /\ valid v = true
              /\ assertedAgeOver v = T
              /\ meetsMinAge v = (VerifyBody.requiredMinAge parsed <=? T)
              /\ is_Some (assertionUses db_v' !! j))).
Proof.
  intros Hcreate Hrb Hid Hissue T.
  destruct (postProofRequest_created _ _ _ _ _ _ _ _ _ Hcreate Hrb)
    as (p0 & Hp0 & Hage0 & _).
  destruct (run_proofs cfg es db0 _ _ Hp0) as (p1 & Hp1 & _ & _ & Hage1).
  destruct (getAssertion_issues _ _ _ _ _ _ _ _ _ Hissue)
    as (issuer & id' & proof & j & _ & Hid' & Hproof & _ & _ & -> & -> & _).
  assert (id' = id) as -> by congruence.
  assert (proof = p1) as -> by congruence.
  assert (ProofRequest.minAge p1 = T) as HT by (unfold T; congruence).
  pose proof (requestSchema_minAge _ _ Hrb) as Hband. fold T in Hband.
  apply string_format_Some in Hid as [_ Huuid].
  set (ref := merchantExternalRef issuer) in *.
  destruct (issued_claims ref id p1 n j (now env_i / 1000))
    as (_ & Haud & Hsub & Hjti & Hiat & _ & Hexp).
  exists (mintAssertion cfg env_i j ref id p1 n), j.
  split; [reflexivity|]. split; [reflexivity|].
  split; [simpl; by rewrite issued_age_over, HT|].
  split; [by rewrite HT|].
  split; [simpl; unfold field; by rewrite Hjti|].
  intros Hparse. simpl in Hparse. split.
  - intros env_v req_v db_v v db_v' Htok Hs.
    destruct (postVerifyAssertion_accepted _ _ _ _ _ Hs)
      as (m & d & parsed & j' & row & _ & Hp & Hchk & _).
    destruct (checkAssertion_passes _ _ _ _ _ _ Hchk)
      as (t & pp & Hparse' & _ & Hpp & _ & _ & _ & _ & Hv).
    destruct (Hv v eq_refl) as (_ & -> & _).
    pose proof (verifyAssertionSchema_token _ _ Hp) as Htok'.
    assert (VerifyBody.assertion parsed = (buildAgeAssertion cfg env_i j ref id p1 n).1.1)
      as Ha by congruence.
    rewrite Ha in Hparse'. simpl in Hparse'. rewrite Hparse in Hparse'.
    simplify_eq. simpl in Hpp.
    unfold assertionPayloadSchema in Hpp. rewrite issued_age_over in Hpp.
    apply bind_Some in Hpp as (z & Hz & Hpp).
    apply bind_Some in Hpp as (x1 & _ & Hpp).
    apply bind_Some in Hpp as (x2 & _ & Hpp).
    apply bind_Some in Hpp as (x3 & _ & Hpp).
    simplify_eq. simpl.
    unfold Zod.int_between in Hz. destruct (_ && _); by simplify_eq.
  - intros env_v req_v db_v merchant db_v1 parsed Hauth Hp Htok Hn Hsubject Href
      Htime Hi He Hlen Hfresh Hf.
    pose proof (verifyAssertionSchema_token _ _ Hp) as Htok'.
    assert (VerifyBody.assertion parsed = (buildAgeAssertion cfg env_i j ref id p1 n).1.1)
      as Ha by congruence.
    destruct (verifyAssertionSchema_fields _ _ Hp) as (o & _ & _ & _ & _ & Hnlen & _).
    rewrite Hn in Hnlen.
    simpl in Href. unfold field in Href. rewrite Haud in Href. simpl in Href.
    injection Href as Href.
    rewrite (postVerifyAssertion_authenticated _ _ _ _ _ _ Hauth Hp).
    unfold checkAssertion. rewrite Ha, <- Href. simpl.
    rewrite (issued_verifies _ _ _ _ _ _ _ _ Hparse).
    apply Z.ltb_lt in Htime. rewrite Htime.
    rewrite issued_payload_parses by (rewrite ?HT; done). simpl.
    rewrite Hn, String.eqb_refl. simpl.
    assert (match VerifyBody.expectedSubjectRef parsed with
            | Some expected =>
                negb (String.eqb expected "")
                && negb (is_string
                           (field (assertion_claims cfg ref id p1 n j (now env_i / 1000)) "sub")
                           expected)
            | None => false
            end = false) as ->.
    { destruct (VerifyBody.expectedSubjectRef parsed) as [e|] eqn:Hexpected; [|done].
      simpl in Hsubject. rewrite (Hsubject e eq_refl). simpl.
      by rewrite String.eqb_refl, andb_false_r. }
    unfold field at 1. rewrite Hjti. simpl. unfold min_len.
    apply Nat.leb_le in Hlen. rewrite Hlen, Hf. simpl.
    destruct (authenticateMerchant_proofs_same _ _ _ _ _ Hauth) as [_ ->].
    rewrite Hfresh.
    unfold field. rewrite Hexp, Hiat. simpl.
    rewrite (iso_of_whole_seconds _ He), (iso_of_whole_seconds _ Hi). simpl.
    eexists _, _. split; [reflexivity|]. simpl. rewrite HT.
    split_and!; try done. db_simpl. rewrite lookup_insert_eq. eauto.
Qed.

End Assertions.

(* ===================================================================== *)
(** ** What each route leaves alone *)
(* ===================================================================== *)

#[export] Instance same_merchants_preorder : PreOrder same_merchants.
Proof. split; [by intros db | intros a b c Hab Hbc; unfold same_merchants in *; congruence]. Qed.

#[export] Instance same_proofs_preorder : PreOrder same_proofs.
Proof. split; [by intros db | intros a b c Hab Hbc; unfold same_proofs in *; congruence]. Qed.

#[export] Instance same_ledger_preorder : PreOrder same_ledger.
Proof. split; [by intros db | intros a b c Hab Hbc; unfold same_ledger in *; congruence]. Qed.

(** A storage call that does not write a table leaves it as it was. *)
Ltac alone op :=
  let db := fresh "db" in
  intros db; unfold op, same_merchants, same_proofs, same_ledger;
  repeat case_match; db_simpl; reflexivity.

Section Alone.

Context `{Platform}.
Variable cfg : Config.

Lemma apiKey_update_merchants id f : keeps same_merchants (apiKey_update id f).
Proof. alone @apiKey_update. Qed.
Lemma apiKey_update_same_proofs id f : keeps same_proofs (apiKey_update id f).
Proof. alone @apiKey_update. Qed.
Lemma apiKey_update_same_ledger id f : keeps same_ledger (apiKey_update id f).
Proof. alone @apiKey_update. Qed.

Lemma apiKey_create_merchants id k : keeps same_merchants (apiKey_create id k).
Proof. alone @apiKey_create. Qed.
Lemma apiKey_create_same_proofs id k : keeps same_proofs (apiKey_create id k).
Proof. alone @apiKey_create. Qed.
Lemma apiKey_create_same_ledger id k : keeps same_ledger (apiKey_create id k).
Proof. alone @apiKey_create. Qed.

Lemma proofRequest_update_merchants id f : keeps same_merchants (proofRequest_update id f).
Proof. alone @proofRequest_update. Qed.
Lemma proofRequest_update_same_ledger id f : keeps same_ledger (proofRequest_update id f).
Proof. alone @proofRequest_update. Qed.

Lemma proofRequest_create_merchants id p : keeps same_merchants (proofRequest_create id p).
Proof. alone @proofRequest_create. Qed.
Lemma proofRequest_create_same_ledger id p : keeps same_ledger (proofRequest_create id p).
Proof. alone @proofRequest_create. Qed.

Lemma assertionUse_create_merchants j u : keeps same_merchants (assertionUse_create j u).
Proof. alone @assertionUse_create. Qed.
Lemma assertionUse_create_same_proofs j u : keeps same_proofs (assertionUse_create j u).
Proof. alone @assertionUse_create. Qed.

Lemma merchant_upsert_same_proofs s : keeps same_proofs (merchant_upsert s).
Proof. alone @merchant_upsert. Qed.
Lemma merchant_upsert_same_ledger s : keeps same_ledger (merchant_upsert s).
Proof. alone @merchant_upsert. Qed.
Lemma apiKey_upsert_same_proofs s m : keeps same_proofs (apiKey_upsert s m).
Proof. alone @apiKey_upsert. Qed.
Lemma apiKey_upsert_same_ledger s m : keeps same_ledger (apiKey_upsert s m).
Proof. alone @apiKey_upsert. Qed.

End Alone.

#[export] Hint Resolve
  apiKey_update_merchants apiKey_update_same_proofs apiKey_update_same_ledger
  apiKey_create_merchants apiKey_create_same_proofs apiKey_create_same_ledger
  proofRequest_update_merchants proofRequest_update_same_ledger
  proofRequest_create_merchants proofRequest_create_same_ledger
  assertionUse_create_merchants assertionUse_create_same_proofs
  merchant_upsert_same_proofs merchant_upsert_same_ledger
  apiKey_upsert_same_proofs apiKey_upsert_same_ledger
  : keeps.

Ltac routes_keep :=
  unfold handler, health, postApiKeys, getApiKeys, postRevoke, postProofRequest,
    postCallback, getStatus, getAssertion, postVerifyAssertion, verifyCallbackSecret, seed,
    authenticateMerchant;
  keeps_go.

Section Routes.

Context `{Platform}.
Variable cfg : Config.

Lemma handler_merchants r env req : keeps same_merchants (handler cfg r env req).
Proof. destruct r; routes_keep. Qed.

Lemma handler_same_proofs r env req :
  r <> PostProofRequest -> r <> PostCallback -> keeps same_proofs (handler cfg r env req).
Proof. intros H1 H2. destruct r; try done; routes_keep. Qed.

Lemma handler_same_ledger r env req :
  r <> PostVerifyAssertion -> keeps same_ledger (handler cfg r env req).
Proof. intros H1. destruct r; try done; routes_keep. Qed.

Lemma seed_same_proofs s : keeps same_proofs (seed s).
Proof. routes_keep. Qed.

Lemma seed_same_ledger s : keeps same_ledger (seed s).
Proof. routes_keep. Qed.


(** Where authentication leaves the database, however it ends: as it was,
    or with the last-used time of one key written. *)
Lemma authenticateMerchant_after env req db :
  db_after (authenticateMerchant env req db) = db
  \/ exists id k, apiKeys db !! id = Some k
       /\ db_after (authenticateMerchant env req db) = touched env id k db.
Proof.
  unfold authenticateMerchant.
  destruct (readHeader req "x-api-key") as [apiKey|]; [|by left].
  destruct (String.eqb apiKey ""); [by left|].
  unfold_m.
  destruct (fault env AuthFindFirst); [by left|].
  destruct (findFirst _ (apiKeys db)) as [[id k]|] eqn:Hff; [|by left].
  destruct (fault env AuthTouch); [by left|].
  apply findFirst_Some in Hff as [Hk _].
  unfold apiKey_update. rewrite Hk.
  right. exists id, k. split; [done|].
  by destruct (merchants db !! ApiKey.merchantId k).
Qed.

(** X1. No request to the server changes the merchants table: a merchant's
    external reference and name are out of reach of every route, whatever
    the request and whatever storage calls fail. *)
Theorem server_never_writes_merchants (calls : list (route * Env * request)) db :
  merchants (run cfg (map (fun c => Call c.1.1 c.1.2 c.2) calls) db) = merchants db.
Proof.
  revert db. induction calls as [|[[r env] req] calls IH]; intros db; [done|].
  simpl map. rewrite run_cons, IH. simpl.
  unfold serve. rewrite handle_db. apply handler_merchants.
Qed.

(** X2. The routes that only read (health, key list, status, assertion
    issuance) write nothing but the last-used time of the key that
    authenticated the call; in particular issuing an assertion records
    nothing about it. *)
Theorem reading_routes_only_touch_the_key r env req db :
  reads_only r = true ->
  (serve cfg r env req db).2 = db
  \/ exists id k, apiKeys db !! id = Some k
       /\ (serve cfg r env req db).2 = touched env id k db.
Proof.
  intros Hr. unfold serve. rewrite handle_db.
  assert (forall (k : MerchantContext -> M Empty_set),
            (forall m, keeps eq (k m)) ->
            db_after ((authenticateMerchant env req ≫= k) db)
            = db_after (authenticateMerchant env req db)) as Hbody.
  { intros k Hk. unfold mbind, M_bind, bind.
    destruct (authenticateMerchant env req db) as [m d|r0 d|d]; simpl; try done.
    symmetry. apply (Hk m d). }
  destruct r; try discriminate; simpl.
  - by left.
  - unfold getApiKeys. rewrite Hbody; [apply authenticateMerchant_after|].
    intros m. keeps_go.
  - unfold getStatus. rewrite Hbody; [apply authenticateMerchant_after|].
    intros m. keeps_go.
  - unfold getAssertion. rewrite Hbody; [apply authenticateMerchant_after|].
    intros m. keeps_go.
Qed.

(** X3. Behind the API key nothing happens before authentication: on every
    route but health and the callback, a call whose authentication is
    refused gets that 401 reply and leaves the database exactly as it
    was. *)
Theorem refused_call_changes_nothing r env req db resp db' :
  behind_api_key r = true ->
  authenticateMerchant env req db = Reply resp db' ->
  serve cfg r env req db = (Replied resp, db)
  /\ statusCode resp = 401
  /\ (resp = unauthorized "MISSING_API_KEY" "x-api-key header is required"
      \/ resp = unauthorized "INVALID_API_KEY" "API key is invalid or revoked").
Proof.
  intros Hr Hauth.
  pose proof (authenticateMerchant_inv env req db) as Hinv. rewrite Hauth in Hinv.
  destruct Hinv as [-> Hresp].
  split; [|split; [by destruct Hresp as [-> | ->]|done]].
  unfold serve.
  destruct r; try discriminate; simpl;
    unfold postApiKeys, getApiKeys, postRevoke, postProofRequest, getStatus,
      getAssertion, postVerifyAssertion;
    by rewrite (handle_bind_reply _ _ _ _ _ Hauth).
Qed.

End Routes.

(* ===================================================================== *)
(** ** More of the verifier's callback *)
(* ===================================================================== *)

Section Callback.

Context `{Platform}.
Variable cfg : Config.

(** X4. The callback channel opens to the configured secret and to nothing
    else: a callback is answered 401 exactly when its x-verifier-secret
    header is missing, empty or different from the secret, and then
    nothing is written, whatever the body or the API key sent along. With
    an empty configured secret the channel is closed to everyone. *)
Theorem callback_refused_without_the_secret env req db :
  let presented_secret :=
    readHeader req "x-verifier-secret" = Some (verifierCallbackSecret cfg)
    /\ verifierCallbackSecret cfg <> "" in
  ((exists resp, (serve cfg PostCallback env req db).1 = Replied resp
                 /\ statusCode resp = 401) <-> ~ presented_secret)
  /\ (~ presented_secret -> (serve cfg PostCallback env req db).2 = db).
Proof.
  intros presented_secret. unfold presented_secret.
  unfold serve, handler, postCallback, verifyCallbackSecret, safeEqual, proofRequest_update.
  unfold_m.
  destruct (readHeader req "x-verifier-secret") as [provided|]; simpl.
  2: { split; [split; [intros _ [? _]; done|eauto]|done]. }
  destruct (String.eqb provided "") eqn:He; simpl.
  { apply String.eqb_eq in He as ->.
    split; [split; [intros _ [? ?]; congruence|eauto]|done]. }
  destruct (String.eqb provided (verifierCallbackSecret cfg)) eqn:Hs; simpl.
  2: { apply String.eqb_neq in Hs.
       split; [split; [intros _ [? ?]; congruence|eauto]|done]. }
  apply String.eqb_eq in Hs as <-. apply String.eqb_neq in He.
  split; [|intros Hno; exfalso; by apply Hno].
  split; [|intros Hno; exfalso; by apply Hno].
  intros (resp & Hr & Hst) _. revert Hr.
  destruct (callbackSchema (body req)) as [parsed|]; simpl;
    [|intros Hr; by simplify_eq].
  destruct (fault env CallbackFindUnique); simpl; [done|].
  destruct (proofRequests db !! CallbackBody.proofRequestId parsed) as [p|] eqn:Hp;
    simpl; [|intros Hr; by simplify_eq].
  destruct (fault env CallbackUpdate); simpl; [done|].
  rewrite Hp. simpl. intros Hr. by simplify_eq.
Qed.

(** X5. A callback writes at most one thing: the status, verifier
    reference and update time of the proof request it names. It creates no
    row, leaves every other proof request and every other table as they
    were, and when it is not accepted it writes nothing at all. *)
Theorem callback_writes_one_row env req db :
  let after := (serve cfg PostCallback env req db).2 in
  merchants after = merchants db
  /\ apiKeys after = apiKeys db
  /\ assertionUses after = assertionUses db
  /\ dom (proofRequests after) = dom (proofRequests db)
  /\ (forall id,
        (forall parsed, callbackSchema (body req) = Some parsed ->
                        CallbackBody.proofRequestId parsed <> id) ->
        proofRequests after !! id = proofRequests db !! id)
  /\ ((serve cfg PostCallback env req db).1 <> Replied (ok CallbackOkBody) -> after = db).
Proof.
  intros after. unfold after.
  destruct (postCallback_effect cfg env req db) as [Hsame|(parsed & p & Hparsed & Hp & Heq)].
  - rewrite Hsame. repeat split; done.
  - rewrite Heq. simpl. repeat split; try done.
    + apply set_eq. intros i. rewrite !elem_of_dom.
      destruct (decide (CallbackBody.proofRequestId parsed = i)) as [<-|Hne].
      * rewrite lookup_insert_eq, Hp. split; eauto.
      * by rewrite lookup_insert_ne.
    + intros id Hid. rewrite lookup_insert_ne; [done|]. by apply Hid.
Qed.

(** X6. Applying a callback is idempotent up to the update time: once a
    callback has been accepted, the same callback sent again (storage
    working) is accepted again and leaves every proof request with the
    same owner, subject, threshold, status, verifier reference and
    creation time. *)
Theorem callback_twice_is_callback_once env req db db1 env2 :
  serve cfg PostCallback env req db = (Replied (ok CallbackOkBody), db1) ->
  fault env2 CallbackFindUnique = false ->
  fault env2 CallbackUpdate = false ->
  exists db2,
    serve cfg PostCallback env2 req db1 = (Replied (ok CallbackOkBody), db2)
    /\ merchants db2 = merchants db1
    /\ apiKeys db2 = apiKeys db1
    /\ assertionUses db2 = assertionUses db1
    /\ forall id p1, proofRequests db1 !! id = Some p1 ->
         exists p2, proofRequests db2 !! id = Some p2
           /\ ProofRequest.merchantId p2 = ProofRequest.merchantId p1
           /\ ProofRequest.subjectRef p2 = ProofRequest.subjectRef p1
           /\ ProofRequest.minAge p2 = ProofRequest.minAge p1
           /\ ProofRequest.status p2 = ProofRequest.status p1
           /\ ProofRequest.verifierRef p2 = ProofRequest.verifierRef p1
           /\ ProofRequest.createdAt p2 = ProofRequest.createdAt p1.
Proof.
  intros Hfirst Hf1 Hf2. revert Hfirst.
  unfold serve, handler, postCallback, verifyCallbackSecret, proofRequest_update. unfold_m.
  destruct (readHeader req "x-verifier-secret") as [provided|]; simpl; [|done].
  destruct (String.eqb provided ""); simpl; [done|].
  destruct (negb (safeEqual provided (verifierCallbackSecret cfg))); simpl; [done|].
  destruct (callbackSchema (body req)) as [parsed|]; simpl; [|done].
  destruct (fault env CallbackFindUnique); simpl; [done|].
  destruct (proofRequests db !! CallbackBody.proofRequestId parsed) as [p|] eqn:Hp;
    simpl; [|done].
  destruct (fault env CallbackUpdate); simpl; [done|].
  rewrite Hp. simpl. intros Hs. injection Hs as <-.
  rewrite Hf1. db_simpl. rewrite lookup_insert_eq. simpl. rewrite Hf2.
  rewrite lookup_insert_eq. simpl.
  eexists. split; [reflexivity|]. simpl. repeat split; try done.
  intros id p1. rewrite insert_insert_eq.
  destruct (decide (CallbackBody.proofRequestId parsed = id)) as [<-|Hne].
  - rewrite !lookup_insert_eq. intros Hp1. simplify_eq. eexists. split; [done|]. done.
  - rewrite !lookup_insert_ne by done. eauto 10.
Qed.

End Callback.

(* ===================================================================== *)
(** ** More of the credential store *)
(* ===================================================================== *)

Section Keys.

Context `{Platform}.
Variable cfg : Config.

Lemma findFirst_none {A} (P : A -> bool) (tbl : gmap string A) :
  (forall k a, tbl !! k = Some a -> P a = false) -> findFirst P tbl = None.
Proof.
  intros Hall. destruct (findFirst P tbl) as [[k a]|] eqn:Hf; [|done].
  apply findFirst_Some in Hf as [Hk HP]. rewrite (Hall _ _ Hk) in HP. discriminate.
Qed.

(** X7. A revoked key and a key that never existed are refused alike:
    where key hashes are unique, authentication with a revoked key gives
    the same result (the INVALID_API_KEY reply, nothing written) as it
    gives on the database with that key row removed. *)
Theorem revoked_key_refused_like_unknown_key env req db apiKey id k :
  unique_hashes db ->
  apiKeys db !! id = Some k ->
  ApiKey.revokedAt k <> None ->
  readHeader req "x-api-key" = Some apiKey -> apiKey <> "" ->
  sha256 apiKey = ApiKey.keyHash k ->
  let gone := with_apiKeys (delete id) db in
  authenticateMerchant env req db
    = (if fault env AuthFindFirst then Throw db else Reply invalid_api_key db)
  /\ authenticateMerchant env req gone
     = (if fault env AuthFindFirst then Throw gone else Reply invalid_api_key gone).
Proof.
  intros Hu Hk Hrev Hh Hne Hhash gone.
  assert (findFirst (active_with_hash (sha256 apiKey)) (apiKeys db) = None) as Hnone.
  { apply findFirst_none. intros i a Hi.
    destruct (active_with_hash (sha256 apiKey) a) eqn:Hact; [|done].
    apply active_with_hash_true in Hact as [Hah Har].
    assert (i = id) as -> by (apply (Hu _ _ _ _ Hi Hk); congruence).
    congruence. }
  assert (findFirst (active_with_hash (sha256 apiKey)) (apiKeys gone) = None) as Hnone'.
  { apply findFirst_none. intros i a Hi. unfold gone in Hi. db_simpl.
    apply lookup_delete_Some in Hi as [_ Hi].
    by apply (findFirst_None _ _ _ _ Hnone Hi). }
  apply String.eqb_neq in Hne.
  unfold authenticateMerchant. rewrite Hh, Hne. unfold_m.
  rewrite Hnone, Hnone'. by destruct (fault env AuthFindFirst).
Qed.

(** The revoke handler once the caller is authenticated. *)
Lemma postRevoke_authenticated env req db ctx db1 :
  authenticateMerchant env req db = Next ctx db1 ->
  serve cfg PostRevoke env req db =
    match merchantApiKeyParamsSchema (params req) with
    | None => (Replied (error 400 "INVALID_PARAMS" "apiKeyId is invalid"), db1)
    | Some apiKeyId =>
        if fault env RevokeFindFirst then (Crashed, db1)
        else
          match apiKeys db1 !! apiKeyId with
          | None => (Replied (error 404 "NOT_FOUND" "apiKeyId not found"), db1)
          | Some target =>
              if negb (String.eqb (ApiKey.merchantId target) (merchantId ctx)) then
                (Replied (error 404 "NOT_FOUND" "apiKeyId not found"), db1)
              else if match readHeader req "x-api-key" with
                      | Some currentApiKey =>
                          negb (String.eqb currentApiKey "")
                          && String.eqb (sha256 currentApiKey) (ApiKey.keyHash target)
                      | None => false
                      end then
                (Replied (error 409 "CANNOT_REVOKE_CURRENT_KEY"
                            "Use another active key to revoke this key"), db1)
              else
                match ApiKey.revokedAt target with
                | Some _ => (Replied (ok AlreadyRevokedBody), db1)
                | None =>
                    if fault env RevokeUpdate then (Crashed, db1)
                    else (Replied (ok (RevokedBody apiKeyId (Some (now env)))),
                          with_apiKeys
                            (<[apiKeyId := ApiKey.set_revokedAt (Some (now env)) target]>) db1)
                end
          end
    end.
Proof.
  intros Hauth. unfold serve, handler, postRevoke.
  rewrite (handle_bind_next _ _ _ _ _ Hauth).
  destruct (merchantApiKeyParamsSchema (params req)) as [apiKeyId|]; [|done].
  unfold apiKey_update. unfold_m.
  destruct (fault env RevokeFindFirst); [done|].
  destruct (apiKeys db1 !! apiKeyId) as [target|] eqn:Ht; simpl; [|done].
  destruct (String.eqb (ApiKey.merchantId target) (merchantId ctx)); simpl; [|done].
  destruct (match readHeader req "x-api-key" with Some _ => _ | None => _ end); [done|].
  destruct (ApiKey.revokedAt target); [done|].
  destruct (fault env RevokeUpdate); [done|].
  by rewrite Ht.
Qed.

(** X8. Nobody locks themselves out through the revoke route: whatever an
    authenticated revoke request asks for, the key that authenticated it
    is still there and still active afterwards. *)
Theorem revoke_spares_the_presented_key env req db ctx db1 apiKey :
  authenticateMerchant env req db = Next ctx db1 ->
  readHeader req "x-api-key" = Some apiKey ->
  exists id k,
    apiKeys (serve cfg PostRevoke env req db).2 !! id = Some k
    /\ ApiKey.keyHash k = sha256 apiKey
    /\ ApiKey.revokedAt k = None.
Proof.
  intros Hauth Hh.
  pose proof (authenticateMerchant_inv env req db) as Hinv. rewrite Hauth in Hinv.
  destruct Hinv as (apiKey' & id0 & k0 & m & Hh' & Hne & Hff & _ & _ & _ & _ & ->).
  assert (apiKey' = apiKey) as -> by congruence.
  apply findFirst_Some in Hff as [Hk0 Hact]. apply active_with_hash_true in Hact as [Hh0 Hr0].
  assert (apiKeys (touched env id0 k0 db) !! id0
          = Some (ApiKey.set_lastUsedAt (Some (now env)) k0)) as Hrow.
  { unfold touched. db_simpl. by rewrite lookup_insert_eq. }
  exists id0, (ApiKey.set_lastUsedAt (Some (now env)) k0).
  split; [|done].
  rewrite (postRevoke_authenticated _ _ _ _ _ Hauth).
  destruct (merchantApiKeyParamsSchema (params req)) as [apiKeyId|]; [|done].
  destruct (fault env RevokeFindFirst); [done|].
  destruct (apiKeys (touched env id0 k0 db) !! apiKeyId) as [target|] eqn:Ht; [|done].
  destruct (negb (String.eqb (ApiKey.merchantId target) _)); [done|].
  rewrite Hh. apply String.eqb_neq in Hne. rewrite Hne. simpl.
  destruct (String.eqb (sha256 apiKey) (ApiKey.keyHash target)) eqn:Hsame; [done|].
  destruct (ApiKey.revokedAt target); [done|].
  destruct (fault env RevokeUpdate); [done|].
  simpl. db_simpl.
  destruct (decide (apiKeyId = id0)) as [->|Hother].
  - rewrite Hrow in Ht. simplify_eq. simpl in Hsame.
    rewrite Hh0, String.eqb_refl in Hsame. discriminate.
  - rewrite lookup_insert_ne by done. exact Hrow.
Qed.

(** X9. Keys are revoked only by their owner: a revoke request naming a
    key of another merchant gets the very reply a request naming no key
    at all gets (404 NOT_FOUND, "apiKeyId not found"), and revokes
    nothing. *)
Theorem revoke_of_foreign_key_not_found env req db ctx db1 apiKeyId :
  authenticateMerchant env req db = Next ctx db1 ->
  merchantApiKeyParamsSchema (params req) = Some apiKeyId ->
  fault env RevokeFindFirst = false ->
  apiKeys db !! apiKeyId = None
  \/ (exists target, apiKeys db !! apiKeyId = Some target
         /\ ApiKey.merchantId target <> merchantId ctx) ->
  serve cfg PostRevoke env req db
    = (Replied (error 404 "NOT_FOUND" "apiKeyId not found"), db1)
  /\ forall id k, apiKeys db !! id = Some k ->
       exists k', apiKeys db1 !! id = Some k'
         /\ ApiKey.revokedAt k' = ApiKey.revokedAt k.
Proof.
  intros Hauth Hid Hf Hcase.
  pose proof (authenticateMerchant_inv env req db) as Hinv. rewrite Hauth in Hinv.
  destruct Hinv as (apiKey & id0 & k0 & m & Hh & Hne & Hff & Hm & Hf1 & Hf2 & Hctx & Hdb1).
  apply findFirst_Some in Hff as [Hk0 Hact].
  split.
  - rewrite (postRevoke_authenticated _ _ _ _ _ Hauth), Hid, Hf.
    destruct Hcase as [Hnone|(target & Ht & Hforeign)].
    + assert (apiKeys db1 !! apiKeyId = None) as ->; [|done].
      subst db1. unfold touched. db_simpl.
      rewrite lookup_insert_ne; [done|]. intros ->. congruence.
    + assert (id0 <> apiKeyId) as Hdiff.
      { intros ->. rewrite Hk0 in Ht. by simplify_eq. }
      assert (apiKeys db1 !! apiKeyId = Some target) as ->.
      { subst db1. unfold touched. db_simpl. by rewrite lookup_insert_ne. }
      apply String.eqb_neq in Hforeign. by rewrite Hforeign.
  - intros id k Hk. subst db1. unfold touched. db_simpl.
    destruct (decide (id0 = id)) as [->|Hn].
    + rewrite lookup_insert_eq. eexists. split; [done|]. by simplify_eq.
    + rewrite lookup_insert_ne by done. eauto.
Qed.

(** X10. Revoking is idempotent and keeps the first revocation time: once
    a revoke request has succeeded, the same request sent again (by the
    same key, storage working) is answered ok with alreadyRevoked, and the
    key's revocation time is still the time of the first call. *)
Theorem revoke_twice_keeps_first_time env req db id d db1 env2 ctx2 db2 :
  unique_hashes db ->
  serve cfg PostRevoke env req db = (Replied (ok (RevokedBody id d)), db1) ->
  authenticateMerchant env2 req db1 = Next ctx2 db2 ->
  fault env2 RevokeFindFirst = false ->
  serve cfg PostRevoke env2 req db1 = (Replied (ok AlreadyRevokedBody), db2)
  /\ d = Some (now env)
  /\ exists k2, apiKeys db2 !! id = Some k2 /\ ApiKey.revokedAt k2 = d.
Proof.
  intros Hu Hfirst Hauth2 Hf2.
  assert (unique_hashes db1) as Hu1.
  { replace db1 with (serve cfg PostRevoke env req db).2 by (by rewrite Hfirst).
    unfold serve. rewrite handle_db. by apply handler_unique. }
  pose proof (authenticateMerchant_inv env req db) as Hinv.
  destruct (authenticateMerchant env req db) as [ctx db0|r0 db0|db0] eqn:Hauth.
  2: { unfold serve, handler, postRevoke in Hfirst.
       rewrite (handle_bind_reply _ _ _ _ _ Hauth) in Hfirst.
       destruct Hinv as [_ [-> | ->]]; discriminate. }
  2: { unfold serve, handler, postRevoke in Hfirst.
       by rewrite (handle_bind_throw _ _ _ _ Hauth) in Hfirst. }
  destruct Hinv as (apiKey & id0 & k0 & m & Hh & Hne & Hff & Hm & _ & _ & Hctx & Hdb0).
  apply findFirst_Some in Hff as [Hk0 Hact]. apply active_with_hash_true in Hact as [Hh0 Hr0].
  rewrite (postRevoke_authenticated _ _ _ _ _ Hauth) in Hfirst.
  destruct (merchantApiKeyParamsSchema (params req)) as [apiKeyId|] eqn:Hid; [|discriminate].
  destruct (fault env RevokeFindFirst); [discriminate|].
  destruct (apiKeys db0 !! apiKeyId) as [target|] eqn:Ht; [|discriminate].
  destruct (String.eqb (ApiKey.merchantId target) (merchantId ctx)) eqn:Hown;
    simpl in Hfirst; [|discriminate].
  rewrite Hh in Hfirst. apply String.eqb_neq in Hne as Hne'. rewrite Hne' in Hfirst.
  simpl in Hfirst.
  destruct (String.eqb (sha256 apiKey) (ApiKey.keyHash target)) eqn:Hsame; [discriminate|].
  destruct (ApiKey.revokedAt target) eqn:Hrev; [discriminate|].
  destruct (fault env RevokeUpdate); [discriminate|].
  injection Hfirst as <- <- <-.
  apply String.eqb_eq in Hown. apply String.eqb_neq in Hsame.
  assert (apiKeyId <> id0) as Hdiff.
  { intros ->. subst db0. unfold touched in Ht. db_simpl.
    rewrite lookup_insert_eq in Ht. by simplify_eq. }
  set (dbr := with_apiKeys
                (<[apiKeyId := ApiKey.set_revokedAt (Some (now env)) target]>) db0) in *.
  assert (apiKeys dbr !! id0 = Some (ApiKey.set_lastUsedAt (Some (now env)) k0)) as Hrow0.
  { unfold dbr. subst db0. unfold touched. db_simpl.
    rewrite lookup_insert_ne by done. by rewrite lookup_insert_eq. }
  pose proof (authenticateMerchant_inv env2 req dbr) as Hinv2. rewrite Hauth2 in Hinv2.
  destruct Hinv2 as (apiKey2 & id2 & k2 & m2 & Hh2 & _ & Hff2 & _ & _ & _ & Hctx2 & Hdb2).
  assert (apiKey2 = apiKey) as -> by congruence.
  apply findFirst_Some in Hff2 as [Hk2 Hact2].
  apply active_with_hash_true in Hact2 as [Hh2' Hr2].
  assert (id2 = id0) as ->.
  { apply (Hu1 _ _ _ _ Hk2 Hrow0). simpl. congruence. }
  assert (k2 = ApiKey.set_lastUsedAt (Some (now env)) k0) as -> by congruence.
  assert (apiKeys db2 !! apiKeyId
          = Some (ApiKey.set_revokedAt (Some (now env)) target)) as Hrow.
  { subst db2. unfold touched. db_simpl. rewrite lookup_insert_ne by done.
    unfold dbr. db_simpl. by rewrite lookup_insert_eq. }
  split; [|split; [done|eauto]].
  rewrite (postRevoke_authenticated _ _ _ _ _ Hauth2), Hid, Hf2, Hrow. simpl.
  assert (String.eqb (ApiKey.merchantId target) (merchantId ctx2) = true) as ->.
  { apply String.eqb_eq. subst ctx2 ctx. simpl in *. done. }
  simpl. rewrite Hh, Hne'. simpl.
  apply String.eqb_neq in Hsame. by rewrite Hsame.
Qed.

(** The key-issuing handler once the caller is authenticated. *)
Lemma postApiKeys_authenticated env req db ctx db1 :
  authenticateMerchant env req db = Next ctx db1 ->
  serve cfg PostApiKeys env req db =
    match merchantApiKeyCreateSchema
            (match body req with BodyNone => BodyObject ∅ | b => b end) with
    | None => (Replied (error_with_details 400 "INVALID_REQUEST" "Request body is invalid"), db1)
    | Some label =>
        let apiKey := buildApiKeyPlaintext (randomUUID env 0%nat) in
        let row := {| ApiKey.merchantId := merchantId ctx;
                      ApiKey.keyHash := sha256 apiKey;
                      ApiKey.label := label;
                      ApiKey.preview := buildApiKeyPreview apiKey;
                      ApiKey.createdAt := now env;
                      ApiKey.lastUsedAt := None;
                      ApiKey.revokedAt := None |} in
        if fault env KeyCreate then (Crashed, db1)
        else
          match apiKeys db1 !! newId env,
                findFirst (fun r => String.eqb (ApiKey.keyHash r) (sha256 apiKey))
                  (apiKeys db1) with
          | None, None =>
              (Replied (created (ApiKeyCreatedBody (newId env) label
                          (buildApiKeyPreview apiKey) (now env) apiKey
                          "Save apiKey now. It is shown only once.")),
               with_apiKeys (<[newId env := row]>) db1)
          | _, _ => (Crashed, db1)
          end
    end.
Proof.
  intros Hauth. unfold serve, handler, postApiKeys.
  rewrite (handle_bind_next _ _ _ _ _ Hauth).
  destruct (merchantApiKeyCreateSchema _) as [label|]; [|done].
  unfold apiKey_create. unfold_m. simpl.
  destruct (fault env KeyCreate); [done|].
  destruct (apiKeys db1 !! newId env); [done|].
  by destruct (findFirst _ (apiKeys db1)).
Qed.

(** X11. An issued key works, and only its digest is kept: when the key
    route replies 201 with a plaintext key, the new row holds the SHA-256
    digest of that plaintext and its preview, is active and belongs to the
    caller, sits under an id that was free, and a later call presenting
    the plaintext authenticates as the very merchant that issued it. *)
Theorem issued_key_authenticates_as_its_issuer
    env req db id label preview createdAt apiKey warning db' env2 req2 :
  serve cfg PostApiKeys env req db
    = (Replied (created (ApiKeyCreatedBody id label preview createdAt apiKey warning)), db') ->
  readHeader req2 "x-api-key" = Some apiKey ->
  fault env2 AuthFindFirst = false -> fault env2 AuthTouch = false ->
  exists ctx db1 row,
    authenticateMerchant env req db = Next ctx db1
    /\ apiKeys db !! id = None
    /\ apiKeys db' !! id = Some row
    /\ ApiKey.keyHash row = sha256 apiKey
    /\ ApiKey.preview row = buildApiKeyPreview apiKey
    /\ ApiKey.merchantId row = merchantId ctx
    /\ ApiKey.revokedAt row = None
    /\ authenticateMerchant env2 req2 db' = Next ctx (touched env2 id row db').
Proof.
  intros Hs Hh2 Hf1 Hf2.
  pose proof (authenticateMerchant_inv env req db) as Hinv.
  destruct (authenticateMerchant env req db) as [ctx db1|r0 db1|db1] eqn:Hauth.
  2: { unfold serve, handler, postApiKeys in Hs.
       rewrite (handle_bind_reply _ _ _ _ _ Hauth) in Hs.
       destruct Hinv as [_ [-> | ->]]; discriminate. }
  2: { unfold serve, handler, postApiKeys in Hs.
       by rewrite (handle_bind_throw _ _ _ _ Hauth) in Hs. }
  destruct Hinv as (apiKey0 & id0 & k0 & m & Hh & Hne & Hff & Hm & _ & _ & Hctx & Hdb1).
  apply findFirst_Some in Hff as [Hk0 _].
  rewrite (postApiKeys_authenticated _ _ _ _ _ Hauth) in Hs.
  destruct (merchantApiKeyCreateSchema _) as [label'|]; [|discriminate].
  simpl in Hs.
  destruct (fault env KeyCreate); [discriminate|].
  destruct (apiKeys db1 !! newId env) eqn:Hfree; [discriminate|].
  destruct (findFirst _ (apiKeys db1)) eqn:Hnew; [discriminate|].
  injection Hs as <- <- <- <- <- <- <-.
  set (apiKey := buildApiKeyPlaintext (randomUUID env 0%nat)) in *.
  set (row := {| ApiKey.merchantId := merchantId ctx;
                 ApiKey.keyHash := sha256 apiKey;
                 ApiKey.label := label';
                 ApiKey.preview := buildApiKeyPreview apiKey;
                 ApiKey.createdAt := now env;
                 ApiKey.lastUsedAt := None;
                 ApiKey.revokedAt := None |}) in *.
  assert (apiKeys db !! newId env = None) as Hfree0.
  { subst db1. unfold touched in Hfree. db_simpl.
    destruct (decide (id0 = newId env)) as [->|Hd].
    - by rewrite lookup_insert_eq in Hfree.
    - by rewrite lookup_insert_ne in Hfree. }
  exists ctx, db1, row. repeat split; try done.
  { db_simpl. by rewrite lookup_insert_eq. }
  destruct (findFirst_found (active_with_hash (sha256 apiKey))
              (<[newId env := row]> (apiKeys db1)) (newId env) row) as [[i a] Hfound].
  { by rewrite lookup_insert_eq. }
  { apply active_with_hash_true. done. }
  apply findFirst_Some in Hfound as Hia. destruct Hia as [Hi Hact].
  apply active_with_hash_true in Hact as [Hah _].
  assert (i = newId env /\ a = row) as [-> ->].
  { destruct (decide (i = newId env)) as [->|Hd].
    - rewrite lookup_insert_eq in Hi. by simplify_eq.
    - rewrite lookup_insert_ne in Hi by done.
      pose proof (findFirst_None _ _ _ _ Hnew Hi) as Hno. simpl in Hno.
      apply String.eqb_neq in Hno. done. }
  rewrite (authenticateMerchant_found env2 req2 _ apiKey (newId env) row m); try done.
  - rewrite Hf2. subst ctx. done.
  - subst ctx db1. unfold touched. db_simpl. exact Hm.
Qed.

End Keys.

(* ===================================================================== *)
(** ** The key list *)
(* ===================================================================== *)

Section KeyList.

Context `{Platform}.
Variable cfg : Config.

#[local] Existing Instance newer_dec.

#[local] Instance newer_total : Total newer.
Proof. intros a b. unfold newer. lia. Qed.

#[local] Instance newer_transitive : Transitive newer.
Proof. intros a b c. unfold newer. lia. Qed.

(** The rows behind a key list: the caller's rows after the call's own
    last-used write, the revoked ones only on demand, newest first. *)
Lemma getApiKeys_listed env req db items db' :
  serve cfg GetApiKeys env req db = (Replied (ok (ApiKeyListBody items)), db') ->
  exists ctx rows,
    authenticateMerchant env req db = Next ctx db'
    /\ items = item_of <$> rows
    /\ StronglySorted newer rows
    /\ NoDup rows.*1
    /\ (forall id k, (id, k) ∈ rows <->
          apiKeys db' !! id = Some k
          /\ ApiKey.merchantId k = merchantId ctx
          /\ (Zod.coerce_boolean (field (query req) "includeRevoked") = true
              \/ ApiKey.revokedAt k = None)).
Proof.
  intros Hs. unfold serve, handler, getApiKeys in Hs.
  pose proof (authenticateMerchant_inv env req db) as Hinv.
  destruct (authenticateMerchant env req db) as [ctx db1|r0 db1|db1] eqn:Hauth.
  2: { rewrite (handle_bind_reply _ _ _ _ _ Hauth) in Hs.
       destruct Hinv as [_ [-> | ->]]; discriminate. }
  2: { by rewrite (handle_bind_throw _ _ _ _ Hauth) in Hs. }
  rewrite (handle_bind_next _ _ _ _ _ Hauth) in Hs.
  unfold merchantApiKeyListQuerySchema in Hs. unfold_m.
  destruct (fault env KeyFindMany); [discriminate|].
  injection Hs as <- <-.
  set (wanted := fun k : ApiKey.t =>
         String.eqb (ApiKey.merchantId k) (merchantId ctx)
         && (Zod.coerce_boolean (field (query req) "includeRevoked")
             || bool_decide (ApiKey.revokedAt k = None))).
  exists ctx, (merge_sort newer (findMany wanted (apiKeys db1))).
  split; [done|]. split; [done|].
  split; [apply (StronglySorted_merge_sort newer)|].
  assert (NoDup (findMany wanted (apiKeys db1)).*1) as Hnd.
  { unfold findMany. pose proof (NoDup_fst_map_to_list (apiKeys db1)) as Hall.
    induction (map_to_list (apiKeys db1)) as [|[i a] l IH]; [done|].
    simpl in *. apply NoDup_cons in Hall as [Hi Hl].
    destruct (wanted a); simpl; [|by apply IH].
    apply NoDup_cons. split; [|by apply IH].
    intros Hin. apply Hi.
    apply list_elem_of_fmap in Hin as ([i' a'] & -> & Hin).
    apply list_elem_of_fmap. exists (i', a'). split; [done|].
    apply list_elem_of_In in Hin. apply filter_In in Hin as [Hin _].
    by apply list_elem_of_In. }
  split.
  { by rewrite (merge_sort_Permutation newer). }
  intros id k. rewrite (merge_sort_Permutation newer).
  unfold findMany. rewrite list_elem_of_In, filter_In, <- list_elem_of_In.
  rewrite elem_of_map_to_list. simpl. unfold wanted.
  rewrite andb_true_iff, orb_true_iff, String.eqb_eq, bool_decide_eq_true.
  tauto.
Qed.

(** X12. The key list is the caller's own keys, newest first: a 200 reply
    of the list route holds exactly the key rows of the authenticated
    merchant (as they are after this call's last-used write), each once,
    the revoked ones only when includeRevoked coerces to true, and in
    order of creation time, latest first. No row of another merchant is
    ever listed. *)
Theorem key_list_is_the_callers_keys_newest_first env req db items db' :
  serve cfg GetApiKeys env req db = (Replied (ok (ApiKeyListBody items)), db') ->
  exists ctx,
    authenticateMerchant env req db = Next ctx db'
    /\ (forall item, item ∈ items <->
          exists k, apiKeys db' !! item_apiKeyId item = Some k
            /\ item = item_of (item_apiKeyId item, k)
            /\ ApiKey.merchantId k = merchantId ctx
            /\ (Zod.coerce_boolean (field (query req) "includeRevoked") = true
                \/ ApiKey.revokedAt k = None))
    /\ StronglySorted (fun a b => item_createdAt b <= item_createdAt a) items
    /\ NoDup (item_apiKeyId <$> items).
Proof.
  intros Hs.
  destruct (getApiKeys_listed _ _ _ _ _ Hs) as (ctx & rows & Hauth & -> & Hsorted & Hnd & Hrows).
  exists ctx. split; [done|]. split; [|split].
  - intros item. split.
    + intros Hin. apply list_elem_of_fmap in Hin as ([id k] & -> & Hin).
      apply Hrows in Hin. exists k. simpl. tauto.
    + intros (k & Hk & Hitem & Hrest).
      rewrite Hitem. apply list_elem_of_fmap. exists (item_apiKeyId item, k).
      split; [done|]. apply Hrows. tauto.
  - by apply (StronglySorted_fmap _ newer).
  - by rewrite <- list_fmap_compose.
Qed.

(** X13. Listing keys counts as using one: the key presented to the list
    route is itself in the list, active, and already shows this call as
    its last use. A 200 list is therefore never empty. *)
Theorem key_list_shows_this_call_as_last_use env req db items db' apiKey :
  serve cfg GetApiKeys env req db = (Replied (ok (ApiKeyListBody items)), db') ->
  readHeader req "x-api-key" = Some apiKey ->
  exists item k,
    item ∈ items
    /\ apiKeys db' !! item_apiKeyId item = Some k
    /\ ApiKey.keyHash k = sha256 apiKey
    /\ item_lastUsedAt item = Some (now env)
    /\ item_revokedAt item = None.
Proof.
  intros Hs Hh.
  destruct (getApiKeys_listed _ _ _ _ _ Hs) as (ctx & rows & Hauth & -> & _ & _ & Hrows).
  pose proof (authenticateMerchant_inv env req db) as Hinv. rewrite Hauth in Hinv.
  destruct Hinv as (apiKey' & id & k & m & Hh' & _ & Hff & _ & _ & _ & Hctx & Hdb').
  assert (apiKey' = apiKey) as -> by congruence.
  apply findFirst_Some in Hff as [Hk Hact].
  apply active_with_hash_true in Hact as [Hhash Hrev].
  set (k' := ApiKey.set_lastUsedAt (Some (now env)) k).
  assert (apiKeys db' !! id = Some k') as Hk'.
  { subst db'. unfold touched. db_simpl. by rewrite lookup_insert_eq. }
  exists (item_of (id, k')), k'. split; [|done].
  apply list_elem_of_fmap. exists (id, k'). split; [done|].
  apply Hrows. subst ctx. simpl. auto.
Qed.

(** X14. includeRevoked is coerced, not parsed: query values arrive as
    strings, and any non-empty one, the string false included, turns the
    filter off, so that every key of the caller is listed, revoked or
    not. Only the empty string (like an absent parameter) keeps the list
    to the active keys. *)
Theorem include_revoked_is_on_for_any_nonempty_string env req db items db' s :
  serve cfg GetApiKeys env req db = (Replied (ok (ApiKeyListBody items)), db') ->
  field (query req) "includeRevoked" = JStr s ->
  exists ctx,
    authenticateMerchant env req db = Next ctx db'
    /\ (s <> "" ->
        forall id k, apiKeys db' !! id = Some k ->
          ApiKey.merchantId k = merchantId ctx -> item_of (id, k) ∈ items)
    /\ (s = "" -> forall item, item ∈ items -> item_revokedAt item = None).
Proof.
  intros Hs Hq.
  destruct (getApiKeys_listed _ _ _ _ _ Hs) as (ctx & rows & Hauth & -> & _ & _ & Hrows).
  rewrite Hq in Hrows. simpl in Hrows.
  exists ctx. split; [done|]. split.
  - intros Hne id k Hk Hown. apply list_elem_of_fmap. exists (id, k).
    split; [done|]. apply Hrows. apply String.eqb_neq in Hne. rewrite Hne. auto.
  - intros -> item Hin. apply list_elem_of_fmap in Hin as ([id k] & -> & Hin).
    apply Hrows in Hin as (_ & _ & [Hf|Hr]); [discriminate|done].
Qed.

End KeyList.

(* ===================================================================== *)
(** ** A proof request from creation to its status *)
(* ===================================================================== *)

Section Status.

Context `{Platform}.
Variable cfg : Config.

(** The status handler once the caller is authenticated and the id read. *)
Lemma getStatus_authenticated env req db ctx db1 id :
  authenticateMerchant env req db = Next ctx db1 ->
  proofRequestParamsSchema (params req) = Some id ->
  serve cfg GetStatus env req db =
    if fault env StatusFindFirst then (Crashed, db1)
    else
      match own_proof id ctx db with
      | None => (Replied not_found, db1)
      | Some p =>
          (Replied (ok (ProofStatusBody id (ProofRequest.status p) (ProofRequest.minAge p)
                      (if String.eqb (ProofRequest.status p) "passed"
                       then Some (age_claim (ProofRequest.minAge p)) else None)
                      (ProofRequest.updatedAt p))), db1)
      end.
Proof.
  intros Hauth Hid. unfold serve, handler, getStatus.
  rewrite (handle_bind_next _ _ _ _ _ Hauth), Hid.
  destruct (authenticateMerchant_proofs_same _ _ _ _ _ Hauth) as [Hsame _].
  unfold_m. destruct (fault env StatusFindFirst); [done|].
  rewrite (own_proof_same _ _ db) by done.
  by destruct (own_proof id ctx db).
Qed.

(** The issuing handler once the caller is authenticated and the id read. *)
Lemma getAssertion_authenticated env req db ctx db1 id :
  authenticateMerchant env req db = Next ctx db1 ->
  proofRequestParamsSchema (params req) = Some id ->
  serve cfg GetAssertion env req db =
    if fault env AssertionFindFirst then (Crashed, db1)
    else
      match own_proof id ctx db with
      | None => (Replied not_found, db1)
      | Some p =>
          if negb (String.eqb (ProofRequest.status p) "passed")
          then (Replied proof_not_passed, db1)
          else
            match proofAssertionQuerySchema (query req) with
            | None =>
                (Replied (error_with_details 400 "INVALID_QUERY" "Query params are invalid"),
                 db1)
            | Some q =>
                let n := default (randomUUID env 0%nat) q in
                let j := match q with
                         | Some _ => randomUUID env 0%nat
                         | None => randomUUID env 1%nat
                         end in
                (Replied (ok (AssertionBody "Bearer"
                           (jwtSerialize
                              (mintAssertion cfg env j (merchantExternalRef ctx) id p n))
                           (assertionTtlSeconds cfg) n
                           (age_claim (ProofRequest.minAge p)))), db1)
            end
      end.
Proof.
  intros Hauth Hid. unfold serve, handler, getAssertion.
  rewrite (handle_bind_next _ _ _ _ _ Hauth), Hid.
  destruct (authenticateMerchant_proofs_same _ _ _ _ _ Hauth) as [Hsame _].
  unfold_m. destruct (fault env AssertionFindFirst); [done|].
  rewrite (own_proof_same _ _ db) by done.
  destruct (own_proof id ctx db) as [p|]; [|done].
  destruct (negb _); [done|].
  by destruct (proofAssertionQuerySchema (query req)) as [[n|]|].
Qed.

Lemma own_proof_Some id ctx db p :
  own_proof id ctx db = Some p <->
  proofRequests db !! id = Some p /\ ProofRequest.merchantId p = merchantId ctx.
Proof.
  unfold own_proof. destruct (proofRequests db !! id) as [p'|]; simpl.
  - destruct (String.eqb (ProofRequest.merchantId p') (merchantId ctx)) eqn:Hown.
    + apply String.eqb_eq in Hown. split; [intros; by simplify_eq|].
      intros [? _]. by simplify_eq.
    + apply String.eqb_neq in Hown. split; [done|]. intros [? ?]. by simplify_eq.
  - split; [done|]. by intros [? _].
Qed.

(** Outside the callback, a proof request is never rewritten. *)
Lemma run_fixed es db :
  existsb is_callback es = false -> proofs_fixed db (run cfg es db).
Proof.
  intros Hes. apply run_keeps; [apply _|].
  apply Forall_forall. intros e He d.
  assert (is_callback e = false) as Hcb.
  { destruct (is_callback e) eqn:Hcb; [|done].
    assert (existsb is_callback es = true) as Hex; [|congruence].
    apply existsb_exists. exists e. split; [by apply list_elem_of_In|done]. }
  destruct e as [r env req|s]; simpl.
  - unfold serve. rewrite handle_db. apply handler_fixed.
    intros ->. discriminate.
  - apply seed_fixed.
Qed.

(** X15. A status reply describes a request of the caller, and names the
    claim only for a passed one: every 200 of the status route reports the
    status, threshold and update time of the stored request with that id,
    which belongs to the authenticated merchant; the ageAssertion field is
    age_over_N for its threshold N when the status is passed and is absent
    otherwise; and the call leaves the proof requests as they were. *)
Theorem status_reply_describes_the_callers_request
    env req db id st minAge claim upd db' :
  serve cfg GetStatus env req db
    = (Replied (ok (ProofStatusBody id st minAge claim upd)), db') ->
  exists ctx p,
    authenticateMerchant env req db = Next ctx db'
    /\ proofRequestParamsSchema (params req) = Some id
    /\ proofRequests db !! id = Some p
    /\ ProofRequest.merchantId p = merchantId ctx
    /\ st = ProofRequest.status p
    /\ minAge = ProofRequest.minAge p
    /\ upd = ProofRequest.updatedAt p
    /\ claim = (if decide (st = "passed") then Some (age_claim minAge) else None)
    /\ proofRequests db' = proofRequests db.
Proof.
  intros Hs.
  pose proof (authenticateMerchant_inv env req db) as Hinv.
  destruct (authenticateMerchant env req db) as [ctx db1|r0 db1|db1] eqn:Hauth.
  2: { unfold serve, handler, getStatus in Hs.
       rewrite (handle_bind_reply _ _ _ _ _ Hauth) in Hs.
       destruct Hinv as [_ [-> | ->]]; discriminate. }
  2: { unfold serve, handler, getStatus in Hs.
       by rewrite (handle_bind_throw _ _ _ _ Hauth) in Hs. }
  destruct (proofRequestParamsSchema (params req)) as [id'|] eqn:Hid.
  2: { unfold serve, handler, getStatus in Hs.
       by rewrite (handle_bind_next _ _ _ _ _ Hauth), Hid in Hs. }
  rewrite (getStatus_authenticated _ _ _ _ _ _ Hauth Hid) in Hs.
  destruct (fault env StatusFindFirst); [discriminate|].
  destruct (own_proof id' ctx db) as [p|] eqn:Hown; [|discriminate].
  apply own_proof_Some in Hown as [Hp Howner].
  injection Hs as <- <- <- <- <- <-.
  exists ctx, p. repeat split; try done.
  - destruct (decide (ProofRequest.status p = "passed")) as [Hst|Hst].
    + by rewrite Hst.
    + apply String.eqb_neq in Hst. by rewrite Hst.
  - by destruct (authenticateMerchant_proofs_same _ _ _ _ _ Hauth).
Qed.

(** X16. A request stays pending until the verifier calls back: after a
    request has been created, whatever is called in between, runs of the
    seed included, as long as no callback is among it, the owner's status
    query answers pending with the threshold asked for, no ageAssertion and
    the creation time as update time, and the owner's assertion request is
    refused with PROOF_NOT_PASSED. *)
Theorem request_stays_pending_until_a_callback
    env req db ctx dbA rb id mref st url db0 es env2 req2 ctx2 db2 :
  authenticateMerchant env req db = Next ctx dbA ->
  requestSchema (body req) = Some rb ->
  serve cfg PostProofRequest env req db
    = (Replied (created (ProofCreatedBody id mref st url)), db0) ->
  existsb is_callback es = false ->
  let later := run cfg es db0 in
  authenticateMerchant env2 req2 later = Next ctx2 db2 ->
  merchantId ctx2 = merchantId ctx ->
  proofRequestParamsSchema (params req2) = Some id ->
  (fault env2 StatusFindFirst = false ->
   serve cfg GetStatus env2 req2 later
     = (Replied (ok (ProofStatusBody id "pending" (RequestBody.minAge rb) None (now env))),
        db2))
  /\ (fault env2 AssertionFindFirst = false ->
      serve cfg GetAssertion env2 req2 later = (Replied proof_not_passed, db2)).
Proof.
  intros Hauth Hrb Hs Hes later Hauth2 Hsame Hid.
  unfold serve, handler, postProofRequest in Hs.
  rewrite (handle_bind_next _ _ _ _ _ Hauth), Hrb in Hs.
  unfold proofRequest_create in Hs. unfold_m.
  destruct (fault env ProofCreate); [discriminate|].
  destruct (proofRequests dbA !! newId env); [discriminate|].
  injection Hs as <- <- <- <- <-.
  set (row := {| ProofRequest.merchantId := merchantId ctx;
                 ProofRequest.subjectRef := RequestBody.subjectRef rb;
                 ProofRequest.minAge := RequestBody.minAge rb;
                 ProofRequest.status := "pending";
                 ProofRequest.verifierRef := None;
                 ProofRequest.createdAt := now env;
                 ProofRequest.updatedAt := now env |}) in *.
  assert (own_proof (newId env) ctx2 later = Some row) as Hown.
  { apply own_proof_Some. split; [|by rewrite Hsame].
    apply (run_fixed es); [done|]. db_simpl. by rewrite lookup_insert_eq. }
  split; intros Hf.
  - rewrite (getStatus_authenticated _ _ _ _ _ _ Hauth2 Hid), Hf, Hown. done.
  - rewrite (getAssertion_authenticated _ _ _ _ _ _ Hauth2 Hid), Hf, Hown. done.
Qed.

(** X17. What the verifier reports is what the owner reads: once a
    callback for a request has been accepted, and until the next callback,
    the owner's status query answers with the reported result, the
    request's own threshold and the time of the callback, naming the claim
    age_over_N exactly for a passed result; a failed result keeps issuance
    closed (PROOF_NOT_PASSED), and a passed one opens it: an assertion
    request with a well-formed query is answered with a bearer token
    announced as age_over_N and living the configured number of seconds. *)
Theorem callback_result_is_what_the_owner_reads
    env req db db1 parsed p es env2 req2 ctx2 db2 :
  serve cfg PostCallback env req db = (Replied (ok CallbackOkBody), db1) ->
  callbackSchema (body req) = Some parsed ->
  let id := CallbackBody.proofRequestId parsed in
  let result := CallbackBody.result parsed in
  let N := ProofRequest.minAge p in
  proofRequests db !! id = Some p ->
  existsb is_callback es = false ->
  let later := run cfg es db1 in
  authenticateMerchant env2 req2 later = Next ctx2 db2 ->
  ProofRequest.merchantId p = merchantId ctx2 ->
  proofRequestParamsSchema (params req2) = Some id ->
  (result = "passed" \/ result = "failed")
  /\ (fault env2 StatusFindFirst = false ->
      serve cfg GetStatus env2 req2 later
        = (Replied (ok (ProofStatusBody id result N
                      (if decide (result = "passed") then Some (age_claim N) else None)
                      (now env))), db2))
  /\ (fault env2 AssertionFindFirst = false -> result = "failed" ->
      serve cfg GetAssertion env2 req2 later = (Replied proof_not_passed, db2))
  /\ (fault env2 AssertionFindFirst = false -> result = "passed" ->
      is_Some (proofAssertionQuerySchema (query req2)) ->
      exists a n,
        serve cfg GetAssertion env2 req2 later
          = (Replied (ok (AssertionBody "Bearer" a (assertionTtlSeconds cfg) n (age_claim N))),
             db2)).
Proof.
  intros Hs Hparsed id result N Hp Hes later Hauth2 Hown Hid.
  assert (db1 = with_proofRequests (<[id := apply_result env parsed p]>) db) as ->.
  { revert Hs.
    unfold serve, handler, postCallback, verifyCallbackSecret, proofRequest_update. unfold_m.
    destruct (readHeader req "x-verifier-secret") as [provided|]; simpl; [|done].
    destruct (String.eqb provided ""); simpl; [done|].
    destruct (negb (safeEqual provided (verifierCallbackSecret cfg))); simpl; [done|].
    rewrite Hparsed. simpl.
    destruct (fault env CallbackFindUnique); simpl; [done|].
    fold id. rewrite Hp. simpl.
    destruct (fault env CallbackUpdate); simpl; [done|].
    rewrite Hp. simpl. by intros [= <-]. }
  assert (own_proof id ctx2 later = Some (apply_result env parsed p)) as Hrow.
  { apply own_proof_Some. split; [|done].
    apply (run_fixed es); [done|]. db_simpl. by rewrite lookup_insert_eq. }
  assert (result = "passed" \/ result = "failed") as Hresult.
  { unfold callbackSchema, Zod.object in Hparsed.
    destruct (body req) as [|o|]; try discriminate.
    apply bind_Some in Hparsed as (x1 & _ & Hparsed).
    apply bind_Some in Hparsed as (r & Hr & Hparsed).
    apply bind_Some in Hparsed as (x3 & _ & Hparsed).
    subst result. simplify_eq. simpl.
    unfold Zod.enum in Hr. destruct (field o "result"); try discriminate.
    simpl in Hr.
    destruct (String.eqb s "passed") eqn:H1; simpl in Hr.
    { apply String.eqb_eq in H1. left. by simplify_eq. }
    destruct (String.eqb s "failed") eqn:H2; simpl in Hr; [|discriminate].
    apply String.eqb_eq in H2. right. by simplify_eq. }
  split; [done|]. split; [|split].
  - intros Hf. rewrite (getStatus_authenticated _ _ _ _ _ _ Hauth2 Hid), Hf, Hrow.
    simpl. fold result N.
    destruct (decide (result = "passed")) as [->|Hne]; [done|].
    apply String.eqb_neq in Hne. by rewrite Hne.
  - intros Hf Hfailed.
    rewrite (getAssertion_authenticated _ _ _ _ _ _ Hauth2 Hid), Hf, Hrow.
    simpl. fold result. by rewrite Hfailed.
  - intros Hf Hpassed [q Hq].
    rewrite (getAssertion_authenticated _ _ _ _ _ _ Hauth2 Hid), Hf, Hrow.
    simpl. fold result. rewrite Hpassed, Hq. simpl. eauto.
Qed.

End Status.

(* ===================================================================== *)
(** ** More of verification *)
(* ===================================================================== *)

Section Verification.

Context `{Platform}.
Variable cfg : Config.



(** What the checks before the ledger hand on when all of them pass. *)
Lemma checkAssertion_result env merchant parsed j row res :
  checkAssertion cfg env merchant parsed = inr (j, row, res) ->
  exists p pp,
    jwtVerify env (VerifyBody.assertion parsed) (jwtSigningKey cfg) "proofage-rail"
      (merchantExternalRef merchant) = Some p
    /\ assertionPayloadSchema p = Some pp
    /\ AssertionPayload.nonce pp = VerifyBody.expectedNonce parsed
    /\ (forall e, VerifyBody.expectedSubjectRef parsed = Some e -> e <> "" ->
          field p "sub" = JStr e)
    /\ field p "jti" = JStr j
    /\ row = {| AssertionUse.nonce := AssertionPayload.nonce pp;
                AssertionUse.subjectRef :=
                  match field p "sub" with JStr sub => Some sub | _ => None end;
                AssertionUse.merchantId := merchantId merchant;
                AssertionUse.proofRequestId := AssertionPayload.proof_request_id pp;
                AssertionUse.expiresAt := date_of_seconds (field p "exp") |}
    /\ (res = None <->
        ~ writable_date (field p "exp") \/ ~ writable_date (field p "iat"))
    /\ (forall v, res = Some v ->
          exists expiresAt issuedAt,
            iso_of_seconds (field p "exp") = Some expiresAt
            /\ iso_of_seconds (field p "iat") = Some issuedAt
            /\ v = {| valid := true;
                      meetsMinAge :=
                        VerifyBody.requiredMinAge parsed <=? AssertionPayload.age_over pp;
                      requiredMinAge := VerifyBody.requiredMinAge parsed;
                      assertedAgeOver := AssertionPayload.age_over pp;
                      v_nonce := AssertionPayload.nonce pp;
                      v_subjectRef := or_null (field p "sub");
                      v_proofRequestId := AssertionPayload.proof_request_id pp;
                      v_verifierRef := AssertionPayload.verifier_ref pp;
                      v_issuer := or_null (field p "iss");
                      v_audience := or_null (field p "aud");
                      issuedAt := issuedAt;
                      v_expiresAt := expiresAt |}).
Proof.
  unfold checkAssertion.
  destruct (jwtVerify _ _ _ _ _) as [p|] eqn:Hv; [|discriminate].
  destruct (assertionPayloadSchema p) as [pp|] eqn:Hpp; [|discriminate].
  destruct (String.eqb (AssertionPayload.nonce pp) (VerifyBody.expectedNonce parsed)) eqn:Hn;
    simpl; [|discriminate].
  apply String.eqb_eq in Hn.
  destruct (match VerifyBody.expectedSubjectRef parsed with Some _ => _ | None => _ end)
    eqn:Hsub; [discriminate|].
  destruct (field p "jti") as [| | | |tokenJti| |] eqn:Hj; try discriminate.
  destruct (min_len 8 tokenJti) eqn:Hlen; simpl; [|discriminate].
  intros Hr. injection Hr as <- <- <-. exists p, pp. split_and!; try done.
  - intros e He Hne. rewrite He in Hsub.
    apply String.eqb_neq in Hne. rewrite Hne in Hsub. simpl in Hsub.
    apply negb_false_iff in Hsub. unfold is_string in Hsub.
    destruct (field p "sub"); try discriminate.
    apply String.eqb_eq in Hsub. by subst.
  - rewrite <- !iso_of_seconds_None.
    destruct (iso_of_seconds (field p "exp")); simpl.
    + destruct (iso_of_seconds (field p "iat")); simpl.
      * split; [discriminate|intros [?|?]; discriminate].
      * split; auto.
    + split; auto.
  - intros v Hres.
    destruct (iso_of_seconds (field p "exp")) as [e|]; simpl in Hres; [|discriminate].
    destruct (iso_of_seconds (field p "iat")) as [i|]; simpl in Hres; [|discriminate].
    injection Hres as <-. by exists e, i.
Qed.


(** X19. What a 200 from the verify route vouches for: the caller was
    authenticated; valid is true; the required age is the one asked for,
    an integer from 13 to 25 (18 when the body names none); the asserted
    age is an integer from 13 to 25; meetsMinAge says exactly whether the
    required age is at most the asserted one, so that an assertion below
    the requirement is reported in the body and not as an error; the nonce
    reported is the expectedNonce of the body; the issuer is proofage-rail;
    the token was signed with the configured key and passed the issuer,
    audience and time checks at the whole second of the call; the
    audience reported is or holds the caller's external reference, unless
    that reference is empty; and an expiry that is a whole number of
    seconds is reported as it is and lies in the future. *)
Theorem accepted_verification_report env req db v db' :
  serve cfg PostVerifyAssertion env req db = (Replied (ok (VerifiedBody v)), db') ->
  exists ctx db1 o a t,
    authenticateMerchant env req db = Next ctx db1
    /\ body req = BodyObject o
    /\ valid v = true
    /\ 13 <= requiredMinAge v <= 25
    /\ (field o "requiredMinAge" = JUndefined -> requiredMinAge v = 18)
    /\ 13 <= assertedAgeOver v <= 25
    /\ (meetsMinAge v = true <-> requiredMinAge v <= assertedAgeOver v)
    /\ field o "expectedNonce" = JStr (v_nonce v)
    /\ v_issuer v = JStr "proofage-rail"
    /\ token_of req = Some a
    /\ jwtParse a = Some t
    /\ acceptable_token (jwtSigningKey cfg) t (merchantExternalRef ctx) (now env / 1000)
    /\ (merchantExternalRef ctx <> "" ->
        names_audience (v_audience v) (merchantExternalRef ctx))
    /\ (forall s, field (claims t) "exp" = JNum (NumInt s) ->
          v_expiresAt v = Some (s * 1000) /\ now env < s * 1000)
    /\ (field (claims t) "exp" = JUndefined -> v_expiresAt v = None).
Proof.
  intros Hs.
  destruct (postVerifyAssertion_accepted _ _ _ _ _ _ Hs)
    as (ctx & db1 & parsed & j & row & Hauth & Hp & Hchk & _ & _).
  destruct (verifyAssertionSchema_fields _ _ Hp) as (o & Hb & Hband & Hdef & Hn & _ & _).
  destruct (checkAssertion_result _ _ _ _ _ _ Hchk)
    as (p & pp & Hv & Hpp & Hnonce & _ & _ & _ & _ & Hsome).
  destruct (Hsome v eq_refl) as (e & i & He & Hi & ->).
  destruct (proj1 (jwtVerify_Some _ _ _ _ _) Hv) as (t & Ht & -> & Hok).
  pose proof Hok as (_ & Hiss & _ & Haud & _ & _ & Hexp).
  exists ctx, db1, o, (VerifyBody.assertion parsed), t. simpl.
  assert (13 <= AssertionPayload.age_over pp <= 25) as Hage.
  { unfold assertionPayloadSchema in Hpp.
    apply bind_Some in Hpp as (z & Hz & Hpp).
    apply bind_Some in Hpp as (x1 & _ & Hpp).
    apply bind_Some in Hpp as (x2 & _ & Hpp).
    apply bind_Some in Hpp as (x3 & _ & Hpp).
    simplify_eq. simpl. by apply int_between_Some in Hz as [_ Hz]. }
  split_and!; try done; try lia.
  - by rewrite Hnonce.
  - by rewrite Hiss.
  - by apply verifyAssertionSchema_token.
  - intros Hne. specialize (Haud Hne).
    destruct Haud as [->|(l & -> & Hin)]; [by left|right; eauto].
  - intros s Hfield. rewrite Hfield in He, Hexp.
    destruct Hexp as [?|(x & [= <-] & Hlate)]; [discriminate|]. simpl in Hlate.
    assert (now env < s * 1000) as Hfuture.
    { pose proof (Z.div_mod (now env) 1000). pose proof (Z.mod_pos_bound (now env) 1000).
      lia. }
    split; [|done].
    unfold iso_of_seconds, date_of_seconds, date_of_number, time_clip in He.
    destruct (Z.abs (s * 1000) <=? max_time); by simplify_eq.
  - intros Hfield. rewrite Hfield in He. by injection He as <-.
Qed.

(** X20. An expected subject is enforced: when the body of an accepted
    verification names an expectedSubjectRef, the subject the reply
    reports is that very string. *)
Theorem accepted_verification_has_the_expected_subject env req db v db' o e :
  serve cfg PostVerifyAssertion env req db = (Replied (ok (VerifiedBody v)), db') ->
  body req = BodyObject o ->
  field o "expectedSubjectRef" = JStr e ->
  v_subjectRef v = JStr e.
Proof.
  intros Hs Hb He.
  destruct (postVerifyAssertion_accepted _ _ _ _ _ _ Hs)
    as (ctx & db1 & parsed & j & row & Hauth & Hp & Hchk & _ & _).
  destruct (verifyAssertionSchema_fields _ _ Hp) as (o' & Hb' & _ & _ & _ & _ & Hsub).
  assert (o' = o) as -> by congruence.
  rewrite He in Hsub. simpl in Hsub.
  destruct (min_len 3 e) eqn:Hlen; simpl in Hsub; [|discriminate].
  injection Hsub as Hsub.
  destruct (checkAssertion_result _ _ _ _ _ _ Hchk)
    as (p & pp & _ & _ & _ & Hexpected & _ & _ & _ & Hsome).
  destruct (Hsome v eq_refl) as (x & i & _ & _ & ->).
  simpl. rewrite (Hexpected e); [done|done|].
  intros ->. discriminate.
Qed.

(** An issued token presented under another audience, one that is not
    empty, does not verify. *)
Lemma issued_refused_elsewhere env0 j ref id proof n env a ref' :
  jwtParse a = Some (mintAssertion cfg env0 j ref id proof n) ->
  ref' <> "" ->
  ref' <> ref ->
  jwtVerify env a (jwtSigningKey cfg) "proofage-rail" ref' = None.
Proof.
  intros Hparse Hempty Hne.
  destruct (jwtVerify env a (jwtSigningKey cfg) "proofage-rail" ref') as [p|] eqn:Hv; [|done].
  apply jwtVerify_Some in Hv as (t & Ht & _ & _ & _ & _ & Haud & _).
  rewrite Hparse in Ht. injection Ht as <-. simpl in Haud.
  destruct (issued_claims cfg ref id proof n j (now env0 / 1000)) as (_ & Hfield & _).
  unfold field in Haud. rewrite Hfield in Haud. simpl in Haud.
  destruct (Haud Hempty) as [[= ->]|(l & ? & _)]; done.
Qed.

(** With an empty audience asked for, the audience of an issued token is
    not compared. *)
Lemma issued_accepted_by_empty_reference env0 j ref id proof n env a :
  jwtParse a = Some (mintAssertion cfg env0 j ref id proof n) ->
  jwtVerify env a (jwtSigningKey cfg) "proofage-rail" ""
  = if now env / 1000 <? now env0 / 1000 + assertionTtlSeconds cfg
    then Some (assertion_claims cfg ref id proof n j (now env0 / 1000))
    else None.
Proof.
  intros Hparse. unfold jwtVerify. rewrite Hparse. simpl. rewrite String.eqb_refl.
  destruct (issued_claims cfg ref id proof n j (now env0 / 1000))
    as (Hiss & Haud & _ & _ & Hiat & Hnbf & Hexp).
  unfold issuer_ok, audience_ok, claim_present, field.
  rewrite Hiss, Haud, Hiat, Hnbf, Hexp. simpl. by destruct (_ <? _).
Qed.

Lemma optional_nonce_Some v q :
  Zod.optional (Zod.string_between 8 200) v = Some q ->
  forall n, q = Some n -> (8 <= String.length n <= 200)%nat.
Proof.
  unfold Zod.optional. intros Hq n ->.
  destruct v; simpl in Hq; try discriminate.
  destruct (min_len 8 s && max_len 200 s) eqn:Hb; simpl in Hq; [|discriminate].
  simplify_eq. unfold min_len, max_len in Hb.
  apply andb_true_iff in Hb as [?%Nat.leb_le ?%Nat.leb_le]. done.
Qed.

(** The token an issuance hands out, by the query it was asked with. *)
Lemma getAssertion_token env req db ctx db1 id proof q ty a ttl n c db' :
  authenticateMerchant env req db = Next ctx db1 ->
  proofRequestParamsSchema (params req) = Some id ->
  proofRequests db !! id = Some proof ->
  proofAssertionQuerySchema (query req) = Some q ->
  serve cfg GetAssertion env req db = (Replied (ok (AssertionBody ty a ttl n c)), db') ->
  let j := match q with Some _ => randomUUID env 0%nat | None => randomUUID env 1%nat end in
  a = jwtSerialize (mintAssertion cfg env j (merchantExternalRef ctx) id proof n)
  /\ n = default (randomUUID env 0%nat) q
  /\ ttl = assertionTtlSeconds cfg
  /\ c = age_claim (ProofRequest.minAge proof)
  /\ ty = "Bearer"
  /\ db' = db1
  /\ ProofRequest.merchantId proof = merchantId ctx
  /\ ProofRequest.status proof = "passed"
  /\ isUuid id = true.
Proof.
  intros Hauth Hid Hproof Hq Hs j.
  rewrite (getAssertion_authenticated _ _ _ _ _ _ _ Hauth Hid) in Hs.
  destruct (fault env AssertionFindFirst); [discriminate|].
  unfold own_proof in Hs. rewrite Hproof in Hs. simpl in Hs.
  destruct (String.eqb (ProofRequest.merchantId proof) (merchantId ctx)) eqn:Hown;
    [|discriminate].
  destruct (String.eqb (ProofRequest.status proof) "passed") eqn:Hst; simpl in Hs;
    [|discriminate].
  rewrite Hq in Hs. simpl in Hs. injection Hs as <- <- <- <- <- <-.
  apply String.eqb_eq in Hown, Hst.
  repeat split; try done.
  unfold proofRequestParamsSchema, Zod.string_format in Hid.
  destruct (field (params req) "proofRequestId"); try discriminate.
  destruct (isUuid s) eqn:Hu; by simplify_eq.
Qed.

(** X21. An assertion is bound to the merchant it was issued to: a token
    handed out by the issuing route, presented to the verify route by a
    merchant with another external reference, one that is not empty, is
    answered INVALID_ASSERTION (401), at any time and whatever nonce is
    expected, and nothing is written to the ledger. A merchant whose
    external reference is empty is not held to this: the audience is not
    compared for it, and before the expiry the same token passes the
    first check. *)
Theorem assertion_refused_for_another_merchant
    env0 req0 db0 issuer db0' id proof q ty a ttl n c dbi
    env req db merchant db1 parsed :
  authenticateMerchant env0 req0 db0 = Next issuer db0' ->
  proofRequestParamsSchema (params req0) = Some id ->
  proofRequests db0 !! id = Some proof ->
  proofAssertionQuerySchema (query req0) = Some q ->
  serve cfg GetAssertion env0 req0 db0 = (Replied (ok (AssertionBody ty a ttl n c)), dbi) ->
  let j := match q with Some _ => randomUUID env0 0%nat | None => randomUUID env0 1%nat end in
  jwtParse a = Some (mintAssertion cfg env0 j (merchantExternalRef issuer) id proof n) ->
  authenticateMerchant env req db = Next merchant db1 ->
  merchantExternalRef merchant <> merchantExternalRef issuer ->
  verifyAssertionSchema (body req) = Some parsed ->
  VerifyBody.assertion parsed = a ->
  (merchantExternalRef merchant <> "" ->
   serve cfg PostVerifyAssertion env req db = (Replied invalid_assertion, db1)
   /\ assertionUses db1 = assertionUses db)
  /\ (merchantExternalRef merchant = "" ->
      now env / 1000 < now env0 / 1000 + assertionTtlSeconds cfg ->
      jwtVerify env a (jwtSigningKey cfg) "proofage-rail" (merchantExternalRef merchant)
      = Some (claims (mintAssertion cfg env0 j (merchantExternalRef issuer) id proof n))
      /\ (serve cfg PostVerifyAssertion env req db).1 <> Replied invalid_assertion).
Proof.
  intros Hauth0 Hid Hproof Hq Hissue j Hparse Hauth Hne Hp Ha.
  rewrite (postVerifyAssertion_authenticated _ _ _ _ _ _ _ Hauth Hp).
  unfold checkAssertion. rewrite Ha. split.
  - intros Hempty.
    rewrite (issued_refused_elsewhere _ _ _ _ _ _ _ _ _ Hparse Hempty Hne).
    split; [done|].
    by destruct (authenticateMerchant_proofs_same _ _ _ _ _ Hauth).
  - intros Hempty Htime. rewrite Hempty.
    rewrite (issued_accepted_by_empty_reference _ _ _ _ _ _ _ _ Hparse).
    apply Z.ltb_lt in Htime. rewrite Htime. split; [done|].
    repeat case_match; simplify_eq; simpl; discriminate.
Qed.

(** X22. Issue, then verify, for a lifetime that is a whole number of
    seconds: a token handed out by the issuing route for a request whose
    threshold N is from 13 to 25, presented by the merchant it was issued
    to with the nonce the issuance returned (and no expected subject, or
    the request's own), its identifier not yet in the ledger, is accepted
    for as long as the clock, in whole seconds, is before the issue time
    plus the configured lifetime, provided the issue time and the expiry
    are times a date can hold: the reply reports age N, meetsMinAge for
    every requirement up to N, the request's id and subject, and the
    expiry. When one of the two is beyond what a date can hold, the call
    fails instead. From the second of the expiry on the token is answered
    INVALID_ASSERTION, and with a lifetime of zero or less no issued token
    is ever accepted. *)
Theorem issued_assertion_verifies_until_it_expires
    env0 req0 db0 issuer db0' id proof q ty a ttl n c dbi
    env req db merchant db1 parsed :
  authenticateMerchant env0 req0 db0 = Next issuer db0' ->
  proofRequestParamsSchema (params req0) = Some id ->
  proofRequests db0 !! id = Some proof ->
  proofAssertionQuerySchema (query req0) = Some q ->
  serve cfg GetAssertion env0 req0 db0 = (Replied (ok (AssertionBody ty a ttl n c)), dbi) ->
  let j := match q with Some _ => randomUUID env0 0%nat | None => randomUUID env0 1%nat end in
  let N := ProofRequest.minAge proof in
  let expiry := now env0 / 1000 + assertionTtlSeconds cfg in
  jwtParse a = Some (mintAssertion cfg env0 j (merchantExternalRef issuer) id proof n) ->
  (forall i, (8 <= String.length (randomUUID env0 i) <= 200)%nat) ->
  13 <= N <= 25 ->
  authenticateMerchant env req db = Next merchant db1 ->
  merchantExternalRef merchant = merchantExternalRef issuer ->
  verifyAssertionSchema (body req) = Some parsed ->
  VerifyBody.assertion parsed = a ->
  VerifyBody.expectedNonce parsed = n ->
  VerifyBody.expectedSubjectRef parsed = None
    \/ VerifyBody.expectedSubjectRef parsed = Some (ProofRequest.subjectRef proof) ->
  fault env LedgerCreate = false ->
  assertionUses db !! j = None ->
  (now env / 1000 < expiry ->
   in_date_range (now env0 / 1000) ->
   in_date_range expiry ->
   exists v row,
     serve cfg PostVerifyAssertion env req db
       = (Replied (ok (VerifiedBody v)), with_assertionUses (<[j := row]>) db1)
     /\ valid v = true
     /\ assertedAgeOver v = N
     /\ meetsMinAge v = (VerifyBody.requiredMinAge parsed <=? N)
     /\ v_nonce v = n
     /\ v_subjectRef v = JStr (ProofRequest.subjectRef proof)
     /\ v_proofRequestId v = Some id
     /\ v_verifierRef v = ProofRequest.verifierRef proof
     /\ issuedAt v = Some (now env0 / 1000 * 1000)
     /\ v_expiresAt v = Some (expiry * 1000))
  /\ (now env / 1000 < expiry ->
      ~ in_date_range (now env0 / 1000) \/ ~ in_date_range expiry ->
      (serve cfg PostVerifyAssertion env req db).1 = Crashed)
  /\ (expiry <= now env / 1000 ->
      serve cfg PostVerifyAssertion env req db = (Replied invalid_assertion, db1))
  /\ (assertionTtlSeconds cfg <= 0 -> now env0 <= now env ->
      serve cfg PostVerifyAssertion env req db = (Replied invalid_assertion, db1)).
Proof.
  intros Hauth0 Hid Hproof Hq Hissue j N expiry Hparse Huuid Hband Hauth Href Hp Ha Hn
    Hsubject Hf Hfresh.
  destruct (getAssertion_token _ _ _ _ _ _ _ _ _ _ _ _ _ _ Hauth0 Hid Hproof Hq Hissue)
    as (_ & Hnonce & _ & _ & _ & _ & _ & _ & Huid).
  assert ((8 <= String.length n <= 200)%nat) as Hlen.
  { rewrite Hnonce. destruct q as [n'|] eqn:Hq'; simpl; [|apply Huuid].
    unfold proofAssertionQuerySchema in Hq. by eapply optional_nonce_Some. }
  assert ((8 <= String.length j)%nat) as Hjlen.
  { unfold j. destruct q; apply Huuid. }
  rewrite (postVerifyAssertion_authenticated _ _ _ _ _ _ _ Hauth Hp).
  unfold checkAssertion. rewrite Ha, Href.
  rewrite (issued_verifies _ _ _ _ _ _ _ _ _ Hparse). fold expiry.
  assert (expiry <= now env / 1000 ->
          (if now env / 1000 <? expiry
           then Some (assertion_claims cfg (merchantExternalRef issuer) id proof n j
                        (now env0 / 1000))
           else None) = None) as Hdead.
  { intros Hlate. apply Z.ltb_ge in Hlate. by rewrite Hlate. }
  set (p := assertion_claims cfg (merchantExternalRef issuer) id proof n j
              (now env0 / 1000)).
  destruct (issued_claims cfg (merchantExternalRef issuer) id proof n j (now env0 / 1000))
    as (_ & _ & Hsub' & Hjti' & Hiat' & _ & Hexp'). fold p expiry in Hsub', Hjti', Hiat', Hexp'.
  assert (field p "sub" = JStr (ProofRequest.subjectRef proof)) as Hsub
    by (unfold field; by rewrite Hsub').
  assert (field p "jti" = JStr j) as Hjti by (unfold field; by rewrite Hjti').
  assert (field p "iat" = JNum (NumInt (now env0 / 1000))) as Hiat
    by (unfold field; by rewrite Hiat').
  assert (field p "exp" = JNum (NumInt expiry)) as Hexp by (unfold field; by rewrite Hexp').
  assert (match VerifyBody.expectedSubjectRef parsed with
          | Some expected =>
              negb (String.eqb expected "")
              && negb (is_string (JStr (ProofRequest.subjectRef proof)) expected)
          | None => false
          end = false) as Hsubj.
  { destruct Hsubject as [->| ->]; [done|].
    simpl. by rewrite String.eqb_refl, andb_false_r. }
  apply Nat.leb_le in Hjlen.
  destruct (authenticateMerchant_proofs_same _ _ _ _ _ Hauth) as [_ Hsame].
  subst p.
  split; [|split; [|split]].
  - intros Htime Hi He. apply Z.ltb_lt in Htime. rewrite Htime.
    rewrite issued_payload_parses by done. simpl.
    rewrite Hn, String.eqb_refl. simpl.
    rewrite Hsub, Hjti, Hexp, Hiat, Hsubj.
    unfold min_len. rewrite Hjlen. simpl.
    rewrite Hf, Hsame, Hfresh.
    rewrite (iso_of_whole_seconds _ He), (iso_of_whole_seconds _ Hi). simpl.
    eexists. eexists. split; [reflexivity|]. simpl. done.
  - intros Htime Hbad. apply Z.ltb_lt in Htime. rewrite Htime.
    rewrite issued_payload_parses by done. simpl.
    rewrite Hn, String.eqb_refl. simpl.
    rewrite Hsub, Hjti, Hexp, Hiat, Hsubj.
    unfold min_len. rewrite Hjlen. simpl.
    rewrite Hf, Hsame, Hfresh.
    assert (forall s, ~ in_date_range s -> iso_of_seconds (JNum (NumInt s)) = None) as Hout.
    { intros s Hs. unfold iso_of_seconds, date_of_seconds, date_of_number, time_clip.
      assert ((Z.abs (s * 1000) <=? max_time) = false) as ->; [|done].
      apply Z.leb_gt. unfold in_date_range in Hs. lia. }
    destruct Hbad as [Hbad|Hbad]; apply Hout in Hbad; rewrite Hbad; simpl; [|done].
    by destruct (iso_of_seconds (JNum (NumInt expiry))).
  - intros Hlate. by rewrite (Hdead Hlate).
  - intros Httl Hclock. rewrite Hdead; [done|].
    unfold expiry. pose proof (Z.div_le_mono _ _ 1000 ltac:(lia) Hclock). lia.
Qed.

End Verification.

(* ===================================================================== *)
(** ** The seed script *)
(* ===================================================================== *)

Section SeedScript.

Context `{Platform}.
Variable cfg : Config.

(** What the merchant upsert leaves: one row written, under the id it
    returns, carrying the configured reference and name. *)
Lemma merchant_upsert_inv s db :
  match merchant_upsert s db with
  | Next mid db' =>
      exists m,
        db' = with_merchants (<[mid := m]>) db
        /\ Merchant.externalRef m = BOOTSTRAP_MERCHANT_EXTERNAL_REF s
        /\ Merchant.name m = BOOTSTRAP_MERCHANT_NAME s
        /\ ((merchants db !! mid = None
             /\ forall i a, merchants db !! i = Some a ->
                  Merchant.externalRef a <> BOOTSTRAP_MERCHANT_EXTERNAL_REF s)
            \/ exists m0, merchants db !! mid = Some m0
                 /\ Merchant.externalRef m0 = BOOTSTRAP_MERCHANT_EXTERNAL_REF s)
  | Reply _ _ => False
  | Throw db' => db' = db
  end.
Proof.
  unfold merchant_upsert.
  destruct (findFirst _ (merchants db)) as [[id m]|] eqn:Hff.
  - apply findFirst_Some in Hff as [Hm Href]. apply String.eqb_eq in Href.
    eexists. split; [reflexivity|]. simpl. split; [done|]. split; [done|].
    right. eauto.
  - destruct (merchants db !! new_merchant_id s) eqn:Hnew; [done|].
    eexists. split; [reflexivity|]. simpl. split; [done|]. split; [done|].
    left. split; [done|]. intros i a Hi.
    pose proof (findFirst_None _ _ _ _ Hff Hi) as Hno. simpl in Hno.
    by apply String.eqb_neq in Hno.
Qed.

(** What the key upsert leaves: one row written, active, owned by the
    merchant given and holding the digest of the bootstrap key. *)
Lemma apiKey_upsert_inv s mid db :
  match apiKey_upsert s mid db with
  | Next _ db' =>
      exists kid row,
        db' = with_apiKeys (<[kid := row]>) db
        /\ ApiKey.merchantId row = mid
        /\ ApiKey.keyHash row = sha256 (BOOTSTRAP_API_KEY s)
        /\ ApiKey.label row = "bootstrap"
        /\ ApiKey.preview row = seed_preview (BOOTSTRAP_API_KEY s)
        /\ ApiKey.revokedAt row = None
        /\ ((apiKeys db !! kid = None
             /\ ApiKey.createdAt row = seed_now s
             /\ ApiKey.lastUsedAt row = None
             /\ forall i a, apiKeys db !! i = Some a ->
                  ApiKey.keyHash a <> sha256 (BOOTSTRAP_API_KEY s))
            \/ exists k0, apiKeys db !! kid = Some k0
                 /\ ApiKey.keyHash k0 = sha256 (BOOTSTRAP_API_KEY s)
                 /\ ApiKey.createdAt row = ApiKey.createdAt k0
                 /\ ApiKey.lastUsedAt row = ApiKey.lastUsedAt k0)
  | Reply _ _ => False
  | Throw db' => db' = db
  end.
Proof.
  unfold apiKey_upsert.
  destruct (findFirst _ (apiKeys db)) as [[id k]|] eqn:Hff.
  - apply findFirst_Some in Hff as [Hk Hh]. apply String.eqb_eq in Hh.
    eexists _, _. split; [reflexivity|]. simpl. repeat (split; [done|]).
    right. eauto.
  - destruct (apiKeys db !! new_key_id s) eqn:Hnew; [done|].
    eexists _, _. split; [reflexivity|]. simpl. repeat (split; [done|]).
    left. repeat (split; [done|]). intros i a Hi.
    pose proof (findFirst_None _ _ _ _ Hff Hi) as Hno. simpl in Hno.
    by apply String.eqb_neq in Hno.
Qed.

(** A successful run of the script, in one piece. *)
Lemma seed_inv s db db' :
  seed s db = Next tt db' ->
  (16 <= String.length (BOOTSTRAP_API_KEY s))%nat
  /\ exists mid db1,
       merchant_upsert s db = Next mid db1
       /\ apiKey_upsert s mid db1 = Next tt db'.
Proof.
  unfold seed.
  destruct (String.length (BOOTSTRAP_API_KEY s) <? 16)%nat eqn:Hlen; [done|].
  apply Nat.ltb_ge in Hlen. unfold_m.
  destruct (merchant_upsert s db) as [mid db1| |] eqn:Hm; try done.
  intros Hk. split; [done|]. exists mid, db1. split; [done|].
  destruct (apiKey_upsert s mid db1) as [[] ?| |]; by simplify_eq.
Qed.

(** Writing a row over one with the same digest, or a new row with a
    digest no row has, keeps the digests apart. *)
Lemma insert_unique_hashes db kid row :
  unique_hashes db ->
  (forall i a, apiKeys db !! i = Some a -> ApiKey.keyHash a = ApiKey.keyHash row -> i = kid) ->
  unique_hashes (with_apiKeys (<[kid := row]>) db).
Proof.
  intros Hu Hrow i j a b. db_simpl.
  destruct (decide (i = kid)) as [->|Hi], (decide (j = kid)) as [->|Hj]; try done.
  - rewrite lookup_insert_eq, lookup_insert_ne by done.
    intros Ha Hb Hab. simplify_eq. symmetry. by eapply Hrow.
  - rewrite lookup_insert_ne, lookup_insert_eq by done.
    intros Ha Hb Hab. simplify_eq. by eapply Hrow.
  - rewrite !lookup_insert_ne by done. apply Hu.
Qed.

Lemma insert_unique_refs db mid m :
  unique_refs db ->
  (forall i a, merchants db !! i = Some a ->
     Merchant.externalRef a = Merchant.externalRef m -> i = mid) ->
  unique_refs (with_merchants (<[mid := m]>) db).
Proof.
  intros Hu Hrow i j a b. db_simpl.
  destruct (decide (i = mid)) as [->|Hi], (decide (j = mid)) as [->|Hj]; try done.
  - rewrite lookup_insert_eq, lookup_insert_ne by done.
    intros Ha Hb Hab. simplify_eq. symmetry. by eapply Hrow.
  - rewrite lookup_insert_ne, lookup_insert_eq by done.
    intros Ha Hb Hab. simplify_eq. by eapply Hrow.
  - rewrite !lookup_insert_ne by done. apply Hu.
Qed.

Lemma merchant_upsert_unique_refs s db mid db' :
  merchant_upsert s db = Next mid db' -> unique_refs db -> unique_refs db'.
Proof.
  intros Hm Hu. pose proof (merchant_upsert_inv s db) as Hinv. rewrite Hm in Hinv.
  destruct Hinv as (m & -> & Href & _ & Hwas).
  apply insert_unique_refs; [done|]. intros i a Hi Ha. rewrite Href in Ha.
  destruct Hwas as [[_ Hnone]|(m0 & Hm0 & Href0)].
  - by apply Hnone in Hi.
  - eapply Hu; [done..|congruence].
Qed.

Lemma apiKey_upsert_unique_hashes s mid db db' :
  apiKey_upsert s mid db = Next tt db' -> unique_hashes db -> unique_hashes db'.
Proof.
  intros Hk Hu. pose proof (apiKey_upsert_inv s mid db) as Hinv. rewrite Hk in Hinv.
  destruct Hinv as (kid & row & -> & _ & Hh & _ & _ & _ & Hwas).
  apply insert_unique_hashes; [done|]. intros i a Hi Ha. rewrite Hh in Ha.
  destruct Hwas as [(_ & _ & _ & Hnone)|(k0 & Hk0 & Hh0 & _)].
  - by apply Hnone in Hi.
  - eapply Hu; [done..|congruence].
Qed.

(** X23. After the seed, the bootstrap key opens the bootstrap merchant's
    account: when the script succeeds, the key has at least 16
    characters, and a call presenting it (storage working) authenticates
    as the merchant with the configured external reference, whose name is
    the configured one; this whatever the key's row was before, revoked
    or owned by another merchant. *)
Theorem seeded_key_authenticates_as_the_bootstrap_merchant s db db' env req :
  seed s db = Next tt db' ->
  unique_hashes db ->
  readHeader req "x-api-key" = Some (BOOTSTRAP_API_KEY s) ->
  fault env AuthFindFirst = false ->
  fault env AuthTouch = false ->
  (16 <= String.length (BOOTSTRAP_API_KEY s))%nat
  /\ exists ctx m db'',
       authenticateMerchant env req db' = Next ctx db''
       /\ merchantExternalRef ctx = BOOTSTRAP_MERCHANT_EXTERNAL_REF s
       /\ merchants db' !! merchantId ctx = Some m
       /\ Merchant.externalRef m = BOOTSTRAP_MERCHANT_EXTERNAL_REF s
       /\ Merchant.name m = BOOTSTRAP_MERCHANT_NAME s.
Proof.
  intros Hseed Hu Hh Hf1 Hf2.
  destruct (seed_inv _ _ _ Hseed) as (Hlen & mid & db1 & Hm & Hk).
  split; [done|].
  assert (unique_hashes db') as Hu'.
  { apply (apiKey_upsert_unique_hashes _ _ _ _ Hk).
    pose proof (merchant_upsert_inv s db) as Hinv. rewrite Hm in Hinv.
    by destruct Hinv as (m & -> & _). }
  pose proof (merchant_upsert_inv s db) as Hinv. rewrite Hm in Hinv.
  destruct Hinv as (m & -> & Href & Hname & _).
  pose proof (apiKey_upsert_inv s mid (with_merchants (<[mid := m]>) db)) as Hinv.
  rewrite Hk in Hinv.
  destruct Hinv as (kid & row & -> & Hown & Hhash & _ & _ & Hactive & _).
  set (db' := with_apiKeys (<[kid := row]>) (with_merchants (<[mid := m]>) db)) in *.
  assert (apiKeys db' !! kid = Some row) as Hrow.
  { unfold db'. db_simpl. by rewrite lookup_insert_eq. }
  assert (merchants db' !! mid = Some m) as Hmid.
  { unfold db'. db_simpl. by rewrite lookup_insert_eq. }
  destruct (findFirst_found (active_with_hash (sha256 (BOOTSTRAP_API_KEY s)))
              (apiKeys db') kid row Hrow) as [[i a] Hfound].
  { by apply active_with_hash_true. }
  apply findFirst_Some in Hfound as Hia. destruct Hia as [Hi Hact].
  apply active_with_hash_true in Hact as [Hah _].
  assert (i = kid) as -> by (eapply Hu'; [done..|congruence]).
  assert (a = row) as -> by congruence.
  assert (BOOTSTRAP_API_KEY s <> "") as Hne.
  { intros Hempty. rewrite Hempty in Hlen. simpl in Hlen. lia. }
  eexists _, m, _. split.
  { rewrite (authenticateMerchant_found env req db' _ kid row m Hh Hne Hf1 Hfound);
      [|by rewrite Hown].
    rewrite Hf2. reflexivity. }
  simpl. rewrite Hown. done.
Qed.

(** X24. The seed is idempotent: run again on the database a successful
    run left, with the same reference, name and key (the clock and the
    fresh ids may differ), it succeeds and changes nothing. *)
Theorem seed_again_changes_nothing s db db1 s' :
  seed s db = Next tt db1 ->
  unique_hashes db ->
  unique_refs db ->
  BOOTSTRAP_MERCHANT_EXTERNAL_REF s' = BOOTSTRAP_MERCHANT_EXTERNAL_REF s ->
  BOOTSTRAP_MERCHANT_NAME s' = BOOTSTRAP_MERCHANT_NAME s ->
  BOOTSTRAP_API_KEY s' = BOOTSTRAP_API_KEY s ->
  seed s' db1 = Next tt db1.
Proof.
  intros Hseed Hu Hr Eref Ename Ekey.
  destruct (seed_inv _ _ _ Hseed) as (Hlen & mid & dbm & Hm & Hk).
  assert (unique_refs dbm) as Hrm by (by eapply merchant_upsert_unique_refs).
  pose proof (merchant_upsert_inv s db) as Hinv. rewrite Hm in Hinv.
  destruct Hinv as (m & Hdbm & Href & Hname & _).
  assert (unique_hashes dbm) as Hum by (by subst dbm).
  assert (unique_hashes db1) as Hu1 by (by eapply apiKey_upsert_unique_hashes).
  pose proof (apiKey_upsert_inv s mid dbm) as Hinv. rewrite Hk in Hinv.
  destruct Hinv as (kid & row & Hdb1 & Hown & Hhash & Hlabel & Hprev & Hactive & _).
  assert (merchants db1 !! mid = Some m) as Hmid.
  { subst db1 dbm. db_simpl. by rewrite lookup_insert_eq. }
  assert (apiKeys db1 !! kid = Some row) as Hrow.
  { subst db1. db_simpl. by rewrite lookup_insert_eq. }
  assert (unique_refs db1) as Hr1 by (by subst db1).
  unfold seed. rewrite Ekey.
  apply Nat.ltb_ge in Hlen. rewrite Hlen. unfold_m.
  (* the merchant is found again, and rewritten as it is *)
  assert (merchant_upsert s' db1 = Next mid db1) as ->.
  { unfold merchant_upsert. rewrite Eref, Ename.
    destruct (findFirst_found
                (fun x => String.eqb (Merchant.externalRef x) (BOOTSTRAP_MERCHANT_EXTERNAL_REF s))
                (merchants db1) mid m Hmid) as [[i a] Hfound].
    { by apply String.eqb_eq. }
    rewrite Hfound. apply findFirst_Some in Hfound as [Hi Ha].
    apply String.eqb_eq in Ha.
    assert (i = mid) as -> by (eapply Hr1; [done..|congruence]).
    assert (a = m) as -> by congruence.
    f_equal. destruct db1 as [ms ks ps us], m as [ref name]. simpl in *.
    unfold with_merchants. simpl. f_equal. subst. by apply insert_id. }
  (* and so is the key *)
  assert (apiKey_upsert s' mid db1 = Next tt db1) as ->; [|done].
  unfold apiKey_upsert. rewrite Ekey.
  destruct (findFirst_found
              (fun k => String.eqb (ApiKey.keyHash k) (sha256 (BOOTSTRAP_API_KEY s)))
              (apiKeys db1) kid row Hrow) as [[i a] Hfound].
  { by apply String.eqb_eq. }
  rewrite Hfound. apply findFirst_Some in Hfound as [Hi Ha].
  apply String.eqb_eq in Ha.
  assert (i = kid) as -> by (eapply Hu1; [done..|congruence]).
  assert (a = row) as -> by congruence.
  f_equal. clear Hdb1 Hk Hseed.
  destruct db1 as [ms ks ps us], row as [o h l p c lu rv]. simpl in *.
  unfold with_apiKeys. simpl. f_equal. subst. by apply insert_id.
Qed.

End SeedScript.

(* ===================================================================== *)
(** ** Tables, their writers and their invariants *)
(* ===================================================================== *)

#[export] Instance owners_stay_preorder : PreOrder owners_stay.
Proof. split; [intros db; unfold owners_stay; auto | intros a b c Hab Hbc Ha; auto]. Qed.

Section Owners.

Context `{Platform}.
Variable cfg : Config.

Lemma apiKey_update_owners id f :
  (forall k, ApiKey.merchantId (f k) = ApiKey.merchantId k) ->
  keeps owners_stay (apiKey_update id f).
Proof.
  intros Hf db Hk. unfold apiKey_update.
  destruct (apiKeys db !! id) as [k0|] eqn:Hid; [|done].
  intros i k. db_simpl.
  destruct (decide (id = i)) as [->|Hne].
  - rewrite lookup_insert_eq. intros Hi. simplify_eq. rewrite Hf. eauto.
  - rewrite lookup_insert_ne by done. apply Hk.
Qed.

Lemma touch_owners id d : keeps owners_stay (apiKey_update id (ApiKey.set_lastUsedAt d)).
Proof. by apply apiKey_update_owners. Qed.

Lemma revoke_owners id d : keeps owners_stay (apiKey_update id (ApiKey.set_revokedAt d)).
Proof. by apply apiKey_update_owners. Qed.

Lemma proofRequest_update_owners id f : keeps owners_stay (proofRequest_update id f).
Proof.
  intros db. unfold proofRequest_update, owners_stay, keys_have_merchants.
  destruct (proofRequests db !! id); db_simpl; auto.
Qed.

Lemma proofRequest_create_owners id p : keeps owners_stay (proofRequest_create id p).
Proof.
  intros db. unfold proofRequest_create, owners_stay, keys_have_merchants.
  destruct (proofRequests db !! id); db_simpl; auto.
Qed.

Lemma assertionUse_create_owners j u : keeps owners_stay (assertionUse_create j u).
Proof.
  intros db. unfold assertionUse_create, owners_stay, keys_have_merchants.
  destruct (assertionUses db !! j); db_simpl; auto.
Qed.

End Owners.

#[export] Hint Resolve
  touch_owners revoke_owners proofRequest_update_owners proofRequest_create_owners
  assertionUse_create_owners
  : keeps.

Section Invariants.

Context `{Platform}.
Variable cfg : Config.

Lemma existsb_none {A} (f : A -> bool) (l : list A) x :
  existsb f l = false -> x ∈ l -> f x = false.
Proof.
  intros Hl Hx. destruct (f x) eqn:Hf; [|done].
  assert (existsb f l = true) as Hex; [|congruence].
  apply existsb_exists. exists x. split; [by apply list_elem_of_In|done].
Qed.

(** X25. Each table has its writers: a run of events that holds no
    createRequest and no callback leaves the proof requests exactly as
    they were, and one that holds no verify-assertion call leaves the
    ledger exactly as it was; the seed writes neither. *)
Theorem tables_have_their_writers es db :
  (existsb writes_proofs es = false ->
   proofRequests (run cfg es db) = proofRequests db)
  /\ (existsb writes_ledger es = false ->
      assertionUses (run cfg es db) = assertionUses db).
Proof.
  split; intros Hes.
  - change (same_proofs db (run cfg es db)).
    apply run_keeps; [apply _|]. apply Forall_forall. intros e He d.
    pose proof (existsb_none _ _ _ Hes He) as Hw.
    destruct e as [r env req|s]; simpl.
    + unfold serve. rewrite handle_db.
      apply handler_same_proofs; intros ->; discriminate.
    + apply seed_same_proofs.
  - change (same_ledger db (run cfg es db)).
    apply run_keeps; [apply _|]. apply Forall_forall. intros e He d.
    pose proof (existsb_none _ _ _ Hes He) as Hw.
    destruct e as [r env req|s]; simpl.
    + unfold serve. rewrite handle_db.
      apply handler_same_ledger; intros ->; discriminate.
    + apply seed_same_ledger.
Qed.

Lemma authenticateMerchant_owners env req : keeps owners_stay (authenticateMerchant env req).
Proof. routes_keep. Qed.

Lemma handler_owners r env req :
  r <> PostApiKeys -> keeps owners_stay (handler cfg r env req).
Proof. intros Hr. destruct r; try done; routes_keep. Qed.

Lemma postApiKeys_owners env req : keeps owners_stay (postApiKeys env req).
Proof.
  intros db Hk.
  pose proof (authenticateMerchant_owners env req db Hk) as Hk1.
  pose proof (authenticateMerchant_inv env req db) as Hinv.
  change (postApiKeys env req) with (handler cfg PostApiKeys env req).
  rewrite <- handle_db. fold (serve cfg PostApiKeys env req db).
  destruct (authenticateMerchant env req db) as [ctx db1|r0 db1|db1] eqn:Hauth;
    simpl in Hk1.
  - rewrite (postApiKeys_authenticated _ _ _ _ _ _ Hauth).
    destruct (merchantApiKeyCreateSchema _) as [label|]; [|done].
    simpl. destruct (fault env KeyCreate); [done|].
    destruct (apiKeys db1 !! newId env) eqn:Hfree; [done|].
    destruct (findFirst _ (apiKeys db1)); [done|]. simpl.
    destruct Hinv as (apiKey & id & k & m & _ & _ & _ & Hm & _ & _ & -> & Hdb1).
    intros i a. db_simpl.
    destruct (decide (newId env = i)) as [<-|Hne].
    + rewrite lookup_insert_eq. intros Ha. simplify_eq. simpl. eauto.
    + rewrite lookup_insert_ne by done. apply Hk1.
  - unfold serve, handler, postApiKeys. by rewrite (handle_bind_reply _ _ _ _ _ Hauth).
  - unfold serve, handler, postApiKeys. by rewrite (handle_bind_throw _ _ _ _ Hauth).
Qed.

(** Where the seed leaves the database, however it ends. *)
Lemma seed_after s db :
  db_after (seed s db) = db
  \/ exists mid dbm,
       merchant_upsert s db = Next mid dbm
       /\ (db_after (seed s db) = dbm
           \/ apiKey_upsert s mid dbm = Next tt (db_after (seed s db))).
Proof.
  unfold seed.
  destruct (String.length (BOOTSTRAP_API_KEY s) <? 16)%nat; [by left|].
  unfold_m.
  pose proof (merchant_upsert_inv s db) as Hm.
  destruct (merchant_upsert s db) as [mid dbm| |]; [|done|left; by subst].
  right. exists mid, dbm. split; [done|].
  pose proof (apiKey_upsert_inv s mid dbm) as Hk.
  destruct (apiKey_upsert s mid dbm) as [[] db'| |]; [by right|done|left; by subst].
Qed.

Lemma merchant_upsert_owners s db mid dbm :
  merchant_upsert s db = Next mid dbm ->
  keys_have_merchants db ->
  keys_have_merchants dbm /\ is_Some (merchants dbm !! mid).
Proof.
  intros Hm Hk. pose proof (merchant_upsert_inv s db) as Hinv. rewrite Hm in Hinv.
  destruct Hinv as (m & -> & _). split.
  - intros i k Hi. db_simpl. apply lookup_insert_is_Some'. right. by eapply Hk.
  - db_simpl. rewrite lookup_insert_eq. eauto.
Qed.

Lemma apiKey_upsert_owners s mid dbm db' :
  apiKey_upsert s mid dbm = Next tt db' ->
  keys_have_merchants dbm -> is_Some (merchants dbm !! mid) ->
  keys_have_merchants db'.
Proof.
  intros Hu Hk Hmid. pose proof (apiKey_upsert_inv s mid dbm) as Hinv. rewrite Hu in Hinv.
  destruct Hinv as (kid & row & -> & Hown & _).
  intros i k. db_simpl.
  destruct (decide (kid = i)) as [->|Hne].
  - rewrite lookup_insert_eq. intros Hi. simplify_eq. done.
  - rewrite lookup_insert_ne by done. apply Hk.
Qed.

(** X26. The store stays well formed: starting from a database in which
    key digests are unique, merchant references are unique and every key
    row names an existing merchant, every database reached by requests to
    the server and runs of the seed, in any order and whatever fails, is
    so again. In particular authentication never meets a key without its
    merchant. *)
Theorem store_stays_well_formed es db :
  unique_hashes db -> unique_refs db -> keys_have_merchants db ->
  unique_hashes (run cfg es db)
  /\ unique_refs (run cfg es db)
  /\ keys_have_merchants (run cfg es db).
Proof.
  revert db. induction es as [|e es IH]; intros db Hu Hr Hk; [done|].
  rewrite run_cons.
  assert (unique_hashes (exec cfg e db) /\ unique_refs (exec cfg e db)
          /\ keys_have_merchants (exec cfg e db)) as (Hu' & Hr' & Hk'); [|by apply IH].
  destruct e as [r env req|s]; simpl.
  - unfold serve. rewrite handle_db. split; [|split].
    + by apply handler_unique.
    + pose proof (handler_merchants cfg r env req db) as Hm.
      unfold same_merchants in Hm. unfold unique_refs. rewrite Hm. apply Hr.
    + destruct (decide (r = PostApiKeys)) as [->|Hne].
      * by apply postApiKeys_owners.
      * by apply handler_owners.
  - destruct (seed_after s db) as [->|(mid & dbm & Hm & Hafter)]; [done|].
    destruct (merchant_upsert_owners _ _ _ _ Hm Hk) as [Hkm Hmid].
    assert (unique_refs dbm) as Hrm by (by eapply merchant_upsert_unique_refs).
    assert (unique_hashes dbm) as Hum.
    { pose proof (merchant_upsert_inv s db) as Hinv. rewrite Hm in Hinv.
      by destruct Hinv as (m & -> & _). }
    destruct Hafter as [->|Hkey]; [done|].
    split; [by eapply apiKey_upsert_unique_hashes|]. split.
    + pose proof (apiKey_upsert_inv s mid dbm) as Hinv. rewrite Hkey in Hinv.
      destruct Hinv as (kid & row & -> & _). done.
    + by eapply apiKey_upsert_owners.
Qed.

End Invariants.

(* ===================================================================== *)
(** ** The .env loader *)
(* ===================================================================== *)

Section DotEnv.

Implicit Types (env : gmap string string) (line k v : string).

(** The loop body sets what the line asks for, unless the name is set. *)
Lemma load_line_assignment env line :
  load_line env line =
    match assignment line with
    | Some (k, v) => if defined env k then env else <[k := v]> env
    | None => env
    end.
Proof.
  unfold load_line, assignment.
  destruct (String.eqb (trim line) "" || startsWith "#" (trim line)); [done|].
  destruct (indexOf "=" (trim line)) as [[|n]|]; [done| |done].
  destruct (String.eqb (trim (slice_head (S n) (trim line))) ""); [done|].
  simpl. done.
Qed.

(** [process.env[key] === undefined]: the environment does not hold the
    name, and it is none of the inherited ones. *)
Lemma defined_false env k :
  defined env k = false <-> env !! k = None /\ k ∉ inherited.
Proof.
  unfold defined. rewrite orb_false_iff, bool_decide_eq_false. split.
  - intros [Hn Hi]. split.
    + destruct (env !! k); [|done]. destruct Hn. eauto.
    + intros Hin. apply list_elem_of_In in Hin.
      assert (existsb (String.eqb k) inherited = true) as Hex; [|congruence].
      apply existsb_exists. exists k. split; [done|apply String.eqb_refl].
  - intros [Hn Hi]. split.
    + rewrite Hn. by intros [? ?].
    + destruct (existsb (String.eqb k) inherited) eqn:Hex; [|done].
      apply existsb_exists in Hex as (x & Hin & Hx).
      apply String.eqb_eq in Hx as <-. destruct Hi. by apply list_elem_of_In.
Qed.

Lemma fold_load_lookup lines env k :
  fold_left load_line lines env !! k =
    match env !! k with
    | Some v => Some v
    | None =>
        if existsb (String.eqb k) inherited then None else first_assignment k lines
    end.
Proof.
  revert env. induction lines as [|line rest IH]; intros env;
    cbn [fold_left first_assignment].
  - destruct (env !! k); [done|]. by destruct (existsb (String.eqb k) inherited).
  - rewrite IH, load_line_assignment.
    destruct (assignment line) as [[k' v]|]; [|done].
    destruct (String.eqb k' k) eqn:Hk.
    + apply String.eqb_eq in Hk as ->. unfold defined.
      destruct (env !! k) as [w|] eqn:Hw.
      * rewrite bool_decide_eq_true_2 by eauto. rewrite orb_true_l. by rewrite Hw.
      * rewrite bool_decide_eq_false_2 by (by intros [? ?]). rewrite orb_false_l.
        destruct (existsb (String.eqb k) inherited); [by rewrite Hw|].
        by rewrite lookup_insert_eq.
    + apply String.eqb_neq in Hk.
      destruct (defined env k'); [done|].
      by rewrite lookup_insert_ne.
Qed.

(** X27. The environment wins, then the first line: after loading, a
    variable the environment already held has the value it had, and any
    other has the value of the first line of the file that names it, or
    none when no line does; without a file nothing changes. The names
    every object inherits (constructor, toString, valueOf, __proto__ and
    the like) are the exception: the loader finds them defined and never
    loads them, so that such a name stays unset whatever the file says.
    The loader never overrides and never removes a variable. *)
Theorem dotenv_environment_wins_then_first_line envFile env k :
  loadDotEnv envFile env !! k =
    match env !! k with
    | Some v => Some v
    | None =>
        match envFile with
        | Some content =>
            if existsb (String.eqb k) inherited then None
            else first_assignment k (split_lines content)
        | None => None
        end
    end.
Proof.
  destruct envFile as [content|]; unfold loadDotEnv.
  - apply fold_load_lookup.
  - by destruct (env !! k).
Qed.

(** X28. Loading is idempotent: loading the same file a second time
    changes nothing. *)
Theorem dotenv_loading_twice_is_loading_once envFile env :
  loadDotEnv envFile (loadDotEnv envFile env) = loadDotEnv envFile env.
Proof.
  destruct envFile as [content|]; unfold loadDotEnv; [|done].
  apply map_eq. intros k. rewrite (fold_load_lookup _ (fold_left _ _ _)).
  rewrite fold_load_lookup.
  destruct (env !! k); [done|].
  destruct (existsb (String.eqb k) inherited); [done|].
  by destruct (first_assignment k (split_lines content)).
Qed.

(** **** Trimming *)

Lemma trimStart_head s :
  trimStart s = "" \/ exists c r, trimStart s = String c r /\ is_space c = false.
Proof.
  induction s as [|c r IH]; simpl; [by left|].
  destruct (is_space c) eqn:Hc; [done|]. right. eauto.
Qed.

Lemma trimEnd_head c r :
  is_space c = false -> exists r', trimEnd (String c r) = String c r'.
Proof. intros Hc. simpl. rewrite Hc. destruct (trimEnd r); eauto. Qed.

Lemma trimEnd_idemp s : trimEnd (trimEnd s) = trimEnd s.
Proof.
  induction s as [|c r IH]; simpl; [done|].
  destruct (trimEnd r) as [|x y] eqn:Hr.
  - destruct (is_space c) eqn:Hc; simpl; [done|]. by rewrite Hc.
  - simpl in *. by rewrite IH.
Qed.

Lemma trimStart_id c r : is_space c = false -> trimStart (String c r) = String c r.
Proof. intros Hc. simpl. by rewrite Hc. Qed.

(** A trimmed string is empty or starts with something that is not
    white space. *)
Lemma trim_head s :
  trim s = "" \/ exists c r, trim s = String c r /\ is_space c = false.
Proof.
  unfold trim. destruct (trimStart_head s) as [->|(c & r & -> & Hc)]; [by left|].
  right. destruct (trimEnd_head c r Hc) as [r' ->]. eauto.
Qed.

Lemma trim_idemp s : trim (trim s) = trim s.
Proof.
  destruct (trim_head s) as [->|(c & r & Hs & Hc)]; [done|].
  unfold trim in *. rewrite Hs, (trimStart_id _ _ Hc), <- Hs. apply trimEnd_idemp.
Qed.

Lemma indexOf_trimStart c s : indexOf c s = None -> indexOf c (trimStart s) = None.
Proof.
  induction s as [|x r IH]; simpl; [done|].
  destruct (Ascii.eqb x c) eqn:Hx; [done|].
  destruct (indexOf c r) eqn:Hr; [done|]. intros _.
  destruct (is_space x); [by apply IH|]. simpl. by rewrite Hx, Hr.
Qed.

Lemma indexOf_trimEnd c s : indexOf c s = None -> indexOf c (trimEnd s) = None.
Proof.
  induction s as [|x r IH]; simpl; [done|].
  destruct (Ascii.eqb x c) eqn:Hx; [done|].
  destruct (indexOf c r) eqn:Hr; [done|]. intros _.
  specialize (IH eq_refl).
  destruct (trimEnd r) as [|y z].
  - destruct (is_space x); simpl; [done|]. by rewrite Hx.
  - remember (String y z) as t. simpl. by rewrite Hx, IH.
Qed.

Lemma indexOf_slice_head c s n :
  indexOf c s = Some n -> indexOf c (slice_head n s) = None.
Proof.
  unfold slice_head. revert n. induction s as [|x r IH]; intros n; simpl; [done|].
  destruct (Ascii.eqb x c) eqn:Hx.
  - intros [= <-]. done.
  - destruct (indexOf c r) as [m|] eqn:Hr; simpl; [|done].
    intros [= <-]. simpl. by rewrite Hx, (IH m).
Qed.

(** The name a line assigns to. *)
Lemma assignment_name line k v :
  assignment line = Some (k, v) ->
  exists c r n,
    trim line = String c r /\ is_space c = false /\ Ascii.eqb c "#" = false
    /\ indexOf "=" (trim line) = Some (S n)
    /\ k = trim (slice_head (S n) (trim line)).
Proof.
  unfold assignment.
  destruct (String.eqb (trim line) "") eqn:He; [done|].
  destruct (startsWith "#" (trim line)) eqn:Hc; [done|]. simpl.
  destruct (indexOf "=" (trim line)) as [[|n]|] eqn:Hi; [done| |done].
  destruct (String.eqb (trim (slice_head (S n) (trim line))) ""); [done|].
  intros [= <- <-].
  destruct (trim_head line) as [Ht|(c & r & Ht & Hs)].
  { rewrite Ht in He. done. }
  exists c, r, n. rewrite Ht in Hc. simpl in Hc. rewrite <- Ht. done.
Qed.

Lemma first_assignment_Some k lines v :
  first_assignment k lines = Some v ->
  exists line, line ∈ lines /\ assignment line = Some (k, v).
Proof.
  induction lines as [|line rest IH]; simpl; [done|].
  destruct (assignment line) as [[k' v']|] eqn:Ha.
  - destruct (String.eqb k' k) eqn:Hk.
    + apply String.eqb_eq in Hk as ->. intros [= ->].
      exists line. split; [apply list_elem_of_here|done].
    + intros Hf. destruct (IH Hf) as (l & Hl & Hl'). exists l.
      split; [by apply list_elem_of_further|done].
  - intros Hf. destruct (IH Hf) as (l & Hl & Hl'). exists l.
    split; [by apply list_elem_of_further|done].
Qed.

Lemma name_is_clean c r n :
  is_space c = false -> Ascii.eqb c "#" = false ->
  indexOf "=" (String c r) = Some (S n) ->
  clean_name (trim (slice_head (S n) (String c r))).
Proof.
  intros Hs Hc Hi.
  pose proof (indexOf_slice_head _ _ _ Hi) as Hno.
  unfold slice_head in *. simpl in Hno |- *.
  set (h := String c (substring 0 n r)) in *.
  destruct (trimEnd_head c (substring 0 n r) Hs) as [r' Hr'].
  assert (trim h = String c r') as Ht.
  { unfold trim. unfold h. by rewrite (trimStart_id _ _ Hs). }
  unfold clean_name. rewrite trim_idemp, Ht. split; [done|]. split; [done|].
  split; [|done].
  rewrite <- Ht. unfold trim. by apply indexOf_trimEnd, indexOf_trimStart.
Qed.

(** X29. The loader only ever defines clean names: the name a line
    assigns to, and so every name the loader adds to the environment, is
    not empty, has no white space around it, holds no equals sign and does
    not start with the comment sign. The loader's own test for an empty
    name can never fire: a trimmed line with an equals sign past its first
    position always has a non-empty name before it. *)
Theorem dotenv_names_are_clean :
  (forall line k v, assignment line = Some (k, v) -> clean_name k)
  /\ (forall envFile env k,
        env !! k = None -> is_Some (loadDotEnv envFile env !! k) -> clean_name k)
  /\ (forall line n,
        trim line <> "" -> indexOf "=" (trim line) = Some (S n) ->
        trim (slice_head (S n) (trim line)) <> "").
Proof.
  assert (forall line k v, assignment line = Some (k, v) -> clean_name k) as Hline.
  { intros line k v Ha.
    destruct (assignment_name _ _ _ Ha) as (c & r & n & Ht & Hs & Hc & Hi & ->).
    rewrite Ht in Hi |- *. by apply name_is_clean. }
  split; [done|]. split.
  - intros envFile env k Hk [v Hv].
    destruct envFile as [content|]; unfold loadDotEnv in Hv; [|congruence].
    rewrite fold_load_lookup, Hk in Hv.
    destruct (existsb (String.eqb k) inherited); [done|].
    destruct (first_assignment_Some _ _ _ Hv) as (line & _ & Ha). by eapply Hline.
  - intros line n Hne Hi.
    destruct (trim_head line) as [Ht|(c & r & Ht & Hs)]; [done|].
    rewrite Ht in Hi |- *. unfold slice_head. simpl.
    destruct (trimEnd_head c (substring 0 n r) Hs) as [r' Hr'].
    unfold trim. rewrite (trimStart_id _ _ Hs), Hr'. done.
Qed.

(** **** A line as one writes it *)

Lemma trimEnd_cons c r : is_space c = false -> trimEnd (String c r) = String c (trimEnd r).
Proof. intros Hc. simpl. rewrite Hc. by destruct (trimEnd r). Qed.

Lemma app_cons c a b : String c a +:+ b = String c (a +:+ b).
Proof. reflexivity. Qed.

Lemma app_nil b : "" +:+ b = b.
Proof. reflexivity. Qed.

Lemma app_empty a b : a +:+ b = "" -> a = "" /\ b = "".
Proof. destruct a; [by rewrite app_nil|by rewrite app_cons]. Qed.

Lemma trimEnd_app a b : trimEnd b <> "" -> trimEnd (a +:+ b) = a +:+ trimEnd b.
Proof.
  intros Hb. induction a as [|c a IH]; [done|].
  rewrite !app_cons. simpl. rewrite IH.
  destruct (a +:+ trimEnd b) eqn:Hab; [|done].
  by apply app_empty in Hab as [_ ?].
Qed.

Lemma trim_fixed s : trim s = s -> trimEnd s = s.
Proof.
  intros Hs. destruct (trim_head s) as [Ht|(c & r & Ht & Hc)].
  - rewrite Ht in Hs. by subst.
  - rewrite Hs in Ht. subst s. rewrite <- Hs at 2.
    unfold trim. by rewrite (trimStart_id _ _ Hc).
Qed.

Lemma clean_name_head k :
  clean_name k -> exists c r, k = String c r /\ is_space c = false /\ Ascii.eqb c "#" = false.
Proof.
  intros (Hne & Ht & _ & Hc).
  destruct (trim_head k) as [He|(c & r & Hk & Hs)]; [congruence|].
  rewrite Ht in Hk. subst k. exists c, r. done.
Qed.

Lemma indexOf_app c k rest :
  indexOf c k = None -> indexOf c (k +:+ String c rest) = Some (String.length k).
Proof.
  induction k as [|x k IH]; [intros _; rewrite app_nil; simpl; by rewrite Ascii.eqb_refl|].
  rewrite app_cons. simpl.
  destruct (Ascii.eqb x c); [done|].
  destruct (indexOf c k); [done|]. intros _. by rewrite IH.
Qed.

Lemma slice_head_app k x : slice_head (String.length k) (k +:+ x) = k.
Proof.
  unfold slice_head. induction k as [|c k IH].
  - rewrite app_nil. by destruct x.
  - rewrite app_cons. simpl. by rewrite IH.
Qed.

Lemma slice_from_app k x : slice_from (String.length k) (k +:+ x) = x.
Proof. induction k as [|c k IH]; [done|]. rewrite app_cons. simpl. apply IH. Qed.

Lemma endsWith_last c v : endsWith c (v +:+ String c "") = true.
Proof.
  induction v as [|x v IH]; [rewrite app_nil; simpl; by rewrite Ascii.eqb_refl|].
  rewrite app_cons. simpl.
  destruct (v +:+ String c "") eqn:Hv; [|done].
  by apply app_empty in Hv as [_ ?].
Qed.

Lemma length_app a b : String.length (a +:+ b) = (String.length a + String.length b)%nat.
Proof. induction a as [|c a IH]; [done|]. rewrite app_cons. simpl. f_equal. apply IH. Qed.

(** What the quoting of a value gives back. *)
Lemma quoted_reads_back q v :
  is_space q = false ->
  let w := String q (v +:+ String q "") in
  trim w = w /\ startsWith q w = true /\ endsWith q w = true /\ slice_inner w = v.
Proof.
  intros Hq w. unfold w. split; [|split; [|split]].
  - unfold trim. rewrite (trimStart_id _ _ Hq), (trimEnd_cons _ _ Hq).
    rewrite trimEnd_app; [|simpl; by rewrite Hq]. simpl. by rewrite Hq.
  - simpl. apply Ascii.eqb_refl.
  - pose proof (endsWith_last q v) as He. simpl.
    destruct (v +:+ String q "") eqn:Hv; [|done].
    by apply app_empty in Hv as [_ ?].
  - unfold slice_inner. simpl. rewrite length_app. simpl.
    replace (String.length v + 1 - 1)%nat with (String.length v) by lia.
    apply (slice_head_app v).
Qed.

(** A line made of a clean name, the equals sign and a trimmed value. *)
Lemma load_line_written env k w :
  clean_name k -> trim w = w ->
  load_line env (k +:+ "=" +:+ w) =
    if defined env k then env
    else <[k := if (startsWith double_quote w && endsWith double_quote w)
                   || (startsWith single_quote w && endsWith single_quote w)
                then slice_inner w else w]> env.
Proof.
  intros Hk Hw.
  destruct (clean_name_head _ Hk) as (c & r & Hkc & Hs & Hc).
  destruct Hk as (Hne & Htk & Hno & _).
  assert ("=" +:+ w = String "=" w) as Heq by reflexivity.
  rewrite Heq.
  assert (trim (k +:+ String "=" w) = k +:+ String "=" w) as Ht.
  { unfold trim.
    assert (trimStart (k +:+ String "=" w) = k +:+ String "=" w) as ->.
    { rewrite Hkc, app_cons. by apply trimStart_id. }
    rewrite trimEnd_app.
    - by rewrite (trimEnd_cons "=" w eq_refl), (trim_fixed _ Hw).
    - by rewrite (trimEnd_cons "=" w eq_refl). }
  assert (exists n, String.length k = S n) as [n Hn] by (rewrite Hkc; simpl; eauto).
  assert (String.eqb (k +:+ String "=" w) "" = false) as Hempty.
  { by rewrite Hkc, app_cons. }
  assert (startsWith "#" (k +:+ String "=" w) = false) as Hhash.
  { by rewrite Hkc, app_cons. }
  assert (indexOf "=" (k +:+ String "=" w) = Some (S n)) as Hidx.
  { by rewrite (indexOf_app "=" k w Hno), Hn. }
  assert (trim (slice_head (S n) (k +:+ String "=" w)) = k) as Hkey.
  { by rewrite <- Hn, slice_head_app. }
  assert (slice_from (S (S n)) (k +:+ String "=" w) = w) as Hval.
  { rewrite <- Hn. replace (S (String.length k)) with (String.length (k +:+ "=")).
    - assert (k +:+ String "=" w = (k +:+ "=") +:+ w) as ->; [|apply slice_from_app].
      clear. induction k as [|x k IH]; [done|]. rewrite !app_cons. f_equal. apply IH.
    - rewrite length_app. simpl. lia. }
  apply String.eqb_neq in Hne.
  unfold load_line. rewrite Ht, Hempty, Hhash, Hidx. cbv beta iota zeta.
  rewrite Hkey, Hne, Hval, Hw. simpl. done.
Qed.

(** X30. A line written the usual way is read back: for a clean name
    the loader finds undefined, which is a name the environment does not
    hold and that is none of those every object inherits, the loop body
    turns the line NAME="value" (or NAME='value') into NAME with exactly
    that value, whatever the value holds, white space, equals signs and
    quotes included; and the line NAME=value, for a value without white
    space around it and not wrapped in quotes, into NAME with that value.
    For a name the loader finds defined the line changes nothing. *)
Theorem dotenv_reads_back_what_was_written env k v :
  clean_name k ->
  (defined env k = false <-> env !! k = None /\ k ∉ inherited)
  /\ (defined env k = false ->
      load_line env (k +:+ "=" +:+ String double_quote (v +:+ String double_quote ""))
        = <[k := v]> env
      /\ load_line env (k +:+ "=" +:+ String single_quote (v +:+ String single_quote ""))
         = <[k := v]> env
      /\ (trim v = v ->
          (startsWith double_quote v && endsWith double_quote v)
            || (startsWith single_quote v && endsWith single_quote v) = false ->
          load_line env (k +:+ "=" +:+ v) = <[k := v]> env))
  /\ (defined env k = true ->
      load_line env (k +:+ "=" +:+ String double_quote (v +:+ String double_quote ""))
        = env
      /\ load_line env (k +:+ "=" +:+ String single_quote (v +:+ String single_quote ""))
         = env
      /\ (trim v = v -> load_line env (k +:+ "=" +:+ v) = env)).
Proof.
  intros Hk.
  destruct (quoted_reads_back double_quote v eq_refl) as (Htd & Hsd & Hed & Hid).
  destruct (quoted_reads_back single_quote v eq_refl) as (Hts & Hss & Hes & His).
  split; [apply defined_false|]. split.
  - intros Hundef. split; [|split].
    + rewrite (load_line_written _ _ _ Hk Htd), Hundef, Hsd, Hed, Hid. done.
    + rewrite (load_line_written _ _ _ Hk Hts), Hundef, Hss, Hes, His.
      by rewrite orb_true_r.
    + intros Ht Hq. by rewrite (load_line_written _ _ _ Hk Ht), Hundef, Hq.
  - intros Hdef. split; [|split].
    + by rewrite (load_line_written _ _ _ Hk Htd), Hdef.
    + by rewrite (load_line_written _ _ _ Hk Hts), Hdef.
    + intros Ht. by rewrite (load_line_written _ _ _ Hk Ht), Hdef.
Qed.

End DotEnv.

(* ===================================================================== *)
(** ** The properties at work on the small installation *)
(* ===================================================================== *)

Import Demo.

Lemma db0_keys_have_merchants : keys_have_merchants db0.
Proof.
  intros id k. unfold db0. simpl. rewrite !lookup_insert.
  repeat case_decide; intros Hk; simplify_eq; vm_compute; eauto.
Qed.

Lemma db0_unique_hashes : unique_hashes db0.
Proof.
  intros i j a b. unfold db0. simpl. rewrite !lookup_insert.
  repeat case_decide; intros Ha Hb Hab; simplify_eq; try done; by vm_compute in Hab.
Qed.

Lemma authenticate_returns_merchant_unless_touch_fails_witness :
  authenticateMerchant (env_at t_verify) (plain_request key_a) db0
  = Next {| merchantId := "m_a"; merchantExternalRef := "shop_a" |}
         (touched (env_at t_verify) "ckeymerchanta0bootstrap01" (key_row "m_a" key_a None) db0).
Proof.
  apply (authenticate_returns_merchant_unless_touch_fails
           (env_at t_verify) (plain_request key_a) db0 key_a "ckeymerchanta0bootstrap01"
           (key_row "m_a" key_a None)
           {| Merchant.externalRef := "shop_a"; Merchant.name := "Shop A" |});
    first [ vm_compute; reflexivity | discriminate ].
Defined.

(** Against C4 as stated: an active key matches, the write of the last-used
    time fails, and authentication returns no merchant. *)
Lemma authenticate_fails_when_touch_fails :
  findFirst (active_with_hash (sha256 key_a)) (apiKeys db0)
    = Some ("ckeymerchanta0bootstrap01", key_row "m_a" key_a None)
  /\ fault env_touch_fails AuthTouch = true
  /\ authenticateMerchant env_touch_fails (plain_request key_a) db0 = Throw db0
  /\ ~ (exists ctx db', authenticateMerchant env_touch_fails (plain_request key_a) db0
                         = Next ctx db').
Proof.
  assert (authenticateMerchant env_touch_fails (plain_request key_a) db0 = Throw db0) as Hthrow
    by (vm_compute; reflexivity).
  repeat apply conj; try (vm_compute; reflexivity); try exact Hthrow.
  intros (ctx & db' & Hn). rewrite Hthrow in Hn. discriminate.
Qed.

(** *** Keys *)

Lemma authenticate_iff_active_key_and_revocation_sticks_witness :
  ((exists ctx db', authenticateMerchant (env_at t_verify) (plain_request key_a) db0
                    = Next ctx db')
   <-> (exists id k, apiKeys db0 !! id = Some k
          /\ ApiKey.keyHash k = sha256 key_a /\ ApiKey.revokedAt k = None))
  /\ (forall ctx db',
        authenticateMerchant (env_at (t_verify + 1000)) (plain_request key_a)
          (run cfg [Call GetHealth (env_at t_verify) (plain_request key_b)]
             (serve cfg PostRevoke (env_at t_verify) revoke_request db0).2)
        <> Next ctx db').
Proof.
  split.
  - apply (proj1 (authenticate_iff_active_key_and_revocation_sticks cfg)
             (env_at t_verify) (plain_request key_a) db0 key_a);
      first [ exact db0_keys_have_merchants | vm_compute; reflexivity | discriminate ].
  - apply (proj2 (authenticate_iff_active_key_and_revocation_sticks cfg)
             (env_at t_verify) revoke_request db0
             (ok (RevokedBody "ckeymerchanta0bootstrap01" (Some t_verify)))
             (serve cfg PostRevoke (env_at t_verify) revoke_request db0).2
             "ckeymerchanta0bootstrap01" (key_row "m_a" key_a None)
             [Call GetHealth (env_at t_verify) (plain_request key_b)]
             (env_at (t_verify + 1000)) (plain_request key_a) key_a);
      first [ exact db0_unique_hashes | vm_compute; reflexivity ].
Defined.

(** Against C3 as stated: the key is revoked, authentication with it fails,
    the seed script runs, and authentication with it succeeds again. *)
Lemma revoked_key_reactivated_by_seed :
  let revoked := serve cfg PostRevoke (env_at t_verify) revoke_request db0 in
  revoked.1 = Replied (ok (RevokedBody "ckeymerchanta0bootstrap01" (Some t_verify)))
  /\ authenticateMerchant (env_at (t_verify + 1000)) (plain_request key_a) revoked.2
     = Reply (unauthorized "INVALID_API_KEY" "API key is invalid or revoked") revoked.2
  /\ authenticateMerchant (env_at (t_verify + 120000)) (plain_request key_a)
       (exec cfg (Seed reseed) revoked.2)
     = Next ctx_a
         (touched (env_at (t_verify + 120000)) "ckeymerchanta0bootstrap01"
            {| ApiKey.merchantId := "m_a";
               ApiKey.keyHash := sha256 key_a;
               ApiKey.label := "bootstrap";
               ApiKey.preview := seed_preview key_a;
               ApiKey.createdAt := 1690000000000;
               ApiKey.lastUsedAt := None;
               ApiKey.revokedAt := None |}
            (exec cfg (Seed reseed) revoked.2)).
Proof. repeat apply conj; vm_compute; reflexivity. Qed.

(** *** The lifecycle *)

Lemma callback_overwrites_status_and_request_is_otherwise_fixed_witness :
  (exists parsed p p',
     callbackSchema (body (callback_request "passed" "verif_001")) = Some parsed
     /\ proofRequests db_pending !! CallbackBody.proofRequestId parsed = Some p
     /\ proofRequests
          (serve cfg PostCallback (env_at 1700000001000)
             (callback_request "passed" "verif_001") db_pending).2
          !! CallbackBody.proofRequestId parsed = Some p'
     /\ ProofRequest.status p' = CallbackBody.result parsed)
  /\ (exists p',
        proofRequests
          (run cfg [Call PostCallback (env_at 1700000001000)
                      (callback_request "passed" "verif_001");
                    Seed reseed] db_pending) !! proof_id = Some p'
        /\ ProofRequest.merchantId p' = "m_a"
        /\ ProofRequest.subjectRef p' = "user_123"
        /\ ProofRequest.minAge p' = 18).
Proof.
  split.
  - apply (proj1 (callback_overwrites_status_and_request_is_otherwise_fixed cfg)
             (env_at 1700000001000) (callback_request "passed" "verif_001") db_pending).
    vm_compute. reflexivity.
  - apply (proj2 (proj2 (callback_overwrites_status_and_request_is_otherwise_fixed cfg))
             [Call PostCallback (env_at 1700000001000) (callback_request "passed" "verif_001");
              Seed reseed]
             db_pending proof_id pending_proof).
    vm_compute. reflexivity.
Defined.

(** Against C2 as stated: a request whose status is the terminal "passed"
    receives a second callback and its status becomes "failed". *)
Lemma passed_request_flipped_to_failed :
  let second := serve cfg PostCallback (env_at 1700000050000)
                  (callback_request "failed" "verif_002") db1 in
  ProofRequest.status <$> proofRequests db1 !! proof_id = Some "passed"
  /\ second.1 = Replied (ok CallbackOkBody)
  /\ ProofRequest.status <$> proofRequests second.2 !! proof_id = Some "failed".
Proof. repeat apply conj; vm_compute; reflexivity. Qed.

Lemma foreign_request_indistinguishable_from_missing_witness :
  (serve cfg GetStatus (env_at t_verify) (proof_request key_b ∅) db1).1
  = (serve cfg GetStatus (env_at t_verify) (proof_request key_b ∅)
       (with_proofRequests (delete proof_id) db1)).1
  /\ (serve cfg GetAssertion (env_at t_verify) (proof_request key_b ∅) db1).1
     = (serve cfg GetAssertion (env_at t_verify) (proof_request key_b ∅)
          (with_proofRequests (delete proof_id) db1)).1
  /\ (fault (env_at t_verify) StatusFindFirst = false ->
      (serve cfg GetStatus (env_at t_verify) (proof_request key_b ∅) db1).1
      = Replied not_found)
  /\ (fault (env_at t_verify) AssertionFindFirst = false ->
      (serve cfg GetAssertion (env_at t_verify) (proof_request key_b ∅) db1).1
      = Replied not_found).
Proof.
  apply (foreign_request_indistinguishable_from_missing cfg
           (env_at t_verify) (proof_request key_b ∅) db1 ctx_b
           (touched (env_at t_verify) "ckeymerchantb0bootstrap03" (key_row "m_b" key_b None) db1)
           proof_id passed_proof);
    first [ vm_compute; reflexivity | discriminate ].
Defined.

Lemma createRequest_succeeds_iff_acceptable_witness :
  serve cfg PostProofRequest (env_at 1700000000000) (create_request "user_123" 18) db0
  = (Replied (created (ProofCreatedBody proof_id "shop_a" "pending"
                ("https://verify.placeholder/proof/" +:+ proof_id))),
     with_proofRequests (<[proof_id := pending_proof]>)
       (touched (env_at 1700000000000) "ckeymerchanta0bootstrap01" (key_row "m_a" key_a None) db0)).
Proof.
  destruct (createRequest_succeeds_iff_acceptable cfg
              (env_at 1700000000000) (create_request "user_123" 18) db0 ctx_a
              (touched (env_at 1700000000000) "ckeymerchanta0bootstrap01" (key_row "m_a" key_a None) db0))
    as [Haccepted _]; [vm_compute; reflexivity..|].
  apply Haccepted.
  eexists. split; [reflexivity|]. split; [vm_compute; reflexivity|].
  split; [vm_compute; lia|]. right. split; [vm_compute; reflexivity|lia].
Defined.

(** Against C9 as stated: a non-empty subjectRef and a minAge within the
    band, and the request is rejected with the validation error. *)
Lemma two_letter_subject_rejected :
  "ab" <> ""
  /\ 13 <= 18 <= 25
  /\ authenticateMerchant (env_at 1700000000000) (create_request "ab" 18) db0
     = Next ctx_a (touched (env_at 1700000000000) "ckeymerchanta0bootstrap01" (key_row "m_a" key_a None) db0)
  /\ serve cfg PostProofRequest (env_at 1700000000000) (create_request "ab" 18) db0
     = (Replied (error_with_details 400 "INVALID_REQUEST" "Request body is invalid"),
        touched (env_at 1700000000000) "ckeymerchanta0bootstrap01" (key_row "m_a" key_a None) db0).
Proof. repeat apply conj; first [ vm_compute; reflexivity | lia | discriminate ]. Qed.

Lemma assertion_status_checked_before_nonce_witness :
  Zod.string_between 8 200 (JStr "short") = None
  /\ serve cfg GetAssertion (env_at t_verify)
       (proof_request key_a {["nonce" := JStr "short"]}) db_pending
     = (Replied proof_not_passed,
        touched (env_at t_verify) "ckeymerchanta0bootstrap01" (key_row "m_a" key_a None) db_pending).
Proof.
  split; [vm_compute; reflexivity|].
  apply (proj1 (assertion_status_checked_before_nonce cfg)
           (env_at t_verify) (proof_request key_a {["nonce" := JStr "short"]}) db_pending
           ctx_a (touched (env_at t_verify) "ckeymerchanta0bootstrap01" (key_row "m_a" key_a None) db_pending)
           proof_id pending_proof);
    first [ vm_compute; reflexivity | discriminate ].
Defined.

(** *** Assertions *)



(** The insert comes before the result: merchant A presents a token whose
    issue time no date can hold; every check passes, the row is written,
    and the call fails. *)
Example unwritable_issue_time_fails_after_the_insert :
  let call := serve cfg PostVerifyAssertion (env_at t_verify) far_request db1 in
  jwtParse (wire minted_far) = Some minted_far
  /\ call.1 = Crashed
  /\ assertionUses db1 !! far_id = None
  /\ is_Some (assertionUses call.2 !! far_id).
Proof.
  repeat apply conj; try (vm_compute; reflexivity).
  vm_compute. eauto.
Qed.



Lemma wrong_nonce_on_issued_assertion_witness :
  serve cfg PostVerifyAssertion (env_at t_verify) (verify_request key_a nonce2) db1
  = (Replied nonce_mismatch, after_auth t_verify "ckeymerchanta0bootstrap01" key_a "m_a" db1).
Proof.
  destruct (wrong_nonce_on_issued_assertion cfg (env_at t_issue) token_id "shop_a"
              proof_id passed_proof nonce1
              (env_at t_verify) (verify_request key_a nonce2) db1 ctx_a
              (after_auth t_verify "ckeymerchanta0bootstrap01" key_a "m_a" db1) (parsed_verify nonce2))
    as [Hfresh _].
  - vm_compute. split; discriminate.
  - vm_compute. reflexivity.
  - vm_compute. lia.
  - vm_compute. reflexivity.
  - vm_compute. reflexivity.
  - reflexivity.
  - vm_compute. reflexivity.
  - reflexivity.
  - discriminate.
  - apply Hfresh. vm_compute. reflexivity.
Defined.

(** Against C6 as stated: the token was issued with nonce1, is signed with
    the server's key and carries merchant A's audience; merchant A presents
    it with another nonce after its ten minutes have run out, and the answer
    is INVALID_ASSERTION, not NONCE_MISMATCH. *)
Lemma wrong_nonce_on_expired_assertion :
  let late := env_at (t_issue + 601000) in
  (buildAgeAssertion cfg (env_at t_issue) token_id "shop_a" proof_id passed_proof nonce1).1.1
    = wire minted
  /\ jwtParse (wire minted) = Some minted
  /\ mac_key minted = jwtSigningKey cfg
  /\ field (claims minted) "aud" = JStr "shop_a"
  /\ field (claims minted) "nonce" = JStr nonce1
  /\ nonce2 <> nonce1
  /\ (serve cfg PostVerifyAssertion late (verify_request key_a nonce2) db1).1
     = Replied invalid_assertion
  /\ (serve cfg PostVerifyAssertion late (verify_request key_a nonce2) db1).1
     <> Replied nonce_mismatch.
Proof.
  repeat apply conj; try (vm_compute; reflexivity).
  - discriminate.
  - vm_compute. discriminate.
Qed.

Lemma assertion_carries_the_requested_threshold_witness :
  let created_ := serve cfg PostProofRequest (env_at 1700000000000)
                    (create_request "user_123" 18) db0 in
  let issued := serve cfg GetAssertion (env_at t_issue)
                  (proof_request key_a {["nonce" := JStr nonce1]})
                  (run cfg [Call PostCallback (env_at 1700000001000)
                              (callback_request "passed" "verif_001")] created_.2) in
  issued.1 = Replied (ok (AssertionBody "Bearer" (wire minted) 600 nonce1 "age_over_18"))
  /\ jwtParse (wire minted) = Some minted
  /\ (exists v,
        (serve cfg PostVerifyAssertion (env_at t_verify) (verify_request key_a nonce1)
           issued.2).1 = Replied (ok (VerifiedBody v))
        /\ assertedAgeOver v = 18)
  /\ exists t j,
       wire minted = jwtSerialize t
       /\ mac_key t = jwtSigningKey cfg
       /\ field (claims t) "age_over" = JNum (NumInt 18)
       /\ "age_over_18" = age_claim 18
       /\ field (claims t) "jti" = JStr j
       /\ (jwtParse (wire minted) = Some t ->
           (forall env_v req_v db_v v db_v',
              token_of req_v = Some (wire minted) ->
              serve cfg PostVerifyAssertion env_v req_v db_v
                = (Replied (ok (VerifiedBody v)), db_v') ->
              assertedAgeOver v = 18)
           /\
           (forall env_v req_v db_v merchant db_v1 parsed,
              authenticateMerchant env_v req_v db_v = Next merchant db_v1 ->
              verifyAssertionSchema (body req_v) = Some parsed ->
              token_of req_v = Some (wire minted) ->
              VerifyBody.expectedNonce parsed = nonce1 ->
              (forall e, VerifyBody.expectedSubjectRef parsed = Some e ->
                 field (claims t) "sub" = JStr e) ->
              field (claims t) "aud" = JStr (merchantExternalRef merchant) ->
              now env_v / 1000 < t_issue / 1000 + 600 ->
              in_date_range (t_issue / 1000) ->
              in_date_range (t_issue / 1000 + 600) ->
              (8 <= String.length j)%nat ->
              assertionUses db_v !! j = None ->
              fault env_v LedgerCreate = false ->
              exists v db_v',
                serve cfg PostVerifyAssertion env_v req_v db_v
                  = (Replied (ok (VerifiedBody v)), db_v')
                /\ valid v = true
                /\ assertedAgeOver v = 18
                /\ meetsMinAge v = (VerifyBody.requiredMinAge parsed <=? 18)
                /\ is_Some (assertionUses db_v' !! j))).
Proof.
  intros created_ issued. split; [vm_compute; reflexivity|].
  split; [vm_compute; reflexivity|].
  split; [eexists; vm_compute; split; reflexivity|].
  apply (assertion_carries_the_requested_threshold cfg
           (env_at 1700000000000) (create_request "user_123" 18) db0
           proof_id "shop_a" "pending" ("https://verify.placeholder/proof/" +:+ proof_id)
           created_.2
           {| RequestBody.subjectRef := "user_123"; RequestBody.minAge := 18 |}
           [Call PostCallback (env_at 1700000001000) (callback_request "passed" "verif_001")]
           (env_at t_issue) (proof_request key_a {["nonce" := JStr nonce1]})
           "Bearer" (wire minted) 600 nonce1 "age_over_18" issued.2);
    vm_compute; reflexivity.
Defined.

(** The walk-through of the specification, end to end: create the request
    for user_123 at 18, pass it, issue with nonce_1700000000, verify with
    the same nonce, then submit the same assertion again. *)
Example walkthrough :
  let db_a := (serve cfg PostProofRequest (env_at 1700000000000)
                 (create_request "user_123" 18) db0).2 in
  let db_b := (serve cfg PostCallback (env_at 1700000001000)
                 (callback_request "passed" "verif_001") db_a).2 in
  let issued := serve cfg GetAssertion (env_at t_issue)
                  (proof_request key_a {["nonce" := JStr nonce1]}) db_b in
  let first := serve cfg PostVerifyAssertion (env_at t_verify)
                 (verify_request key_a nonce1) issued.2 in
  let again := serve cfg PostVerifyAssertion (env_at (t_verify + 5000))
                 (verify_request key_a nonce1) first.2 in
  issued.1 = Replied (ok (AssertionBody "Bearer" (wire minted) 600 nonce1 "age_over_18"))
  /\ (exists v, first.1 = Replied (ok (VerifiedBody v))
        /\ valid v = true /\ meetsMinAge v = true /\ assertedAgeOver v = 18)
  /\ again.1 = Replied replayed.
Proof.
  repeat apply conj; try (vm_compute; reflexivity).
  eexists. repeat apply conj; vm_compute; reflexivity.
Qed.

(** *** More of the installation at work *)

Lemma db_revoked_unique_hashes : unique_hashes db_revoked.
Proof. apply run_calls_unique; [reflexivity|exact db0_unique_hashes]. Qed.

Lemma server_never_writes_merchants_witness :
  merchants
    (run cfg (map (fun c => Call c.1.1 c.1.2 c.2)
                [(PostRevoke, env_at t_verify, revoke_request);
                 (PostApiKeys, env_at t_verify, plain_request key_a)]) db0)
  = merchants db0.
Proof. exact (server_never_writes_merchants cfg _ db0). Defined.

Lemma reading_routes_only_touch_the_key_witness :
  (serve cfg GetStatus (env_at t_verify) (proof_request key_a ∅) db1).2 = db1
  \/ exists id k, apiKeys db1 !! id = Some k
       /\ (serve cfg GetStatus (env_at t_verify) (proof_request key_a ∅) db1).2
          = touched (env_at t_verify) id k db1.
Proof.
  apply (reading_routes_only_touch_the_key cfg GetStatus (env_at t_verify)
           (proof_request key_a ∅) db1).
  vm_compute. reflexivity.
Defined.

Lemma refused_call_changes_nothing_witness :
  serve cfg PostProofRequest (env_at t_verify) (plain_request stranger_key) db0
    = (Replied invalid_api_key, db0)
  /\ statusCode invalid_api_key = 401
  /\ (invalid_api_key = unauthorized "MISSING_API_KEY" "x-api-key header is required"
      \/ invalid_api_key = unauthorized "INVALID_API_KEY" "API key is invalid or revoked").
Proof.
  apply (refused_call_changes_nothing cfg PostProofRequest (env_at t_verify)
           (plain_request stranger_key) db0 invalid_api_key db0);
    vm_compute; reflexivity.
Defined.

Lemma callback_refused_without_the_secret_witness :
  (serve cfg PostCallback (env_at t_verify) forged_callback db_pending).2 = db_pending.
Proof.
  apply (proj2 (callback_refused_without_the_secret cfg (env_at t_verify)
                  forged_callback db_pending)).
  intros [Hh _]. vm_compute in Hh. discriminate.
Defined.

Lemma callback_writes_one_row_witness :
  apiKeys (serve cfg PostCallback (env_at 1700000001000)
             (callback_request "passed" "verif_001") db_pending).2
  = apiKeys db_pending.
Proof.
  exact (proj1 (proj2 (callback_writes_one_row cfg (env_at 1700000001000)
                         (callback_request "passed" "verif_001") db_pending))).
Defined.

Lemma callback_twice_is_callback_once_witness :
  exists db2,
    serve cfg PostCallback (env_at 1700000050000) (callback_request "passed" "verif_001")
      (serve cfg PostCallback (env_at 1700000001000)
         (callback_request "passed" "verif_001") db_pending).2
    = (Replied (ok CallbackOkBody), db2).
Proof.
  destruct (callback_twice_is_callback_once cfg (env_at 1700000001000)
              (callback_request "passed" "verif_001") db_pending
              (serve cfg PostCallback (env_at 1700000001000)
                 (callback_request "passed" "verif_001") db_pending).2
              (env_at 1700000050000))
    as (db2 & Hs & _); [vm_compute; reflexivity..|].
  exists db2. exact Hs.
Defined.

Lemma revoked_key_refused_like_unknown_key_witness :
  authenticateMerchant (env_at (t_verify + 1000)) (plain_request key_a) db_revoked
    = Reply invalid_api_key db_revoked
  /\ authenticateMerchant (env_at (t_verify + 1000)) (plain_request key_a)
       (with_apiKeys (delete "ckeymerchanta0bootstrap01") db_revoked)
     = Reply invalid_api_key (with_apiKeys (delete "ckeymerchanta0bootstrap01") db_revoked).
Proof.
  apply (revoked_key_refused_like_unknown_key (env_at (t_verify + 1000))
           (plain_request key_a) db_revoked key_a "ckeymerchanta0bootstrap01"
           (key_row "m_a" key_a (Some t_verify)));
    first [ exact db_revoked_unique_hashes | vm_compute; reflexivity | discriminate ].
Defined.

Lemma revoke_spares_the_presented_key_witness :
  exists id k,
    apiKeys (serve cfg PostRevoke (env_at t_verify) revoke_request db0).2 !! id = Some k
    /\ ApiKey.keyHash k = sha256 key_a2
    /\ ApiKey.revokedAt k = None.
Proof.
  apply (revoke_spares_the_presented_key cfg (env_at t_verify) revoke_request db0 ctx_a
           (after_auth t_verify "ckeymerchanta0second00002" key_a2 "m_a" db0) key_a2);
    vm_compute; reflexivity.
Defined.

Lemma revoke_of_foreign_key_not_found_witness :
  serve cfg PostRevoke (env_at t_verify) foreign_revoke_request db0
    = (Replied (error 404 "NOT_FOUND" "apiKeyId not found"),
       after_auth t_verify "ckeymerchanta0bootstrap01" key_a "m_a" db0)
  /\ forall id k, apiKeys db0 !! id = Some k ->
       exists k', apiKeys (after_auth t_verify "ckeymerchanta0bootstrap01" key_a "m_a" db0) !! id = Some k'
         /\ ApiKey.revokedAt k' = ApiKey.revokedAt k.
Proof.
  apply (revoke_of_foreign_key_not_found cfg (env_at t_verify) foreign_revoke_request db0
           ctx_a (after_auth t_verify "ckeymerchanta0bootstrap01" key_a "m_a" db0) "ckeymerchantb0bootstrap03");
    [vm_compute; reflexivity..|].
  right. exists (key_row "m_b" key_b None).
  split; [vm_compute; reflexivity|discriminate].
Defined.

Lemma revoke_twice_keeps_first_time_witness :
  serve cfg PostRevoke (env_at (t_verify + 1000)) revoke_request db_revoked
    = (Replied (ok AlreadyRevokedBody),
       after_auth (t_verify + 1000) "ckeymerchanta0second00002" key_a2 "m_a" db_revoked)
  /\ Some t_verify = Some (now (env_at t_verify))
  /\ exists k2,
       apiKeys (after_auth (t_verify + 1000) "ckeymerchanta0second00002" key_a2 "m_a" db_revoked) !! "ckeymerchanta0bootstrap01"
         = Some k2
       /\ ApiKey.revokedAt k2 = Some t_verify.
Proof.
  apply (revoke_twice_keeps_first_time cfg (env_at t_verify) revoke_request db0 "ckeymerchanta0bootstrap01"
           (Some t_verify) db_revoked (env_at (t_verify + 1000)) ctx_a
           (after_auth (t_verify + 1000) "ckeymerchanta0second00002" key_a2 "m_a" db_revoked));
    first [ exact db0_unique_hashes | vm_compute; reflexivity ].
Defined.

Lemma issued_key_authenticates_as_its_issuer_witness :
  let issued := serve cfg PostApiKeys (env_at t_verify) (plain_request key_a) db0 in
  exists ctx db1 row,
    authenticateMerchant (env_at t_verify) (plain_request key_a) db0 = Next ctx db1
    /\ apiKeys db0 !! proof_id = None
    /\ apiKeys issued.2 !! proof_id = Some row
    /\ ApiKey.keyHash row = sha256 issued_key
    /\ ApiKey.preview row = buildApiKeyPreview issued_key
    /\ ApiKey.merchantId row = merchantId ctx
    /\ ApiKey.revokedAt row = None
    /\ authenticateMerchant (env_at (t_verify + 1000)) (plain_request issued_key) issued.2
       = Next ctx (touched (env_at (t_verify + 1000)) proof_id row issued.2).
Proof.
  apply (issued_key_authenticates_as_its_issuer cfg (env_at t_verify) (plain_request key_a)
           db0 proof_id "manual" (buildApiKeyPreview issued_key) t_verify issued_key
           "Save apiKey now. It is shown only once."
           (serve cfg PostApiKeys (env_at t_verify) (plain_request key_a) db0).2
           (env_at (t_verify + 1000)) (plain_request issued_key));
    vm_compute; reflexivity.
Defined.

Lemma db0_unique_refs : unique_refs db0.
Proof.
  intros i j a b. unfold db0. simpl. rewrite !lookup_insert.
  repeat case_decide; intros Ha Hb Hab; simplify_eq; try done; by vm_compute in Hab.
Qed.

Lemma key_list_is_the_callers_keys_newest_first_witness :
  let listed := serve cfg GetApiKeys (env_at t_verify) (list_request key_a ∅) db0 in
  exists ctx,
    authenticateMerchant (env_at t_verify) (list_request key_a ∅) db0 = Next ctx listed.2
    /\ (forall item, item ∈ items_of listed.1 <->
          exists k, apiKeys listed.2 !! item_apiKeyId item = Some k
            /\ item = item_of (item_apiKeyId item, k)
            /\ ApiKey.merchantId k = merchantId ctx
            /\ (Zod.coerce_boolean (field (query (list_request key_a ∅)) "includeRevoked")
                  = true
                \/ ApiKey.revokedAt k = None))
    /\ StronglySorted (fun a b => item_createdAt b <= item_createdAt a) (items_of listed.1)
    /\ NoDup (item_apiKeyId <$> items_of listed.1).
Proof.
  apply (key_list_is_the_callers_keys_newest_first cfg (env_at t_verify)
           (list_request key_a ∅) db0).
  vm_compute. reflexivity.
Defined.

Lemma key_list_shows_this_call_as_last_use_witness :
  let listed := serve cfg GetApiKeys (env_at t_verify) (list_request key_a ∅) db0 in
  exists item k,
    item ∈ items_of listed.1
    /\ apiKeys listed.2 !! item_apiKeyId item = Some k
    /\ ApiKey.keyHash k = sha256 key_a
    /\ item_lastUsedAt item = Some (now (env_at t_verify))
    /\ item_revokedAt item = None.
Proof.
  apply (key_list_shows_this_call_as_last_use cfg (env_at t_verify)
           (list_request key_a ∅) db0);
    vm_compute; reflexivity.
Defined.

Lemma include_revoked_is_on_for_any_nonempty_string_witness :
  let req := list_request key_a2 {["includeRevoked" := JStr "false"]} in
  let listed := serve cfg GetApiKeys (env_at (t_verify + 1000)) req db_revoked in
  exists ctx,
    authenticateMerchant (env_at (t_verify + 1000)) req db_revoked = Next ctx listed.2
    /\ ("false" <> "" ->
        forall id k, apiKeys listed.2 !! id = Some k ->
          ApiKey.merchantId k = merchantId ctx -> item_of (id, k) ∈ items_of listed.1)
    /\ ("false" = "" ->
        forall item, item ∈ items_of listed.1 -> item_revokedAt item = None).
Proof.
  apply (include_revoked_is_on_for_any_nonempty_string cfg (env_at (t_verify + 1000))
           (list_request key_a2 {["includeRevoked" := JStr "false"]}) db_revoked);
    vm_compute; reflexivity.
Defined.

Lemma status_reply_describes_the_callers_request_witness :
  exists ctx p,
    authenticateMerchant (env_at t_verify) (proof_request key_a ∅) db1
      = Next ctx (serve cfg GetStatus (env_at t_verify) (proof_request key_a ∅) db1).2
    /\ proofRequests db1 !! proof_id = Some p
    /\ ProofRequest.merchantId p = merchantId ctx
    /\ "passed" = ProofRequest.status p.
Proof.
  destruct (status_reply_describes_the_callers_request cfg (env_at t_verify)
              (proof_request key_a ∅) db1 proof_id "passed" 18 (Some "age_over_18")
              1700000001000
              (serve cfg GetStatus (env_at t_verify) (proof_request key_a ∅) db1).2)
    as (ctx & p & Hauth & _ & Hp & Hown & Hst & _); [vm_compute; reflexivity|].
  exists ctx, p. exact (conj Hauth (conj Hp (conj Hown Hst))).
Defined.

Lemma request_stays_pending_until_a_callback_witness :
  let later := run cfg meanwhile db_created in
  let seen := db_after (authenticateMerchant (env_at t_verify) (proof_request key_a ∅) later) in
  serve cfg GetStatus (env_at t_verify) (proof_request key_a ∅) later
    = (Replied (ok (ProofStatusBody proof_id "pending" 18 None 1700000000000)), seen)
  /\ serve cfg GetAssertion (env_at t_verify) (proof_request key_a ∅) later
     = (Replied proof_not_passed, seen).
Proof.
  intros later seen.
  destruct (request_stays_pending_until_a_callback cfg
              (env_at 1700000000000) (create_request "user_123" 18) db0 ctx_a
              (after_auth 1700000000000 "ckeymerchanta0bootstrap01" key_a "m_a" db0)
              {| RequestBody.subjectRef := "user_123"; RequestBody.minAge := 18 |}
              proof_id "shop_a" "pending" ("https://verify.placeholder/proof/" +:+ proof_id)
              db_created meanwhile (env_at t_verify) (proof_request key_a ∅) ctx_a seen)
    as [Hstatus Hissue]; [vm_compute; reflexivity..|].
  split; [apply Hstatus|apply Hissue]; reflexivity.
Defined.

Lemma callback_result_is_what_the_owner_reads_witness :
  let passed := (serve cfg PostCallback (env_at 1700000001000)
                   (callback_request "passed" "verif_001") db_pending).2 in
  let later := run cfg meanwhile passed in
  let seen := db_after (authenticateMerchant (env_at t_issue) issue_request later) in
  serve cfg GetStatus (env_at t_issue) issue_request later
    = (Replied (ok (ProofStatusBody proof_id "passed" 18 (Some (age_claim 18))
                  1700000001000)), seen)
  /\ exists a n,
       serve cfg GetAssertion (env_at t_issue) issue_request later
         = (Replied (ok (AssertionBody "Bearer" a (assertionTtlSeconds cfg) n (age_claim 18))),
            seen).
Proof.
  intros passed later seen.
  destruct (callback_result_is_what_the_owner_reads cfg
              (env_at 1700000001000) (callback_request "passed" "verif_001") db_pending
              passed verdict pending_proof meanwhile (env_at t_issue) issue_request ctx_a seen)
    as (_ & Hstatus & _ & Hissue); [vm_compute; reflexivity..|].
  split.
  - apply Hstatus. reflexivity.
  - apply Hissue; [reflexivity|reflexivity|]. vm_compute. eauto.
Defined.


Lemma accepted_verification_report_witness :
  exists v,
    (serve cfg PostVerifyAssertion (env_at t_verify) (verify_request key_a nonce1) db1).1
      = Replied (ok (VerifiedBody v))
    /\ valid v = true
    /\ (meetsMinAge v = true <-> requiredMinAge v <= assertedAgeOver v)
    /\ v_issuer v = JStr "proofage-rail"
    /\ ("shop_a" <> "" -> names_audience (v_audience v) "shop_a").
Proof.
  assert (exists v d,
            serve cfg PostVerifyAssertion (env_at t_verify) (verify_request key_a nonce1) db1
            = (Replied (ok (VerifiedBody v)), d)) as (v & d & Hs).
  { eexists _, _. vm_compute. reflexivity. }
  destruct (accepted_verification_report cfg _ _ _ _ _ Hs)
    as (ctx & d1 & o & a & t & Hauth & _ & Hvalid & _ & _ & _ & Hmeets & _ & Hiss & _ & _
        & _ & Haud & _).
  vm_compute in Hauth. injection Hauth as <- _.
  exists v. rewrite Hs. exact (conj eq_refl (conj Hvalid (conj Hmeets (conj Hiss Haud)))).
Defined.

Lemma accepted_verification_has_the_expected_subject_witness :
  exists v,
    (serve cfg PostVerifyAssertion (env_at t_verify)
       (verify_request_for key_a nonce1 "user_123") db1).1
      = Replied (ok (VerifiedBody v))
    /\ v_subjectRef v = JStr "user_123".
Proof.
  assert (exists v d,
            serve cfg PostVerifyAssertion (env_at t_verify)
              (verify_request_for key_a nonce1 "user_123") db1
            = (Replied (ok (VerifiedBody v)), d)) as (v & d & Hs).
  { eexists _, _. vm_compute. reflexivity. }
  exists v. rewrite Hs. split; [reflexivity|].
  eapply (accepted_verification_has_the_expected_subject cfg _ _ _ _ _ _ _ Hs);
    vm_compute; reflexivity.
Defined.

Lemma assertion_refused_for_another_merchant_witness :
  let seen := db_after (authenticateMerchant (env_at t_verify) (verify_request key_b nonce1)
                          db1) in
  serve cfg PostVerifyAssertion (env_at t_verify) (verify_request key_b nonce1) db1
    = (Replied invalid_assertion, seen)
  /\ assertionUses seen = assertionUses db1.
Proof.
  intros seen.
  destruct (assertion_refused_for_another_merchant cfg
              (env_at t_issue) issue_request db1 ctx_a
              (db_after (authenticateMerchant (env_at t_issue) issue_request db1))
              proof_id passed_proof (Some nonce1) "Bearer" (wire minted) 600 nonce1
              "age_over_18"
              (serve cfg GetAssertion (env_at t_issue) issue_request db1).2
              (env_at t_verify) (verify_request key_b nonce1) db1 ctx_b seen
              (parsed_verify nonce1))
    as [Hrefused _];
    [first [ vm_compute; reflexivity | discriminate ]..|].
  apply Hrefused. discriminate.
Defined.

Lemma issued_assertion_verifies_until_it_expires_witness :
  let seen := db_after (authenticateMerchant (env_at t_verify) (verify_request key_a nonce1)
                          db1) in
  exists v row,
    serve cfg PostVerifyAssertion (env_at t_verify) (verify_request key_a nonce1) db1
      = (Replied (ok (VerifiedBody v)), with_assertionUses (<[token_id := row]>) seen)
    /\ valid v = true
    /\ assertedAgeOver v = 18.
Proof.
  intros seen.
  destruct (issued_assertion_verifies_until_it_expires cfg
              (env_at t_issue) issue_request db1 ctx_a
              (db_after (authenticateMerchant (env_at t_issue) issue_request db1))
              proof_id passed_proof (Some nonce1) "Bearer" (wire minted) 600 nonce1
              "age_over_18"
              (serve cfg GetAssertion (env_at t_issue) issue_request db1).2
              (env_at t_verify) (verify_request key_a nonce1) db1 ctx_a seen
              (parsed_verify nonce1))
    as (Hfresh & _ & _ & _).
  1-6, 9-13, 15-16: vm_compute; reflexivity.
  - intros i. unfold env_at. simpl. destruct (i =? 0)%nat; simpl; lia.
  - simpl. lia.
  - left. reflexivity.
  - destruct Hfresh as (v & row & Hs & Hvalid & Hage & _);
      [reflexivity|vm_compute; split; discriminate..|].
    exists v, row. exact (conj Hs (conj Hvalid Hage)).
Defined.

Lemma seeded_key_authenticates_as_the_bootstrap_merchant_witness :
  (16 <= String.length (BOOTSTRAP_API_KEY bootstrap))%nat
  /\ exists ctx m db'',
       authenticateMerchant (env_at (t_verify + 1000))
         (plain_request (BOOTSTRAP_API_KEY bootstrap)) (db_after (seed bootstrap db0))
         = Next ctx db''
       /\ merchantExternalRef ctx = BOOTSTRAP_MERCHANT_EXTERNAL_REF bootstrap
       /\ merchants (db_after (seed bootstrap db0)) !! merchantId ctx = Some m
       /\ Merchant.externalRef m = BOOTSTRAP_MERCHANT_EXTERNAL_REF bootstrap
       /\ Merchant.name m = BOOTSTRAP_MERCHANT_NAME bootstrap.
Proof.
  apply (seeded_key_authenticates_as_the_bootstrap_merchant bootstrap db0
           (db_after (seed bootstrap db0)) (env_at (t_verify + 1000))
           (plain_request (BOOTSTRAP_API_KEY bootstrap)));
    first [ exact db0_unique_hashes | vm_compute; reflexivity ].
Defined.

Lemma seed_again_changes_nothing_witness :
  seed bootstrap_again (db_after (seed bootstrap db0))
  = Next tt (db_after (seed bootstrap db0)).
Proof.
  apply (seed_again_changes_nothing bootstrap db0 (db_after (seed bootstrap db0))
           bootstrap_again);
    first [ exact db0_unique_hashes | exact db0_unique_refs | vm_compute; reflexivity ].
Defined.

Lemma tables_have_their_writers_witness :
  proofRequests (run cfg meanwhile db1) = proofRequests db1.
Proof.
  apply (proj1 (tables_have_their_writers cfg meanwhile db1)).
  vm_compute. reflexivity.
Defined.

Lemma store_stays_well_formed_witness :
  let es := [Seed bootstrap;
             Call PostApiKeys (env_at t_verify) (plain_request key_a);
             Call PostRevoke (env_at (t_verify + 1000)) revoke_request] in
  unique_hashes (run cfg es db0)
  /\ unique_refs (run cfg es db0)
  /\ keys_have_merchants (run cfg es db0).
Proof.
  apply (store_stays_well_formed cfg _ db0);
    [exact db0_unique_hashes | exact db0_unique_refs | exact db0_keys_have_merchants].
Defined.

Lemma dotenv_environment_wins_then_first_line_witness :
  loadDotEnv (Some env_file) process_env !! "PORT" =
    match process_env !! "PORT" with
    | Some v => Some v
    | None =>
        if existsb (String.eqb "PORT") inherited then None
        else first_assignment "PORT" (split_lines env_file)
    end.
Proof. exact (dotenv_environment_wins_then_first_line (Some env_file) process_env "PORT"). Defined.

(** A line for an inherited name is not loaded. *)
Example inherited_name_is_not_loaded :
  assignment "toString=1" = Some ("toString", "1")
  /\ process_env !! "toString" = None
  /\ loadDotEnv (Some "toString=1") process_env = process_env.
Proof. repeat apply conj; vm_compute; reflexivity. Qed.

Lemma dotenv_loading_twice_is_loading_once_witness :
  loadDotEnv (Some env_file) (loadDotEnv (Some env_file) process_env)
  = loadDotEnv (Some env_file) process_env.
Proof. exact (dotenv_loading_twice_is_loading_once (Some env_file) process_env). Defined.

Lemma dotenv_names_are_clean_witness : clean_name "JWT_SIGNING_KEY".
Proof.
  apply (proj1 (proj2 dotenv_names_are_clean) (Some env_file) process_env "JWT_SIGNING_KEY").
  - vm_compute. reflexivity.
  - exists "a b=c". vm_compute. reflexivity.
Defined.

Lemma dotenv_reads_back_what_was_written_witness :
  load_line process_env
    ("JWT_SIGNING_KEY" +:+ "=" +:+ String double_quote ("a b=c" +:+ String double_quote ""))
  = <["JWT_SIGNING_KEY" := "a b=c"]> process_env.
Proof.
  destruct (dotenv_reads_back_what_was_written process_env "JWT_SIGNING_KEY" "a b=c")
    as (_ & Hundefined & _).
  - unfold clean_name. repeat apply conj;
      first [ vm_compute; reflexivity | discriminate ].
  - destruct Hundefined as [Hdouble _]; [vm_compute; reflexivity|exact Hdouble].
Defined.

(** The loader on the sample file: the comment and the line without an
    equals sign are skipped, the first PORT wins, the quotes go. *)
Example env_file_loaded :
  loadDotEnv (Some env_file) process_env
  = <["JWT_SIGNING_KEY" := "a b=c"]> (<["PORT" := "8787"]> process_env).
Proof. vm_compute. reflexivity. Qed.

